(* ===== verification/_CoqProject ===== *)
-Q . S2P
Prelude.v
Configs.v
Materials.v
GlassAnim.v
Camera.v
Scene.v
Session.v
ApplyIdem.v
GlassCycle.v
Leak.v
PageEvents.v
PostFx.v
Viewport.v
Env.v
Ui.v
