(* ===== verification/Prelude.v ===== *)
(** * A verification development of the Wayfarer glasses configurator

    The program (src/main.js and the skin files src/configs/*.js) is a
    three.js page that loads one glasses model, dresses its meshes with the
    materials of a "skin" configuration, moves a perspective camera between
    the named cameras of the model, and, while the camera named by the skin
    is active, cycles the lenses between their tinted colour and a clear
    white.  Everything runs on the browser's single thread: the asset
    loader calls back into [loadModel]'s closure, the buttons call
    [applyConfig] and [smoothSwitchCamera], and [animate] runs once per
    display frame.  The parts share the module-level variables of main.js
    (lines 25-43, 485-530): the glass lists that [loadModel] fills and
    [animate] reads, the camera table that [loadModel] fills and
    [smoothSwitchCamera] reads, and [activeCameraName], which the camera
    part writes and the glass part reads as its gate.

    ** Files and what they model

    - [Prelude] (this file): numbers, colours, vectors and quaternions; the
      JavaScript and three.js helpers the code calls ([Math.min],
      [MathUtils.lerp], [Color.lerpColors], [Vector3.lerpVectors],
      [String.prototype.includes], [toLowerCase], [x || null]); the
      smoothstep [ease] and the clamped [progress] the code writes out at
      main.js:725-726, 782-783, 812-813; their lemmas, the [Proper]
      instances, and the [wayfarer] hint database.
    - [Configs]: the [MODEL_CONFIG] record of the seven skin files under
      src/configs/ (optional fields as [option]), in [Module Skins]; the
      button list of main.js:86-93; the data invariant [config_wf].
    - [Materials]: the three.js material record and the material store (a
      [gmap] from addresses to material objects, so that the aliasing
      between [glassMaterials] and the meshes' [material] slots is explicit),
      and the builders of [loadModel]/[applyConfig]: frame, arm-text (with
      the overlay fragment of its [onBeforeCompile] hook), glass, fake
      interior, and the in-place updates of [applyConfig].
    - [GlassAnim]: [glassAnim] and the glass half of [animate]
      (main.js:756-850): the four-phase timer shared by all glass materials,
      the per-material [forEach] body [glass_mat_step], the reset when the
      animation stops, the [THREE.Clock] [getDelta], and the phase contract
      [glass_spec] a lens should follow.
    - [Camera]: [transition], [smoothSwitchCamera] (main.js:662-701) and the
      camera half of [animate] (main.js:722-750), in a Section over the
      type class [ThreeOps] for the three.js operations that cannot be
      computed exactly (quaternion slerp with its [t === 0]/[t === 1]
      early returns, [lookAt], [OrbitControls.update]); [cam_reachable] is
      the step relation of camera buttons and frames.
    - [Scene]: the glTF node tree, [Object3D.traverse] order, the
      instantiation of a model into the store, and the name and material
      tests of [loadModel] and [applyConfig].
    - [Session]: the whole page.  The module-level variables are the record
      [Session]; [loadModel], its loader callback, [applyConfig] and one
      [animate] call are computations in a state-and-error monad [M]
      ([Session -> (A + JsError) * Session]), so that the [TypeError] of
      [currentModel.traverse] on a null model is a value and the statements
      before it keep their effect.  The page is a sequence of events
      ([Event]: skin button, camera button, animation frame, a [loadModel]
      call, the completion or failure of a load in flight) run by [run]
      from [page_start], the state after main.js:900.  Loads in flight are
      an explicit list, so their interleaving with the other events is part
      of the event sequence.  A small Hoare logic over [M] ([hoare],
      [preserves], [establishes], [returns]) carries the proofs.
    - [ApplyIdem]: what the meshes of the current model show ([model_view])
      and what one [applyConfig] call makes them show ([applied_obj]),
      object by object through its role, fake-interior and glass passes;
      the page invariant [page_ok] of every reachable state; the loader's
      callback split into its prefix and [applyConfig].
    - [GlassCycle]: the abstract phase machine of the [switch]
      ([phase_next], [anim_advance]); the loop over any number of lenses
      moves the phase as one step of it, up to the numeric equivalence
      [anim_eq], for which the machine is [Proper].
    - [Leak]: the material lifecycle: [orphan] (allocated, unreferenced,
      undisposed) and the invariant [leak_ok] (every disposed address was
      allocated), both kept by every event.
    - [PageEvents]: the buttons over whole runs: skin clicks in place,
      camera buttons gating the glass animation by name, the fake
      interior a skin without a fake texture leaves in place.
    - [PostFx]: the two full-screen fragment shaders, per texel: the
      composer's contrast pass (main.js:99-121, 557-563) and the HDR
      desaturation pass with the unsigned-byte render target it draws into
      (main.js:598-661).
    - [Viewport]: the camera aspect, the canvas and the composer's render
      target at page start, and the [resize] listener (main.js:707-711).
    - [Env]: the three lights (main.js:585-591) and the HDR loader's
      callback (main.js:598-661) as a sequence of renderer operations in a
      state monad [GLM] over the objects it makes (textures, render
      targets, the quad's geometry and material, the PMREM generator's
      ping-pong target) and their GPU storage, where [dispose] frees the
      storage and a later use re-uploads it; texture sampling and the
      PMREM prefilter are the class [GLOps].
    - [Ui]: the two button panels ([makeModelButton], main.js:66-93, and
      the [cameraButtons.forEach], main.js:873-897) as lists of labelled
      buttons whose handlers run [Session] events, and the page as its user
      drives it ([ui_run] of presses, frames and load callbacks from
      [page_init]).

    ** What the theorems show

    - Glass animation: with one lens every frame refines the phase contract
      (C1); with several, the frame that ends a fade only finishes the
      first lens (C2, a bug of the [switch] inside [forEach]); leaving the
      gating camera resets every lens to its rest values (C8); coming back
      to it more than 1 s later skips the hold (C17); a frame keeps
      lens colours and opacities in [0, 1] (C24).
    - Camera: a switch reaches its target exactly (C3) and starts from the
      current pose (C4); free-orbit mode and a transition never coexist in
      a reachable state (C5, rule induction on [cam_reachable]); positions
      stay between the endpoints (C6); an unknown camera only renames the
      active camera (C7).
    - Page: every reachable state keeps the store and the glass lists
      consistent (C9); a skin click keeps the old rest values (C10);
      overlapping loads leave two models (C11) while serialized loads keep
      at most the current one (C12); a failed reload empties the scene
      (C13); a reload reuses stale rest opacities (C14); a skin click
      without a model throws (C15) and one during the first load is lost
      (C16); loading X, Y and X again gives the camera table and glass
      count of the first load of X (C18); a skin click re-tunes the
      glass in place and keeps the load-time roughness and metalness
      (C19); [armsTextMeshes] stays empty, so its loop is dead (C20);
      applying a skin twice shows what applying it once does (C23); a
      second skin click orphans the first click's frame and arm-text
      materials for the rest of the session, a GPU leak (C25); skin clicks
      keep the glass lists, the current model, the scene and the set of
      models (C29); a camera button naming a gating camera the model lacks
      still starts the glass animation (C30); after a skin with a fake
      interior texture, a skin without one keeps that interior, so what
      the interior shows depends on the order of the clicks (C31).
    - User interface: the page a user drives through the panels main.js
      builds never calls [loadModel] again, so its loads are serialized
      and the scene holds at most one model with a well-formed skin (C32,
      composing the panels with C12's invariant and the skins' data
      invariant [config_wf]).
    - Liveness: with frames h ms apart the glass cycle reaches the next
      phase within 2000/h + 1 frames (C26).
    - Rendering: the environment pass greys every texel to its
      luminance and its 8-bit target flattens every highlight (C27); a
      window resize leaves the composer at the load-time size (C28); the
      HDR callback sets the environment to the PMREM map of the greyed
      HDR, frees the HDR texture and its render target only after their
      last use, and leaves the quad's program and buffers and the PMREM
      generator's ping-pong target allocated for good (C33).
    - Materials: the arm-text overlay stays in range and meets its blend
      endpoints (C21); arm text and frame share their base properties
      exactly when C22 says.

    ** Numbers, bounds and fuel

    JavaScript numbers are modelled as exact rationals [Q]: the
    interpolations are affine and polynomial in the inputs, so every value
    the code computes is a rational function of the configuration and of
    the frame timestamps.  Floating-point rounding is not modelled; where a
    theorem states an exact endpoint ([ease 1 == 1]) the code's float
    computation is exact as well ([1*1*(3-2*1)] is exactly [1] in binary64).
    Equalities of computed numbers are stated with [Qeq] ([==]), and of
    colours and vectors with the componentwise equivalence [≡]; the
    operations are [Proper] for them, so they rewrite.  No definition
    needs fuel: every traversal is structural on the node tree or on a
    list, and [animate]'s self-scheduling is the event list of [run].  The
    liveness bound of C26 is [cycle_bound h = 1 + ceil(2000 / h)] frames:
    the longest phase is the 1.5 s fade, and that many frames of [h / 1000]
    seconds add up to more than 1.5 s from any non-negative timer.

    ** Not modelled

    The WebGL renderer itself (rasterisation, antialiasing, tone mapping,
    colour-space output, shading with the lights), RGBE decoding, texture
    sampling and PMREM prefiltering, which are three.js internals the code
    only calls (the last two are the class [GLOps] of Env); the
    buttons' inline styles and the panels' layout, which are
    presentation only; the OrbitControls' damping and distance limits,
    which act inside [OrbitControls.update] (the [ThreeOps] class of
    Camera); the asset and texture fetches (a texture is the handle [textureLoader.load] returns;
    a model is the node tree the loader delivers); geometry and bounding
    boxes (the model centre is an input of the load); the skin file
    w_shiny_black_cgreen.js, which main.js imports but the repository does
    not contain.
*)

From Stdlib Require Export QArith Qminmax Lqa Psatz String Ascii.
From stdpp Require Export base gmap strings list.

Declare Scope wayfarer_scope.
Delimit Scope wayfarer_scope with wf.
Open Scope Q_scope.

(** ** Vectors, colours and quaternions *)

Record Vec3 := mkVec3 { vx : Q; vy : Q; vz : Q }.
Record Color := mkColor { cr : Q; cg : Q; cb : Q }.
Record Quat := mkQuat { qx : Q; qy : Q; qz : Q; qw : Q }.

Notation "'⟪' a , b , c '⟫'" := (mkColor a b c) (at level 0) : wayfarer_scope.
Open Scope wayfarer_scope.

(** [new THREE.Color(1, 1, 1)] *)
Definition white : Color := ⟪ 1, 1, 1 ⟫.
(** [new THREE.Vector3()] and [new THREE.Quaternion()] *)
Definition vec_zero : Vec3 := mkVec3 0 0 0.
Definition quat_identity : Quat := mkQuat 0 0 0 1.

#[export] Instance Color_equiv : Equiv Color :=
  fun c d => cr c == cr d /\ cg c == cg d /\ cb c == cb d.
#[export] Instance Vec3_equiv : Equiv Vec3 :=
  fun u v => vx u == vx v /\ vy u == vy v /\ vz u == vz v.

(** ** JavaScript and three.js helpers *)

(** [a < b] on numbers. *)
Definition Qltb (a b : Q) : bool := negb (Qle_bool b a).

(** [THREE.MathUtils.lerp(x, y, t) = (1 - t) * x + t * y]. *)
Definition mathutils_lerp (x y t : Q) : Q := (1 - t) * x + t * y.

(** [Color.lerpColors(c1, c2, a)]: [r = c1.r + (c2.r - c1.r) * a], ... *)
Definition color_lerp (c1 c2 : Color) (a : Q) : Color :=
  ⟪ cr c1 + (cr c2 - cr c1) * a, cg c1 + (cg c2 - cg c1) * a,
    cb c1 + (cb c2 - cb c1) * a ⟫.

(** [Vector3.lerpVectors(v1, v2, a)]. *)
Definition vec_lerp (v1 v2 : Vec3) (a : Q) : Vec3 :=
  mkVec3 (vx v1 + (vx v2 - vx v1) * a) (vy v1 + (vy v2 - vy v1) * a)
         (vz v1 + (vz v2 - vz v1) * a).

(** The smoothstep ease the code writes three times:
    [const ease = t * t * (3 - 2 * t)]. *)
Definition ease (t : Q) : Q := t * t * (3 - 2 * t).

(** [Math.min(elapsed / duration, 1)]: the progress of a timed phase.
    There is no lower clamp in the code. *)
Definition progress (elapsed duration : Q) : Q := Qmin (elapsed / duration) 1.

(** [s.includes(needle)] on ASCII strings. *)
Fixpoint js_includes (s needle : string) : bool :=
  String.prefix needle s ||
  match s with
  | EmptyString => false
  | String _ s' => js_includes s' needle
  end.

(** [s.toLowerCase()] on ASCII strings. *)
Definition ascii_lower (c : ascii) : ascii :=
  let n := nat_of_ascii c in
  if (65 <=? n)%nat && (n <=? 90)%nat then ascii_of_nat (n + 32) else c.

Fixpoint js_toLowerCase (s : string) : string :=
  match s with
  | EmptyString => EmptyString
  | String c s' => String (ascii_lower c) (js_toLowerCase s')
  end.

(** [x || null] for an optional string: [undefined] and [''] are falsy. *)
Definition js_or_null (o : option string) : option string :=
  match o with
  | Some s => if String.eqb s "" then None else Some s
  | None => None
  end.

(** [x === true] and [if (x)] for an optional boolean field. *)
Definition js_true (o : option bool) : bool :=
  match o with Some true => true | _ => false end.

(** [x ?? d] *)
Definition js_default {A} (d : A) (o : option A) : A :=
  match o with Some x => x | None => d end.

(** [===] on [string | null]. *)
Definition opt_str_eqb (a b : option string) : bool :=
  match a, b with
  | Some x, Some y => String.eqb x y
  | None, None => true
  | _, _ => false
  end.

(** ** Automation *)

Create HintDb wayfarer discriminated.

(** Unfold the componentwise equivalences into their [Qeq] components. *)
Ltac equiv_split :=
  unfold equiv, Color_equiv, Vec3_equiv in *; cbn [cr cg cb vx vy vz] in *;
  repeat match goal with
         | |- _ /\ _ => split
         | H : _ /\ _ |- _ => destruct H
         end.

(** Rewrite with every [Qeq] hypothesis between variables. *)
Ltac rewrite_qeqs :=
  repeat match goal with
         | H : ?a == _ |- _ => is_var a; rewrite H in *; clear H
         end.

(** Close an arithmetic goal on rationals after splitting equivalences. *)
Ltac qsolve := equiv_split; try (subst; ring); nra.

(** ** Equivalences *)

#[export] Instance Color_equivalence : Equivalence (≡@{Color}).
Proof.
  split; repeat intros []; equiv_split; simpl in *;
    repeat split; eauto using Qeq_trans, Qeq_sym, Qeq_refl.
Qed.

#[export] Instance Vec3_equivalence : Equivalence (≡@{Vec3}).
Proof.
  split; repeat intros []; equiv_split; simpl in *;
    repeat split; eauto using Qeq_trans, Qeq_sym, Qeq_refl.
Qed.

#[export] Instance ease_proper : Proper (Qeq ==> Qeq) ease.
Proof. intros x y H. unfold ease. rewrite H. reflexivity. Qed.

#[export] Instance progress_proper : Proper (Qeq ==> Qeq ==> Qeq) progress.
Proof. intros a b H c d H'. unfold progress. rewrite H, H'. reflexivity. Qed.

#[export] Instance mathutils_lerp_proper :
  Proper (Qeq ==> Qeq ==> Qeq ==> Qeq) mathutils_lerp.
Proof. intros ?? H1 ?? H2 ?? H3. unfold mathutils_lerp. rewrite H1, H2, H3. reflexivity. Qed.

#[export] Instance color_lerp_proper :
  Proper ((≡) ==> (≡) ==> Qeq ==> (≡)) color_lerp.
Proof.
  intros [] [] H1 [] [] H2 ?? H3. unfold color_lerp. equiv_split.
  all: rewrite_qeqs; reflexivity.
Qed.

#[export] Instance vec_lerp_proper :
  Proper ((≡) ==> (≡) ==> Qeq ==> (≡)) vec_lerp.
Proof.
  intros [] [] H1 [] [] H2 ?? H3. unfold vec_lerp. equiv_split.
  all: rewrite_qeqs; reflexivity.
Qed.

#[export] Instance Qle_decision (a b : Q) : Decision (a <= b).
Proof. destruct (Qlt_le_dec b a); [right; lra | left; lra]. Defined.

(** ** Generic lemmas *)

Lemma Qltb_spec a b : Qltb a b = true <-> a < b.
Proof.
  unfold Qltb. rewrite negb_true_iff.
  split; intro H.
  - apply Qnot_le_lt. intros Hle. apply Qle_bool_iff in Hle. congruence.
  - destruct (Qle_bool b a) eqn:E; [|reflexivity].
    apply Qle_bool_iff in E. lra.
Qed.

Lemma Qltb_false a b : Qltb a b = false <-> b <= a.
Proof.
  unfold Qltb. rewrite negb_false_iff. apply Qle_bool_iff.
Qed.

Lemma ease_0 t : t == 0 -> ease t == 0.
Proof. intros ->. reflexivity. Qed.

Lemma ease_1 t : t == 1 -> ease t == 1.
Proof. intros ->. reflexivity. Qed.

(** On [0, 1] the ease stays in [0, 1]. *)
Lemma ease_range t : 0 <= t <= 1 -> 0 <= ease t <= 1.
Proof.
  intros [H0 H1]. split.
  - apply Qmult_le_0_compat; [apply Qmult_le_0_compat|]; lra.
  - assert (E : 1 - ease t == (1 - t) * (1 - t) * (1 + 2 * t)) by (unfold ease; ring).
    assert (0 <= (1 - t) * (1 - t) * (1 + 2 * t)).
    { apply Qmult_le_0_compat; [apply Qmult_le_0_compat|]; lra. }
    lra.
Qed.

Lemma progress_le_1 e d : progress e d <= 1.
Proof. apply Q.le_min_r. Qed.

Lemma progress_full e d : 0 < d -> d <= e -> progress e d == 1.
Proof.
  intros Hd He. unfold progress. apply Q.min_r.
  apply Qle_shift_div_l; lra.
Qed.

Lemma progress_partial e d : 0 < d -> e <= d -> progress e d == e / d.
Proof.
  intros Hd He. unfold progress. apply Q.min_l.
  apply Qle_shift_div_r; lra.
Qed.

Lemma progress_nonneg e d : 0 <= e -> 0 < d -> 0 <= progress e d.
Proof.
  intros He Hd. unfold progress. apply Q.min_glb; [|lra].
  apply Qle_shift_div_l; lra.
Qed.

(** [progress] reaches [1] exactly when the elapsed time reaches the duration. *)
Lemma progress_one_iff e d : 0 < d -> (1 <= progress e d <-> d <= e).
Proof.
  intros Hd. unfold progress. rewrite Q.min_glb_iff. split.
  - intros [H _].
    assert (E : e == e / d * d) by (field; intro; lra).
    rewrite E. nra.
  - intros H. split; [|lra]. apply Qle_shift_div_l; lra.
Qed.

Lemma mathutils_lerp_0 x y t : t == 0 -> mathutils_lerp x y t == x.
Proof. intros ->. unfold mathutils_lerp. ring. Qed.

Lemma mathutils_lerp_1 x y t : t == 1 -> mathutils_lerp x y t == y.
Proof. intros ->. unfold mathutils_lerp. ring. Qed.

Lemma color_lerp_0 c d a : a == 0 -> color_lerp c d a ≡ c.
Proof. intros ->. unfold color_lerp. equiv_split; ring. Qed.

Lemma color_lerp_1 c d a : a == 1 -> color_lerp c d a ≡ d.
Proof. intros ->. unfold color_lerp. equiv_split; ring. Qed.

Lemma vec_lerp_0 u v a : a == 0 -> vec_lerp u v a ≡ u.
Proof. intros ->. unfold vec_lerp. equiv_split; ring. Qed.

Lemma vec_lerp_1 u v a : a == 1 -> vec_lerp u v a ≡ v.
Proof. intros ->. unfold vec_lerp. equiv_split; ring. Qed.

Lemma opt_str_eqb_spec a b : reflect (a = b) (opt_str_eqb a b).
Proof.
  destruct a as [x|], b as [y|]; simpl; try (constructor; congruence).
  destruct (String.eqb_spec x y); constructor; congruence.
Qed.

Lemma js_default_some {A} (d x : A) : js_default d (Some x) = x.
Proof. reflexivity. Qed.

#[export] Hint Resolve ease_range progress_le_1 progress_nonneg : wayfarer.
#[export] Hint Resolve color_lerp_0 color_lerp_1 vec_lerp_0 vec_lerp_1 : wayfarer.
#[export] Hint Resolve mathutils_lerp_0 mathutils_lerp_1 ease_0 ease_1 : wayfarer.
