(* ===== verification/Configs.v ===== *)
(** * The skin configurations (src/configs/*.js)

    [ModelConfig] is the shape of every [MODEL_CONFIG] object; a field the
    code reads with [??], [||], [?.] or a truthiness test and that some
    file omits is an [option].  Module [Skins] holds the seven files as
    values, and [skin_buttons] the list of buttons main.js:86-93 creates.
    [config_wf] is the data invariant of spec section 3 (colours and
    opacities in [0, 1]); every skin satisfies it. *)

From S2P Require Import Prelude.

Record FrameCfg := mkFrameCfg {
  baseColor : Color;
  frame_roughness : Q;
  frame_metalness : Q;
  trans : option bool;
  frame_opacity : option Q;
  reflectivity : option Q
}.

Record ArmsTextCfg := mkArmsTextCfg {
  overlay : string;
  text_color : Color
}.

Record GlassCfg := mkGlassCfg {
  glass_color : Color;
  glass_roughness : Q;
  glass_metalness : Q;
  glass_opacity : Q;
  animate : option bool;
  gradient : option bool;
  animateCamera : option string;
  opacityMap : option string
}.

Record FakeCfg := mkFakeCfg { fake_texture : option string }.

Record LogoCfg := mkLogoCfg {
  logo_texture : string;
  emissiveIntensity : option Q
}.

Record ModelConfig := mkModelConfig {
  name : string;
  glb : string;
  frame : FrameCfg;
  armsText : ArmsTextCfg;
  glass : GlassCfg;
  fake : option FakeCfg;
  logo : LogoCfg;
  startCamera : string;
  freeCamera : string
}.

(** ** Data invariant *)

Definition unit_interval (q : Q) : bool := Qle_bool 0 q && Qle_bool q 1.

Definition color_wf (c : Color) : bool :=
  unit_interval (cr c) && unit_interval (cg c) && unit_interval (cb c).

Definition opt_wf (o : option Q) : bool :=
  match o with Some q => unit_interval q | None => true end.

Definition config_wf (c : ModelConfig) : bool :=
  color_wf (baseColor (frame c)) && unit_interval (frame_roughness (frame c)) &&
  unit_interval (frame_metalness (frame c)) && opt_wf (frame_opacity (frame c)) &&
  opt_wf (reflectivity (frame c)) && color_wf (text_color (armsText c)) &&
  color_wf (glass_color (glass c)) && unit_interval (glass_roughness (glass c)) &&
  unit_interval (glass_metalness (glass c)) && unit_interval (glass_opacity (glass c)) &&
  match emissiveIntensity (logo c) with Some e => Qle_bool 0 e | None => true end.

Module Skins.

Definition TEMPLES := "./textures/Temples_wayfarer_standard_2k.png".
Definition WAYFARER_GLB := "./models/Standard_Wayfarer.glb".

(** w_shiny_cosmic_blue.js *)
Definition SHINY_COSMIC_BLUE : ModelConfig := {|
  name := "Cosmic_blue"; glb := WAYFARER_GLB;
  frame := mkFrameCfg ⟪0.015, 0.015, 0.03⟫ 0.35 0.1 None None None;
  armsText := mkArmsTextCfg TEMPLES ⟪0.04, 0.04, 0.09⟫;
  glass := mkGlassCfg ⟪0.05, 0.06, 0.10⟫ 0.1 0.5 0.9 (Some true) (Some false)
             (Some "Cam_Lenses") None;
  fake := None;
  logo := mkLogoCfg "./textures/Standard_alpha.jpg" (Some 0.6);
  startCamera := "Cam_Front"; freeCamera := "Cam_Free" |}.

(** w_matte_black_clear.js *)
Definition MATTE_BLACK_CLEAR : ModelConfig := {|
  name := "Matte Black Clear"; glb := WAYFARER_GLB;
  frame := mkFrameCfg ⟪0.01, 0.01, 0.01⟫ 0.55 0.1 None None None;
  armsText := mkArmsTextCfg TEMPLES ⟪0.04, 0.04, 0.04⟫;
  glass := mkGlassCfg ⟪0.0, 0.0, 0.0⟫ 0.1 0.9 0.15 (Some false) (Some false)
             (Some "Cam_Lenses") None;
  fake := None;
  logo := mkLogoCfg "./textures/Standard_alpha_clear.jpg" (Some 2.6);
  startCamera := "Cam_Front"; freeCamera := "Cam_Free" |}.

(** w_shiny_black_green.js (no [gradient] field) *)
Definition SHINY_BLACK_GREEN : ModelConfig := {|
  name := "Shiny Black Green"; glb := WAYFARER_GLB;
  frame := mkFrameCfg ⟪0.01, 0.01, 0.01⟫ 0.15 0.1 None None None;
  armsText := mkArmsTextCfg TEMPLES ⟪0.04, 0.04, 0.04⟫;
  glass := mkGlassCfg ⟪0.064, 0.068, 0.051⟫ 0.03 0.0 0.9 (Some false) None
             (Some "Cam_Lenses") None;
  fake := None;
  logo := mkLogoCfg "./textures/Standard_alpha.jpg" (Some 0.6);
  startCamera := "Cam_Front"; freeCamera := "Cam_Free" |}.

(** w_matte_black_ggraph.js *)
Definition MATTE_BLACK_GGRAPH : ModelConfig := {|
  name := "Matte Black CGraph"; glb := WAYFARER_GLB;
  frame := mkFrameCfg ⟪0.01, 0.01, 0.01⟫ 0.55 0.1 None None None;
  armsText := mkArmsTextCfg TEMPLES ⟪0.04, 0.04, 0.04⟫;
  glass := mkGlassCfg ⟪0.0, 0.0, 0.0⟫ 0.1 0.2 0.95 (Some false) (Some true)
             (Some "Cam_Lenses") None;
  fake := None;
  logo := mkLogoCfg "./textures/Standard_alpha_polar.jpg" (Some 0.6);
  startCamera := "Cam_Front"; freeCamera := "Cam_Free" |}.

(** w_matte_black_cgrey.js *)
Definition MATTE_BLACK_CGREY : ModelConfig := {|
  name := "Matte Black CGrey"; glb := WAYFARER_GLB;
  frame := mkFrameCfg ⟪0.01, 0.01, 0.01⟫ 0.55 0.1 None None None;
  armsText := mkArmsTextCfg TEMPLES ⟪0.04, 0.04, 0.04⟫;
  glass := mkGlassCfg ⟪0.0, 0.0, 0.0⟫ 0.1 0.2 0.8 (Some true) (Some false)
             (Some "Cam_Lenses") None;
  fake := None;
  logo := mkLogoCfg "./textures/Standard_alpha_clear.jpg" (Some 0.6);
  startCamera := "Cam_Front"; freeCamera := "Cam_Free" |}.

(** w_clear_sapphire.js *)
Definition CLEAR_SAPPHIRE : ModelConfig := {|
  name := "Clear_Sapphire"; glb := WAYFARER_GLB;
  frame := mkFrameCfg ⟪0.02, 0.02, 0.02⟫ 0.1 0.0 (Some true) (Some 0.3) (Some 1.0);
  armsText := mkArmsTextCfg TEMPLES ⟪0.5, 0.5, 0.5⟫;
  glass := mkGlassCfg ⟪0.025, 0.03, 0.04⟫ 0.1 0.5 0.9 (Some true) (Some false)
             (Some "Cam_Lenses") None;
  fake := Some (mkFakeCfg (Some "./textures/w_interior_fake.jpg"));
  logo := mkLogoCfg "./textures/Standard_alpha_clear.jpg" (Some 0.6);
  startCamera := "Cam_Front"; freeCamera := "Cam_Free" |}.

(** w_jeans_blue.js (its [name] repeats "Clear_Sapphire") *)
Definition BLUE_JEANS : ModelConfig := {|
  name := "Clear_Sapphire"; glb := WAYFARER_GLB;
  frame := mkFrameCfg ⟪0.018, 0.025, 0.037⟫ 0.5 0.0 (Some true) (Some 0.9) (Some 0.2);
  armsText := mkArmsTextCfg TEMPLES ⟪0.06, 0.06, 0.07⟫;
  glass := mkGlassCfg ⟪0.05, 0.06, 0.08⟫ 0.1 0.5 0.9 (Some false) (Some false)
             (Some "Cam_Lenses") None;
  fake := Some (mkFakeCfg (Some "./textures/w_interior_fake_blur.jpg"));
  logo := mkLogoCfg "./textures/Standard_alpha_polar.jpg" (Some 0.6);
  startCamera := "Cam_Front"; freeCamera := "Cam_Free" |}.

(** The skins of the right-hand buttons, in their order (main.js:86-93).
    The button for [SHINY_BLACK_CGREEN] is left out: its module,
    ./configs/w_shiny_black_cgreen.js, is not part of the repository. *)
Definition skin_buttons : list (string * ModelConfig) :=
  [("Shiny Cosmic Blue", SHINY_COSMIC_BLUE); ("Matte Black Clear", MATTE_BLACK_CLEAR);
   ("Shiny Black Green", SHINY_BLACK_GREEN);
   ("Matte Black Gradient Graphite", MATTE_BLACK_GGRAPH);
   ("Matte Black Clear to Grey", MATTE_BLACK_CGREY); ("Clear Sapphire", CLEAR_SAPPHIRE);
   ("Blue Jeans", BLUE_JEANS)].

(** [let currentConfig = SHINY_COSMIC_BLUE] *)
Definition initial_config : ModelConfig := SHINY_COSMIC_BLUE.

End Skins.
