(* ===== verification/Materials.v ===== *)
(** * Materials and their builders (main.js:205-234, 258-365, 400-476)

    A three.js material is a mutable object; [Material] records the
    properties the code sets, with three.js's defaults for the others.
    Material objects live in a store ([gmap nat Material], allocated by
    [store_alloc]) so that the aliasing of the code is explicit: a mesh's
    [material] slot and an entry of [glassMaterials] name the same object.
    The builders are the object literals of [loadModel] and [applyConfig];
    [update_glass] is the in-place glass update at the end of
    [applyConfig]; [overlay_fragment] is the GLSL the arm-text material
    injects through [onBeforeCompile].  The theorems: the overlay keeps
    colours and alpha in range and meets its blend endpoints (C21), and the
    arm-text and frame materials share their base properties exactly in
    the cases C22 names. *)

From S2P Require Import Prelude Configs.

Inductive MaterialKind := MeshStandardMaterial | MeshPhysicalMaterial.

#[export] Instance MaterialKind_eq_dec : EqDecision MaterialKind.
Proof. solve_decision. Defined.

(** A texture handle: its path and the two properties the code sets. *)
Record Texture := mkTexture {
  tex_path : string;
  tex_flipY : bool;
  tex_srgb : bool
}.

(** The closure state of [armTextMaterial.onBeforeCompile]: the overlay
    texture and the [textColor] uniform. *)
Record OverlayHook := mkOverlayHook {
  hook_overlay : Texture;
  hook_textColor : Color
}.

Record Material := mkMaterial {
  m_kind : MaterialKind;
  m_name : string;
  m_color : Color;
  m_roughness : Q;
  m_metalness : Q;
  m_transparent : bool;
  m_opacity : Q;
  m_depthWrite : bool;
  m_envMapIntensity : Q;
  m_clearcoat : Q;
  m_clearcoatRoughness : Q;
  m_ior : Q;
  m_transmission : Q;
  m_map : option Texture;
  m_alphaMap : option Texture;
  m_emissiveMap : option Texture;
  m_emissive : Color;
  m_emissiveIntensity : Q;
  m_onBeforeCompile : option OverlayHook
}.

(** ** Textures *)

(** [textureLoader.load(path)]: a new handle, [flipY] true, no colour space. *)
Definition load_texture (path : string) : Texture := mkTexture path true false.

(** [tex.flipY = false; tex.colorSpace = THREE.SRGBColorSpace;] *)
Definition srgb_unflipped (path : string) : Texture := mkTexture path false true.

(** [gradientTexture] (main.js:28-30). *)
Definition gradientTexture : Texture := srgb_unflipped "./textures/w_lens_gradient.jpg".

(** [logoTexture = textureLoader.load(config.logo.texture)] and its two
    settings (main.js:132-134, 371-373). *)
Definition logo_texture_of (c : ModelConfig) : Texture :=
  srgb_unflipped (logo_texture (logo c)).

(** [REFLECTION_TINT] (main.js:45). *)
Definition REFLECTION_TINT : Q := 1.1.

(** [MeshPhysicalMaterial.reflectivity]'s setter stores an index of
    refraction. *)
Definition ior_of_reflectivity (r : Q) : Q := (1 + 0.4 * r) / (1 - 0.4 * r).

(** ** Builders *)

(** [armTextMaterial] of [applyConfig] (main.js:258-281, 284-336). *)
Definition build_armText_material (c : ModelConfig) : Material :=
  let f := frame c in
  let hook := Some (mkOverlayHook (srgb_unflipped (overlay (armsText c)))
                                  (text_color (armsText c))) in
  if js_true (trans f) then
    {| m_kind := MeshPhysicalMaterial; m_name := ""; m_color := baseColor f;
       m_roughness := frame_roughness f; m_metalness := frame_metalness f;
       m_transparent := true; m_opacity := js_default 0.6 (frame_opacity f);
       m_depthWrite := true; m_envMapIntensity := 5.2; m_clearcoat := 5.0;
       m_clearcoatRoughness := frame_roughness f; m_ior := 1.5; m_transmission := 0;
       m_map := None; m_alphaMap := None; m_emissiveMap := None;
       m_emissive := ⟪0, 0, 0⟫; m_emissiveIntensity := 1; m_onBeforeCompile := hook |}
  else
    {| m_kind := MeshStandardMaterial; m_name := ""; m_color := baseColor f;
       m_roughness := frame_roughness f; m_metalness := frame_metalness f;
       m_transparent := false; m_opacity := 1; m_depthWrite := true;
       m_envMapIntensity := 2.2; m_clearcoat := 0; m_clearcoatRoughness := 0;
       m_ior := 1.5; m_transmission := 0; m_map := None; m_alphaMap := None;
       m_emissiveMap := None; m_emissive := ⟪0, 0, 0⟫; m_emissiveIntensity := 1;
       m_onBeforeCompile := hook |}.

(** [frameMaterial] of [applyConfig] (main.js:338-365). *)
Definition build_frame_material (c : ModelConfig) : Material :=
  let f := frame c in
  if js_true (trans f) then
    {| m_kind := MeshPhysicalMaterial; m_name := ""; m_color := baseColor f;
       m_roughness := frame_roughness f; m_metalness := 0;
       m_transparent := true; m_opacity := js_default 0.8 (frame_opacity f);
       m_depthWrite := true; m_envMapIntensity := 3.5; m_clearcoat := 1.0;
       m_clearcoatRoughness := frame_roughness f;
       m_ior := ior_of_reflectivity (js_default 1.0 (reflectivity f));
       m_transmission := 0; m_map := None; m_alphaMap := None; m_emissiveMap := None;
       m_emissive := ⟪0, 0, 0⟫; m_emissiveIntensity := 1; m_onBeforeCompile := None |}
  else
    {| m_kind := MeshStandardMaterial; m_name := ""; m_color := baseColor f;
       m_roughness := frame_roughness f; m_metalness := frame_metalness f;
       m_transparent := false; m_opacity := 1; m_depthWrite := true;
       m_envMapIntensity := 1; m_clearcoat := 0; m_clearcoatRoughness := 0;
       m_ior := 1.5; m_transmission := 0; m_map := None; m_alphaMap := None;
       m_emissiveMap := None; m_emissive := ⟪0, 0, 0⟫; m_emissiveIntensity := 1;
       m_onBeforeCompile := None |}.

(** The glass material [loadModel] creates for each glass mesh
    (main.js:205-232), given the global [logoTexture] when the loader
    calls back. *)
Definition build_glass_material (c : ModelConfig) (logoTex : option Texture) : Material :=
  let g := glass c in
  let alpha :=
    if js_true (gradient g) then Some gradientTexture
    else match js_or_null (opacityMap g) with
         | Some p => Some (mkTexture p false false)
         | None => None
         end in
  {| m_kind := MeshPhysicalMaterial; m_name := ""; m_color := glass_color g;
     m_roughness := glass_roughness g; m_metalness := glass_metalness g;
     m_transparent := true; m_opacity := glass_opacity g; m_depthWrite := false;
     m_envMapIntensity := REFLECTION_TINT; m_clearcoat := 0; m_clearcoatRoughness := 0;
     m_ior := 1.45; m_transmission := 0.0; m_map := None; m_alphaMap := alpha;
     m_emissiveMap := logoTex; m_emissive := white;
     m_emissiveIntensity := js_default 0.6 (emissiveIntensity (logo c));
     m_onBeforeCompile := None |}.

(** The in-place update [applyConfig] makes to each of [glassMaterials]
    (main.js:465-476). *)
Definition update_glass (c : ModelConfig) (logoTex : Texture) (m : Material) : Material :=
  let g := glass c in
  {| m_kind := m_kind m; m_name := m_name m; m_color := glass_color g;
     m_roughness := m_roughness m; m_metalness := m_metalness m;
     m_transparent := m_transparent m; m_opacity := glass_opacity g;
     m_depthWrite := m_depthWrite m; m_envMapIntensity := m_envMapIntensity m;
     m_clearcoat := m_clearcoat m; m_clearcoatRoughness := m_clearcoatRoughness m;
     m_ior := m_ior m; m_transmission := m_transmission m; m_map := m_map m;
     m_alphaMap := if js_true (gradient g) then Some gradientTexture else None;
     m_emissiveMap := Some logoTex; m_emissive := m_emissive m;
     m_emissiveIntensity := js_default 0.6 (emissiveIntensity (logo c));
     m_onBeforeCompile := m_onBeforeCompile m |}.

(** The fake-interior material (main.js:403-417), for the texture path. *)
Definition build_fake_material (path : string) : Material :=
  {| m_kind := MeshStandardMaterial; m_name := "fake"; m_color := white;
     m_roughness := 1.0; m_metalness := 0.0; m_transparent := false; m_opacity := 1;
     m_depthWrite := true; m_envMapIntensity := 1; m_clearcoat := 0;
     m_clearcoatRoughness := 0; m_ior := 1.5; m_transmission := 0;
     m_map := Some (srgb_unflipped path); m_alphaMap := None; m_emissiveMap := None;
     m_emissive := ⟪0, 0, 0⟫; m_emissiveIntensity := 1; m_onBeforeCompile := None |}.

(** The dead [armsTextMeshes] update of [applyConfig] (main.js:433-453):
    the list is emptied by [loadModel] and never filled, and the
    [userData.textColorUniform] it tests is never set. *)
Definition update_armText_mesh_material (c : ModelConfig) (m : Material) : Material :=
  let f := frame c in
  {| m_kind := m_kind m; m_name := m_name m; m_color := baseColor f;
     m_roughness := frame_roughness f; m_metalness := frame_metalness f;
     m_transparent := js_true (trans f);
     m_opacity := if js_true (trans f) then js_default 0.6 (frame_opacity f) else 1.0;
     m_depthWrite := negb (js_true (trans f)); m_envMapIntensity := 2.2;
     m_clearcoat := m_clearcoat m; m_clearcoatRoughness := m_clearcoatRoughness m;
     m_ior := m_ior m; m_transmission := m_transmission m; m_map := m_map m;
     m_alphaMap := m_alphaMap m; m_emissiveMap := m_emissiveMap m;
     m_emissive := m_emissive m; m_emissiveIntensity := m_emissiveIntensity m;
     m_onBeforeCompile := m_onBeforeCompile m |}.

(** ** The overlay fragment of the arm-text shader (main.js:322-331) *)

(** GLSL [mix(x, y, a) = x * (1 - a) + y * a]. *)
Definition glsl_mix (x y a : Q) : Q := x * (1 - a) + y * a.

(** [diffuseColor.rgb = mix(diffuseColor.rgb, textColor, overlay.a);
     diffuseColor.a = max(diffuseColor.a, overlay.a);] *)
Definition overlay_fragment (diffuse : Color) (alpha : Q) (textColor : Color) (mask : Q)
  : Color * Q :=
  (⟪ glsl_mix (cr diffuse) (cr textColor) mask, glsl_mix (cg diffuse) (cg textColor) mask,
     glsl_mix (cb diffuse) (cb textColor) mask ⟫, Qmax alpha mask).

(** A colour with its three components in [0, 1]. *)
Definition color_in_unit (c : Color) : Prop :=
  0 <= cr c <= 1 /\ 0 <= cg c <= 1 /\ 0 <= cb c <= 1.

(** The base physical properties of spec section 4.2. *)
Definition base_agree (m1 m2 : Material) : Prop :=
  m_color m1 ≡ m_color m2 /\ m_roughness m1 == m_roughness m2 /\
  m_metalness m1 == m_metalness m2 /\ m_transparent m1 = m_transparent m2 /\
  m_opacity m1 == m_opacity m2.

(** ** The material store *)

Abbreviation Store := (gmap nat Material).

(** [new THREE.Mesh...Material(...)]: a fresh object at the next address. *)
Definition store_alloc (mats : Store) (next : nat) (m : Material) : Store * nat :=
  (<[next := m]> mats, S next).

(** [mat.prop = ...] on the object at [id]; nothing if there is none. *)
Definition store_update (f : Material -> Material) (id : nat) (mats : Store) : Store :=
  match mats !! id with
  | Some m => <[id := f m]> mats
  | None => mats
  end.

(** ** Store lemmas *)

Lemma store_update_lookup_eq f id mats m :
  mats !! id = Some m -> store_update f id mats !! id = Some (f m).
Proof. intros H. unfold store_update. rewrite H. apply lookup_insert_eq. Qed.

Lemma store_update_lookup_ne f id id' mats :
  id <> id' -> store_update f id mats !! id' = mats !! id'.
Proof.
  intros Hne. unfold store_update. destruct (mats !! id); [|reflexivity].
  by apply lookup_insert_ne.
Qed.

Lemma store_update_is_Some f id id' mats :
  is_Some (mats !! id') -> is_Some (store_update f id mats !! id').
Proof.
  intros H. destruct (decide (id = id')) as [->|Hne].
  - destruct H as [m Hm]. rewrite (store_update_lookup_eq _ _ _ m Hm). eauto.
  - by rewrite store_update_lookup_ne.
Qed.

(** Two stores with the same addresses. *)
Definition same_dom (st st' : Store) : Prop := forall id, is_Some (st !! id) <-> is_Some (st' !! id).

#[export] Instance same_dom_equivalence : Equivalence same_dom.
Proof.
  split; unfold same_dom; [intros ? ?; reflexivity | intros ? ? H id; by rewrite H
                          | intros ? ? ? H1 H2 id; by rewrite H1, H2].
Qed.

Lemma store_update_same_dom f id st : same_dom st (store_update f id st).
Proof.
  intros id'. split; [apply store_update_is_Some|].
  destruct (decide (id = id')) as [->|Hne]; [|by rewrite store_update_lookup_ne].
  unfold store_update. destruct (st !! id') eqn:E; [intros; by eexists|].
  intros [x Hx]. congruence.
Qed.

#[export] Hint Resolve store_update_lookup_eq store_update_is_Some store_update_same_dom : wayfarer.

(** ** The overlay fragment *)

Lemma glsl_mix_unit x y a :
  0 <= x <= 1 -> 0 <= y <= 1 -> 0 <= a <= 1 -> 0 <= glsl_mix x y a <= 1.
Proof. unfold glsl_mix. intros. nra. Qed.

Lemma glsl_mix_0 x y : glsl_mix x y 0 == x.
Proof. unfold glsl_mix. ring. Qed.

Lemma glsl_mix_1 x y : glsl_mix x y 1 == y.
Proof. unfold glsl_mix. ring. Qed.

(** C21: the overlay the arm-text shader injects keeps colours and alpha
    in [0, 1] when its inputs are; its alpha is at least the base alpha and
    at least the mask; a mask of 0 leaves the base colour and a mask of 1
    gives the text colour (spec section 4.2: blend toward the text colour
    by the overlay alpha, alpha the maximum of the two). *)
Theorem overlay_fragment_bounds d a tc k :
  color_in_unit d -> color_in_unit tc -> 0 <= a <= 1 -> 0 <= k <= 1 ->
  color_in_unit (overlay_fragment d a tc k).1 /\ 0 <= (overlay_fragment d a tc k).2 <= 1 /\
  a <= (overlay_fragment d a tc k).2 /\ k <= (overlay_fragment d a tc k).2 /\
  (overlay_fragment d a tc 0).1 ≡ d /\ (overlay_fragment d a tc 1).1 ≡ tc.
Proof.
  intros (Hr & Hg & Hb) (Hr' & Hg' & Hb') Ha Hk. cbn [overlay_fragment fst snd cr cg cb].
  repeat split; try apply glsl_mix_unit; try apply glsl_mix_0; try apply glsl_mix_1; auto;
    [eapply Qle_trans; [|apply Q.le_max_l]; lra | apply Q.max_lub; lra
    | apply Q.le_max_l | apply Q.le_max_r].
Qed.

(** ** Arm text and frame *)

(** C22: the arm-text and frame materials [applyConfig] builds share their
    colour, roughness, metalness, transparency and opacity exactly when the
    frame is opaque, or when it is translucent with metalness 0 and an
    explicit opacity: a translucent frame keeps the config's metalness on
    the arm text but forces 0 on the frame, and a missing opacity defaults
    to 0.6 on the arm text and 0.8 on the frame (main.js:258-281, 338-357;
    spec section 4.2: the arm text uses the frame's branch for its base
    properties). *)
Theorem armText_frame_base_agree c :
  base_agree (build_armText_material c) (build_frame_material c) <->
  js_true (trans (frame c)) = false \/
  (frame_metalness (frame c) == 0 /\ frame_opacity (frame c) <> None).
Proof.
  unfold base_agree, build_armText_material, build_frame_material.
  destruct (js_true (trans (frame c))); cbn [m_color m_roughness m_metalness m_transparent m_opacity].
  - split.
    + intros (_ & _ & Hm & _ & Ho). right. split; [exact Hm|].
      destruct (frame_opacity (frame c)); [discriminate|]. simpl in Ho. discriminate.
    + intros [Hf|[Hm Ho]]; [discriminate|]. repeat split; try reflexivity; [exact Hm|].
      destruct (frame_opacity (frame c)); [reflexivity|contradiction].
  - split; [auto|]. intros _. repeat split; reflexivity.
Qed.

(** Cosmic Blue's frame colour under its temple-text colour at half mask. *)
Lemma overlay_fragment_bounds_witness :
  color_in_unit (overlay_fragment (baseColor (frame Skins.SHINY_COSMIC_BLUE)) 1
                   (text_color (armsText Skins.SHINY_COSMIC_BLUE)) (1 # 2)).1.
Proof.
  apply (overlay_fragment_bounds (baseColor (frame Skins.SHINY_COSMIC_BLUE)) 1
           (text_color (armsText Skins.SHINY_COSMIC_BLUE)) (1 # 2));
    unfold color_in_unit; simpl; repeat split; vm_compute; discriminate.
Defined.
