(* ===== verification/GlassAnim.v ===== *)
(** * The glass animation (main.js:485-501 and 752-850)

    [glassAnim] is one four-phase timer shared by every glass material:
    [waitGreen] (hold the configured tint), [toClear] (fade to white and
    opacity 0), [waitClear] (hold), [toGreen] (fade back).  Each frame in
    which the animation runs adds the [THREE.Clock] delta to the timer and
    runs the [switch] once per glass material, inside the [forEach]: a phase
    change made for the first material is seen by the following ones in the
    same frame.  When the animation stops, every material is reset to its
    rest colour and opacity and the phase to [waitGreen].

    [GlassSys] is the slice of the page's globals this part reads and
    writes; the material objects are in the shared [Store].  The abstract
    contract is [glass_spec]: the colour and opacity a lens should show
    as a function of the phase and of the time spent in it. *)

From S2P Require Import Prelude Configs Materials.

Inductive GlassPhase := waitGreen | toClear | waitClear | toGreen.

#[export] Instance GlassPhase_eq_dec : EqDecision GlassPhase.
Proof. solve_decision. Defined.

(** [glassAnim.state] and [glassAnim.timer] (the durations are constants). *)
Record GlassAnimState := mkGlassAnim { ga_state : GlassPhase; ga_timer : Q }.

(** [glassAnim.duration], [glassAnim.waitGreen], [glassAnim.waitClear]. *)
Definition anim_duration : Q := 1.5.
Definition anim_waitGreen : Q := 1.0.
Definition anim_waitClear : Q := 1.0.

(** The initial and reset value: [state = 'waitGreen'; timer = 0]. *)
Definition glassAnim_init : GlassAnimState := mkGlassAnim waitGreen 0.

(** ** THREE.Clock *)

Record Clock := mkClock { clk_running : bool; clk_oldTime : Q; clk_elapsed : Q }.

(** [new THREE.Clock()]: [autoStart] true, not running. *)
Definition clock_init : Clock := mkClock false 0 0.

(** [clock.getDelta()] at [performance.now() = now] (milliseconds); the
    result is in seconds.  The first call starts the clock and returns 0. *)
Definition getDelta (now : Q) (c : Clock) : Q * Clock :=
  if clk_running c then
    let diff := (now - clk_oldTime c) / 1000 in
    (diff, mkClock true now (clk_elapsed c + diff))
  else (0, mkClock true now 0).

(** ** The glass globals *)

Record GlassSys := mkGlassSys {
  gs_anim : GlassAnimState;          (* glassAnim *)
  gs_materials : list nat;           (* glassMaterials *)
  gs_origColors : list Color;        (* originalGlassColors *)
  gs_origOpacities : list Q;         (* originalGlassOpacities *)
  gs_was : bool;                     (* wasAnimatingGlass *)
  gs_clock : Clock                   (* clock *)
}.

(** [mat.color.(lerpColors|copy)(...); mat.opacity = ...] *)
Definition set_color_opacity (c : Color) (o : Q) (m : Material) : Material :=
  {| m_kind := m_kind m; m_name := m_name m; m_color := c;
     m_roughness := m_roughness m; m_metalness := m_metalness m;
     m_transparent := m_transparent m; m_opacity := o;
     m_depthWrite := m_depthWrite m; m_envMapIntensity := m_envMapIntensity m;
     m_clearcoat := m_clearcoat m; m_clearcoatRoughness := m_clearcoatRoughness m;
     m_ior := m_ior m; m_transmission := m_transmission m; m_map := m_map m;
     m_alphaMap := m_alphaMap m; m_emissiveMap := m_emissiveMap m;
     m_emissive := m_emissive m; m_emissiveIntensity := m_emissiveIntensity m;
     m_onBeforeCompile := m_onBeforeCompile m |}.

(** [originalGlassColors[i]] and [originalGlassOpacities[i]].  The index is
    always in range ([glass_lengths_ok] below), so the default is never
    read. *)
Definition orig_color (ocs : list Color) (i : nat) : Color := default white (ocs !! i).
Definition orig_opacity (oos : list Q) (i : nat) : Q := default 0 (oos !! i).

(** ** One material: the body of the [switch] (main.js:772-834) *)

Definition glass_mat_step (oc : Color) (oo : Q) (id : nat)
    (a : GlassAnimState) (mats : Store) : GlassAnimState * Store :=
  match ga_state a with
  | waitGreen =>
      if Qltb anim_waitGreen (ga_timer a) then (mkGlassAnim toClear 0, mats)
      else (a, mats)
  | toClear =>
      let t := progress (ga_timer a) anim_duration in
      let e := ease t in
      let mats' := store_update
                     (set_color_opacity (color_lerp oc white e) (mathutils_lerp oo 0 e))
                     id mats in
      (if Qle_bool 1 t then mkGlassAnim waitClear 0 else a, mats')
  | waitClear =>
      if Qltb anim_waitClear (ga_timer a) then (mkGlassAnim toGreen 0, mats)
      else (a, mats)
  | toGreen =>
      let t := progress (ga_timer a) anim_duration in
      let e := ease t in
      let mats' := store_update
                     (set_color_opacity (color_lerp white oc e) (mathutils_lerp 0 oo e))
                     id mats in
      (if Qle_bool 1 t then mkGlassAnim waitGreen 0 else a, mats')
  end.

(** [glassMaterials.forEach((mat, i) => ...)], from index [i]. *)
Fixpoint glass_forEach (ocs : list Color) (oos : list Q) (i : nat) (ids : list nat)
    (a : GlassAnimState) (mats : Store) : GlassAnimState * Store :=
  match ids with
  | [] => (a, mats)
  | id :: rest =>
      let '(a', mats') := glass_mat_step (orig_color ocs i) (orig_opacity oos i) id a mats in
      glass_forEach ocs oos (S i) rest a' mats'
  end.

(** The reset loop (main.js:841-844). *)
Fixpoint glass_reset_materials (ocs : list Color) (oos : list Q) (i : nat) (ids : list nat)
    (mats : Store) : Store :=
  match ids with
  | [] => mats
  | id :: rest =>
      glass_reset_materials ocs oos (S i) rest
        (store_update (set_color_opacity (orig_color ocs i) (orig_opacity oos i)) id mats)
  end.

(** ** One frame (main.js:756-850) *)

(** [glassAnimationEnabled && glassMaterials.length > 0 &&
     activeCameraName === glassAnimateCamera] *)
Definition shouldAnimateGlass (enabled : bool) (nmats : nat) (active gate : option string)
  : bool :=
  enabled && (0 <? nmats)%nat && opt_str_eqb active gate.

Definition glass_frame (enabled : bool) (active gate : option string) (now : Q)
    (gs : GlassSys) (mats : Store) : GlassSys * Store :=
  if shouldAnimateGlass enabled (length (gs_materials gs)) active gate then
    let '(delta, clk) := getDelta now (gs_clock gs) in
    let a := mkGlassAnim (ga_state (gs_anim gs)) (ga_timer (gs_anim gs) + delta) in
    let '(a', mats') :=
      glass_forEach (gs_origColors gs) (gs_origOpacities gs) 0 (gs_materials gs) a mats in
    ({| gs_anim := a'; gs_materials := gs_materials gs; gs_origColors := gs_origColors gs;
        gs_origOpacities := gs_origOpacities gs; gs_was := true; gs_clock := clk |}, mats')
  else if gs_was gs then
    ({| gs_anim := glassAnim_init; gs_materials := gs_materials gs;
        gs_origColors := gs_origColors gs; gs_origOpacities := gs_origOpacities gs;
        gs_was := false; gs_clock := gs_clock gs |},
     glass_reset_materials (gs_origColors gs) (gs_origOpacities gs) 0 (gs_materials gs) mats)
  else (gs, mats).

(** ** The contract: what a lens shows in each phase *)

(** The colour and opacity of a lens with rest values [oc], [oo] in phase
    [a]: the rest values while waiting dark, white and 0 while waiting
    clear, and the eased interpolation between them during the fades. *)
Definition glass_spec (oc : Color) (oo : Q) (a : GlassAnimState) : Color * Q :=
  let e := ease (progress (ga_timer a) anim_duration) in
  match ga_state a with
  | waitGreen => (oc, oo)
  | toClear => (color_lerp oc white e, mathutils_lerp oo 0 e)
  | waitClear => (white, 0)
  | toGreen => (color_lerp white oc e, mathutils_lerp 0 oo e)
  end.

(** Material [id] of the store shows the colour and opacity [v]. *)
Definition shows (mats : Store) (id : nat) (v : Color * Q) : Prop :=
  exists m, mats !! id = Some m /\ m_color m ≡ v.1 /\ m_opacity m == v.2.

Lemma shows_set f_c f_o id mats m :
  mats !! id = Some m ->
  shows (store_update (set_color_opacity f_c f_o) id mats) id (f_c, f_o).
Proof.
  intros H. exists (set_color_opacity f_c f_o m).
  rewrite (store_update_lookup_eq _ _ _ _ H). split; [reflexivity|]. split; reflexivity.
Qed.

Lemma shows_equiv mats id c o c' o' :
  shows mats id (c, o) -> c ≡ c' -> o == o' -> shows mats id (c', o').
Proof.
  intros (m & Hm & Hc & Ho) Hcc Hoo. exists m. simpl in *.
  split; [exact Hm|]. split; [rewrite Hc; exact Hcc | rewrite Ho; exact Hoo].
Qed.

Lemma progress_zero : progress 0 anim_duration == 0.
Proof. reflexivity. Qed.


(** A fade whose progress has reached 1 leaves the lens exactly at the
    fade's target. *)
Lemma fade_complete_shows c0 c1 o0 o1 tm id mats m :
  mats !! id = Some m -> Qle_bool 1 (progress tm anim_duration) = true ->
  shows (store_update (set_color_opacity (color_lerp c0 c1 (ease (progress tm anim_duration)))
                         (mathutils_lerp o0 o1 (ease (progress tm anim_duration)))) id mats)
        id (c1, o1).
Proof.
  intros Hm E. apply Qle_bool_iff in E.
  assert (Ht : progress tm anim_duration == 1)
    by (pose proof (progress_le_1 tm anim_duration); lra).
  eapply shows_equiv; [apply (shows_set _ _ _ _ m Hm)| |].
  - apply color_lerp_1, ease_1, Ht.
  - apply mathutils_lerp_1, ease_1, Ht.
Qed.

(** A fade that starts ([timer = 0]) shows its source. *)
Lemma fade_start_shows c0 c1 o0 o1 id mats :
  shows mats id (c0, o0) ->
  shows mats id (color_lerp c0 c1 (ease (progress 0 anim_duration)),
                 mathutils_lerp o0 o1 (ease (progress 0 anim_duration))).
Proof.
  intros H. apply (shows_equiv _ _ c0 o0); [exact H | symmetry; apply color_lerp_0
                                          | symmetry; apply mathutils_lerp_0]; reflexivity.
Qed.

(** One material step keeps a lens on its contract, whatever timer the
    phase had before the frame's delta was added. *)
Lemma glass_mat_step_shows oc oo id a t0 mats :
  shows mats id (glass_spec oc oo (mkGlassAnim (ga_state a) t0)) ->
  shows (glass_mat_step oc oo id a mats).2 id (glass_spec oc oo (glass_mat_step oc oo id a mats).1).
Proof.
  destruct a as [ph tm]. intros Hs. pose proof Hs as (m & Hm & _).
  destruct ph; unfold glass_mat_step; cbn [ga_state ga_timer glass_spec] in *.
  - destruct (Qltb anim_waitGreen tm); [apply fade_start_shows|]; exact Hs.
  - destruct (Qle_bool 1 (progress tm anim_duration)) eqn:E;
      [apply (fade_complete_shows _ _ _ _ _ _ _ m Hm E) | apply (shows_set _ _ _ _ m Hm)].
  - destruct (Qltb anim_waitClear tm); [apply fade_start_shows|]; exact Hs.
  - destruct (Qle_bool 1 (progress tm anim_duration)) eqn:E;
      [apply (fade_complete_shows _ _ _ _ _ _ _ m Hm E) | apply (shows_set _ _ _ _ m Hm)].
Qed.

(** A wait phase whose timer has not passed its threshold runs the whole
    [forEach] without touching a material or the phase. *)
Lemma glass_forEach_wait_idle ocs oos i ids ph tm mats :
  (ph = waitGreen /\ Qltb anim_waitGreen tm = false) \/
  (ph = waitClear /\ Qltb anim_waitClear tm = false) ->
  glass_forEach ocs oos i ids (mkGlassAnim ph tm) mats = (mkGlassAnim ph tm, mats).
Proof.
  intros H. revert i. induction ids as [|id rest IH]; intros i; [reflexivity|].
  destruct H as [[-> E]|[-> E]]; cbn [glass_forEach glass_mat_step ga_state ga_timer];
    rewrite E; apply IH.
Qed.

Lemma glass_forEach_single ocs oos id a mats :
  glass_forEach ocs oos 0 [id] a mats =
  glass_mat_step (orig_color ocs 0) (orig_opacity oos 0) id a mats.
Proof. simpl. by destruct (glass_mat_step _ _ _ _ _). Qed.

(** ** Single lens: the frame implements the contract *)

(** One glass material whose rest values are those recorded at index 0
    and which shows the contract of the current phase. *)
Definition single_lens_ok (gs : GlassSys) (mats : Store) : Prop :=
  exists id oc oo,
    gs_materials gs = [id] /\ gs_origColors gs !! 0%nat = Some oc /\
    gs_origOpacities gs !! 0%nat = Some oo /\ shows mats id (glass_spec oc oo (gs_anim gs)).

(** C1: with one glass material, every frame of the animation, whether
    it animates, resets or does nothing, leaves the lens showing exactly
    the colour and opacity [glass_spec] prescribes for the new phase and
    timer: the rest values in [waitGreen], white and 0 in [waitClear], the
    eased blend during the fades.  This is the boundary exactness of
    spec section 8 for a single lens. *)
Theorem glass_frame_refines en act gate now gs mats :
  single_lens_ok gs mats ->
  single_lens_ok (glass_frame en act gate now gs mats).1 (glass_frame en act gate now gs mats).2.
Proof.
  intros (id & oc & oo & Hids & Hoc & Hoo & Hs).
  unfold glass_frame. rewrite Hids.
  destruct (shouldAnimateGlass _ _ _ _).
  - destruct (getDelta now (gs_clock gs)) as [delta clk]. rewrite glass_forEach_single.
    unfold orig_color, orig_opacity. rewrite Hoc, Hoo. simpl.
    pose proof (glass_mat_step_shows oc oo id
                  (mkGlassAnim (ga_state (gs_anim gs)) (ga_timer (gs_anim gs) + delta))
                  (ga_timer (gs_anim gs)) mats) as Hstep.
    destruct (glass_mat_step oc oo id _ mats) as [a' mats'] eqn:E. simpl in *.
    exists id, oc, oo. repeat split; auto.
  - destruct (gs_was gs); [|exists id, oc, oo; auto].
    simpl. unfold orig_color, orig_opacity. rewrite Hoc, Hoo. simpl.
    exists id, oc, oo. repeat split; auto.
    destruct Hs as (m & Hm & _). apply (shows_set _ _ _ _ m Hm).
Qed.

(** ** Several lenses: the phase change inside the [forEach] *)

Lemma glass_mat_step_clear_end oc oo id tm mats :
  Qle_bool 1 (progress tm anim_duration) = true ->
  glass_mat_step oc oo id (mkGlassAnim toClear tm) mats =
  (mkGlassAnim waitClear 0,
   store_update (set_color_opacity (color_lerp oc white (ease (progress tm anim_duration)))
                   (mathutils_lerp oo 0 (ease (progress tm anim_duration)))) id mats).
Proof. intros E. unfold glass_mat_step. cbn [ga_state ga_timer]. by rewrite E. Qed.

(** C2: with several glass materials, the frame that completes a fade to
    clear sets only the first material to white and opacity 0: the
    [switch] moves the shared phase to [waitClear] while handling the
    first material, so every later material sees [waitClear] with timer 0
    and keeps the value of the previous frame.  The phase is the one the
    contract expects, the later lenses are not at its endpoint. *)
Theorem glass_frame_fade_end_skips_later_lenses en act gate now gs mats id0 rest m0 :
  shouldAnimateGlass en (length (gs_materials gs)) act gate = true ->
  gs_materials gs = id0 :: rest -> id0 ∉ rest -> mats !! id0 = Some m0 ->
  ga_state (gs_anim gs) = toClear ->
  1 <= progress (ga_timer (gs_anim gs) + (getDelta now (gs_clock gs)).1) anim_duration ->
  gs_anim (glass_frame en act gate now gs mats).1 = mkGlassAnim waitClear 0 /\
  shows (glass_frame en act gate now gs mats).2 id0 (white, 0) /\
  (forall id, id ∈ rest -> (glass_frame en act gate now gs mats).2 !! id = mats !! id).
Proof.
  intros Hsh Hids Hnin Hm0 Hph Hp. unfold glass_frame. rewrite Hsh, Hids.
  destruct (gs_anim gs) as [ph tm]. simpl in Hph. subst ph.
  destruct (getDelta now (gs_clock gs)) as [delta clk]. simpl in Hp.
  apply Qle_bool_iff in Hp.
  cbn [glass_forEach ga_state ga_timer]. rewrite glass_mat_step_clear_end by exact Hp.
  rewrite glass_forEach_wait_idle by (right; split; reflexivity).
  cbn [fst snd gs_anim]. split; [reflexivity|]. split.
  - apply (fade_complete_shows _ _ _ _ _ _ _ m0 Hm0 Hp).
  - intros id Hid. apply store_update_lookup_ne. set_solver.
Qed.

(** ** Stopping the animation *)

Lemma glass_reset_materials_other ocs oos i ids mats id :
  id ∉ ids -> glass_reset_materials ocs oos i ids mats !! id = mats !! id.
Proof.
  revert i mats. induction ids as [|id' rest IH]; intros i mats Hn; [reflexivity|].
  simpl. rewrite IH by set_solver. apply store_update_lookup_ne. set_solver.
Qed.

Lemma glass_reset_materials_is_Some ocs oos i ids mats id :
  is_Some (mats !! id) -> is_Some (glass_reset_materials ocs oos i ids mats !! id).
Proof.
  revert i mats. induction ids as [|id' rest IH]; intros i mats H; [exact H|].
  simpl. apply IH, store_update_is_Some, H.
Qed.

(** Every material of the reset loop ends exactly at its rest values. *)
Lemma glass_reset_materials_shows ocs oos i ids mats j id :
  NoDup ids -> Forall (fun id => is_Some (mats !! id)) ids -> ids !! j = Some id ->
  exists m, glass_reset_materials ocs oos i ids mats !! id = Some m /\
            m_color m = orig_color ocs (i + j) /\ m_opacity m = orig_opacity oos (i + j).
Proof.
  revert i j mats. induction ids as [|id0 rest IH]; intros i j mats Hnd Hall Hj; [done|].
  inversion Hnd as [|? ? Hnin Hnd']; subst. inversion Hall as [|? ? [m0 Hm0] Hall']; subst.
  destruct j as [|j]; simpl in Hj.
  - injection Hj as <-. simpl. rewrite glass_reset_materials_other by exact Hnin.
    rewrite (store_update_lookup_eq _ _ _ m0 Hm0). rewrite Nat.add_0_r. eauto.
  - simpl. rewrite <- Nat.add_succ_comm. apply (IH (S i) j); [exact Hnd'| |exact Hj].
    eapply Forall_impl; [exact Hall'|]. intros x Hx. by apply store_update_is_Some.
Qed.

Lemma glass_frame_stop_materials en act gate now gs mats i id :
  shouldAnimateGlass en (length (gs_materials gs)) act gate = false -> gs_was gs = true ->
  NoDup (gs_materials gs) -> Forall (fun id => is_Some (mats !! id)) (gs_materials gs) ->
  gs_materials gs !! i = Some id ->
  exists m, (glass_frame en act gate now gs mats).2 !! id = Some m /\
            m_color m = orig_color (gs_origColors gs) i /\
            m_opacity m = orig_opacity (gs_origOpacities gs) i.
Proof.
  intros Hsh Hw Hnd Hall Hi. unfold glass_frame. rewrite Hsh, Hw. simpl.
  apply (glass_reset_materials_shows _ _ 0 _ _ i id Hnd Hall Hi).
Qed.

(** C8: a frame in which the animation no longer runs, after frames in
    which it did, puts the phase back to [waitGreen] with timer 0 and
    every glass material exactly back to its rest colour and opacity
    (spec section 8: leaving the gating camera resets at once, with no
    residual interpolated state). *)
Theorem glass_frame_stop_resets en act gate now gs mats :
  shouldAnimateGlass en (length (gs_materials gs)) act gate = false -> gs_was gs = true ->
  NoDup (gs_materials gs) -> Forall (fun id => is_Some (mats !! id)) (gs_materials gs) ->
  gs_anim (glass_frame en act gate now gs mats).1 = glassAnim_init /\
  gs_was (glass_frame en act gate now gs mats).1 = false /\
  (forall i id, gs_materials gs !! i = Some id ->
     exists m, (glass_frame en act gate now gs mats).2 !! id = Some m /\
               m_color m = orig_color (gs_origColors gs) i /\
               m_opacity m = orig_opacity (gs_origOpacities gs) i).
Proof.
  intros Hsh Hw Hnd Hall. split; [|split].
  1-2: unfold glass_frame; rewrite Hsh, Hw; reflexivity.
  intros i id. by apply glass_frame_stop_materials.
Qed.

(** ** What a frame does not change *)

Lemma glass_mat_step_same_dom oc oo id a mats : same_dom mats (glass_mat_step oc oo id a mats).2.
Proof.
  unfold glass_mat_step.
  destruct (ga_state a); [destruct (Qltb _ _)| |destruct (Qltb _ _)|]; simpl;
    try reflexivity; apply store_update_same_dom.
Qed.

Lemma glass_forEach_same_dom ocs oos i ids a mats :
  same_dom mats (glass_forEach ocs oos i ids a mats).2.
Proof.
  revert i a mats. induction ids as [|id rest IH]; intros i a mats; simpl; [reflexivity|].
  pose proof (glass_mat_step_same_dom (orig_color ocs i) (orig_opacity oos i) id a mats) as H.
  destruct (glass_mat_step _ _ _ _ _) as [a' mats']. simpl in H.
  etransitivity; [exact H | apply IH].
Qed.

Lemma glass_reset_materials_same_dom ocs oos i ids mats :
  same_dom mats (glass_reset_materials ocs oos i ids mats).
Proof.
  revert i mats. induction ids as [|id rest IH]; intros i mats; simpl; [reflexivity|].
  etransitivity; [apply store_update_same_dom | apply IH].
Qed.

(** A frame writes the glass materials only. *)
Lemma glass_mat_step_other oc oo id a mats id' :
  id' <> id -> (glass_mat_step oc oo id a mats).2 !! id' = mats !! id'.
Proof.
  intros Hne. unfold glass_mat_step.
  destruct (ga_state a); [destruct (Qltb _ _)| |destruct (Qltb _ _)|]; simpl;
    try reflexivity; by apply store_update_lookup_ne.
Qed.

Lemma glass_forEach_other ocs oos i ids a mats id :
  id ∉ ids -> (glass_forEach ocs oos i ids a mats).2 !! id = mats !! id.
Proof.
  revert i a mats. induction ids as [|id0 rest IH]; intros i a mats Hn; simpl; [reflexivity|].
  pose proof (glass_mat_step_other (orig_color ocs i) (orig_opacity oos i) id0 a mats id) as H.
  destruct (glass_mat_step _ _ _ _ _) as [a' mats']. simpl in H.
  rewrite IH by set_solver. apply H. set_solver.
Qed.

Lemma glass_frame_other en act gate now gs mats id :
  id ∉ gs_materials gs -> (glass_frame en act gate now gs mats).2 !! id = mats !! id.
Proof.
  intros Hn. unfold glass_frame. destruct (shouldAnimateGlass _ _ _ _).
  - destruct (getDelta now (gs_clock gs)) as [delta clk].
    pose proof (glass_forEach_other (gs_origColors gs) (gs_origOpacities gs) 0 (gs_materials gs)
                  (mkGlassAnim (ga_state (gs_anim gs)) (ga_timer (gs_anim gs) + delta)) mats id Hn) as H.
    destruct (glass_forEach _ _ _ _ _ _) as [a' mats']. exact H.
  - destruct (gs_was gs); [apply glass_reset_materials_other, Hn|reflexivity].
Qed.

(** A frame keeps the glass lists and the addresses of the store. *)
Lemma glass_frame_shape en act gate now gs mats :
  gs_materials (glass_frame en act gate now gs mats).1 = gs_materials gs /\
  gs_origColors (glass_frame en act gate now gs mats).1 = gs_origColors gs /\
  gs_origOpacities (glass_frame en act gate now gs mats).1 = gs_origOpacities gs /\
  same_dom mats (glass_frame en act gate now gs mats).2.
Proof.
  unfold glass_frame. destruct (shouldAnimateGlass _ _ _ _).
  - destruct (getDelta now (gs_clock gs)) as [delta clk].
    pose proof (glass_forEach_same_dom (gs_origColors gs) (gs_origOpacities gs) 0
                  (gs_materials gs) (mkGlassAnim (ga_state (gs_anim gs)) (ga_timer (gs_anim gs) + delta))
                  mats) as H.
    destruct (glass_forEach _ _ _ _ _ _) as [a' mats'].
    cbn [fst snd gs_materials gs_origColors gs_origOpacities] in *.
    refine (conj eq_refl (conj eq_refl (conj eq_refl H))).
  - destruct (gs_was gs); cbn [fst snd gs_materials gs_origColors gs_origOpacities];
      refine (conj eq_refl (conj eq_refl (conj eq_refl _)));
      [apply glass_reset_materials_same_dom | reflexivity].
Qed.

(** ** Witnesses on the Cosmic Blue lenses *)

(** ** Leaving and coming back *)

Lemma glass_forEach_fade_running ocs oos i ids tm mats :
  Qle_bool 1 (progress tm anim_duration) = false ->
  (glass_forEach ocs oos i ids (mkGlassAnim toClear tm) mats).1 = mkGlassAnim toClear tm.
Proof.
  intros E. revert i mats. induction ids as [|id rest IH]; intros i mats; [reflexivity|].
  cbn [glass_forEach glass_mat_step ga_state ga_timer]. rewrite E. apply IH.
Qed.

(** C17: the clock is only read while the animation runs, so a frame that
    stops the animation leaves it at the last animated frame.  When the
    gating camera becomes active again more than [waitGreen] seconds after
    that frame, the first frame's delta already exceeds the hold: the fade
    to clear starts at once, and the lens never holds its rest value for
    the 1 s that spec section 4.6 prescribes after a reset
    (main.js:765, 836-848). *)
Theorem glass_reentry_skips_wait en act gate en' act' gate' t1 t2 gs mats :
  shouldAnimateGlass en (length (gs_materials gs)) act gate = false -> gs_was gs = true ->
  shouldAnimateGlass en' (length (gs_materials gs)) act' gate' = true ->
  clk_running (gs_clock gs) = true ->
  1000 * anim_waitGreen < t2 - clk_oldTime (gs_clock gs) ->
  gs_anim (glass_frame en act gate t1 gs mats).1 = glassAnim_init /\
  gs_anim (glass_frame en' act' gate' t2 (glass_frame en act gate t1 gs mats).1
                                      (glass_frame en act gate t1 gs mats).2).1
    = mkGlassAnim toClear 0.
Proof.
  intros Hoff Hw Hon Hrun Hlate. unfold glass_frame at 1 3 4. rewrite Hoff, Hw.
  split; [reflexivity|]. unfold glass_frame. cbn [fst snd gs_materials gs_clock gs_anim gs_was].
  rewrite Hon. unfold getDelta. rewrite Hrun. cbn [fst snd ga_state ga_timer glassAnim_init].
  destruct (gs_materials gs) as [|id rest] eqn:Hm;
    [unfold shouldAnimateGlass in Hon; destruct en'; discriminate|].
  cbn [glass_forEach glass_mat_step ga_state ga_timer].
  assert (Hlt : Qltb anim_waitGreen (0 + (t2 - clk_oldTime (gs_clock gs)) / 1000) = true).
  { apply Qltb_spec. unfold anim_waitGreen in *. rewrite Qplus_0_l.
    apply Qlt_shift_div_l; [reflexivity|]. lra. }
  rewrite Hlt. cbn [fst snd].
  match goal with |- context [glass_forEach ?o ?oo 1 rest ?a ?m] =>
    pose proof (glass_forEach_fade_running o oo 1 rest 0 m eq_refl) as H;
    destruct (glass_forEach o oo 1 rest a m) end.
  exact H.
Qed.

(** Consecutive [animate] calls at the timestamps [ts], the gate fixed. *)
Fixpoint glass_frames (en : bool) (act gate : option string) (ts : list Q)
    (gs : GlassSys) (mats : Store) : GlassSys * Store :=
  match ts with
  | [] => (gs, mats)
  | t :: rest =>
      let '(gs', mats') := glass_frame en act gate t gs mats in
      glass_frames en act gate rest gs' mats'
  end.

(** ** Bounds

    A lens stays a colour with components in [0, 1] and an opacity in
    [0, 1], when its rest values are, the timer is not negative and the
    clock does not go back. *)

Definition unit_q (q : Q) : Prop := 0 <= q <= 1.

Definition mat_in_unit (m : Material) : Prop := color_in_unit (m_color m) /\ unit_q (m_opacity m).

(** Every material of [ids] in the store is in range. *)
Definition store_in_unit (ids : list nat) (mats : Store) : Prop :=
  forall id m, id ∈ ids -> mats !! id = Some m -> mat_in_unit m.

Definition rest_in_unit (gs : GlassSys) : Prop :=
  Forall color_in_unit (gs_origColors gs) /\ Forall unit_q (gs_origOpacities gs).

(** The clock has not run past [now]. *)
Definition clock_before (now : Q) (c : Clock) : Prop := clk_running c = true -> clk_oldTime c <= now.

Lemma lerp_unit x y e : unit_q x -> unit_q y -> unit_q e -> unit_q (mathutils_lerp x y e).
Proof. unfold unit_q, mathutils_lerp. intros. nra. Qed.

Lemma color_lerp_unit c d e :
  color_in_unit c -> color_in_unit d -> unit_q e -> color_in_unit (color_lerp c d e).
Proof. unfold color_in_unit, unit_q, color_lerp. cbn [cr cg cb]. intros. repeat split; nra. Qed.

Lemma white_unit : color_in_unit white.
Proof. unfold color_in_unit, white. cbn [cr cg cb]. repeat split; lra. Qed.

Lemma orig_color_unit ocs i : Forall color_in_unit ocs -> color_in_unit (orig_color ocs i).
Proof.
  intros H. unfold orig_color. destruct (ocs !! i) eqn:E; simpl; [|apply white_unit].
  rewrite Forall_lookup in H. eauto.
Qed.

Lemma orig_opacity_unit oos i : Forall unit_q oos -> unit_q (orig_opacity oos i).
Proof.
  intros H. unfold orig_opacity. destruct (oos !! i) eqn:E; simpl; [|unfold unit_q; lra].
  rewrite Forall_lookup in H. eauto.
Qed.

Lemma ease_progress_unit tm : 0 <= tm -> unit_q (ease (progress tm anim_duration)).
Proof.
  intros H. apply ease_range. split; [apply progress_nonneg; [exact H|unfold anim_duration; lra]|].
  apply progress_le_1.
Qed.

Lemma store_update_unit c o id ids mats :
  color_in_unit c -> unit_q o -> store_in_unit ids mats ->
  store_in_unit ids (store_update (set_color_opacity c o) id mats).
Proof.
  intros Hc Ho Hs id' m Hin Hm. destruct (decide (id = id')) as [->|Hne].
  - unfold store_update in Hm. destruct (mats !! id') eqn:E; [|eauto].
    rewrite lookup_insert_eq in Hm. injection Hm as <-. split; assumption.
  - rewrite store_update_lookup_ne in Hm by exact Hne. eauto.
Qed.

Lemma glass_mat_step_unit oc oo id a mats ids :
  color_in_unit oc -> unit_q oo -> 0 <= ga_timer a -> store_in_unit ids mats ->
  store_in_unit ids (glass_mat_step oc oo id a mats).2 /\ 0 <= ga_timer (glass_mat_step oc oo id a mats).1.
Proof.
  intros Hc Ho Ht Hs. pose proof (ease_progress_unit _ Ht) as He.
  pose proof white_unit as Hw. assert (H0 : unit_q 0) by (unfold unit_q; lra).
  unfold glass_mat_step. destruct (ga_state a).
  - destruct (Qltb _ _); simpl; split; auto; lra.
  - split; [apply store_update_unit; auto using color_lerp_unit, lerp_unit|].
    destruct (Qle_bool _ _); simpl; [lra|exact Ht].
  - destruct (Qltb _ _); simpl; split; auto; lra.
  - split; [apply store_update_unit; auto using color_lerp_unit, lerp_unit|].
    destruct (Qle_bool _ _); simpl; [lra|exact Ht].
Qed.

Lemma glass_forEach_unit ocs oos i ids0 ids a mats :
  Forall color_in_unit ocs -> Forall unit_q oos -> 0 <= ga_timer a -> store_in_unit ids0 mats ->
  store_in_unit ids0 (glass_forEach ocs oos i ids a mats).2 /\
  0 <= ga_timer (glass_forEach ocs oos i ids a mats).1.
Proof.
  intros Hc Ho. revert i a mats. induction ids as [|id rest IH]; intros i a mats Ht Hs; [auto|].
  simpl. destruct (glass_mat_step_unit (orig_color ocs i) (orig_opacity oos i) id a mats ids0)
    as [H1 H2]; auto using orig_color_unit, orig_opacity_unit.
  destruct (glass_mat_step _ _ _ _ _) as [a' mats']. apply IH; assumption.
Qed.

Lemma glass_reset_materials_unit ocs oos i ids0 ids mats :
  Forall color_in_unit ocs -> Forall unit_q oos -> store_in_unit ids0 mats ->
  store_in_unit ids0 (glass_reset_materials ocs oos i ids mats).
Proof.
  intros Hc Ho. revert i mats. induction ids as [|id rest IH]; intros i mats Hs; [exact Hs|].
  simpl. apply IH, store_update_unit; auto using orig_color_unit, orig_opacity_unit.
Qed.

Lemma getDelta_nonneg now c :
  clock_before now c -> 0 <= (getDelta now c).1 /\ clock_before now (getDelta now c).2.
Proof.
  intros H. unfold getDelta, clock_before in *. destruct (clk_running c); simpl.
  - split; [|intros; lra]. apply Qle_shift_div_l; [lra|]. specialize (H eq_refl). lra.
  - split; [lra|intros; lra].
Qed.

(** C24: a frame keeps every glass material's colour and opacity in
    [0, 1], the timer non-negative and the clock not past the frame,
    when the rest values are in [0, 1] and the clock has not run past
    the frame's timestamp (spec section 3: colours and opacities in
    [0, 1]). *)
Theorem glass_frame_in_unit en act gate now gs mats :
  rest_in_unit gs -> 0 <= ga_timer (gs_anim gs) -> clock_before now (gs_clock gs) ->
  store_in_unit (gs_materials gs) mats ->
  store_in_unit (gs_materials gs) (glass_frame en act gate now gs mats).2 /\
  0 <= ga_timer (gs_anim (glass_frame en act gate now gs mats).1) /\
  clock_before now (gs_clock (glass_frame en act gate now gs mats).1) /\
  gs_materials (glass_frame en act gate now gs mats).1 = gs_materials gs /\
  rest_in_unit (glass_frame en act gate now gs mats).1.
Proof.
  intros [Hc Ho] Ht Hk Hs. unfold glass_frame.
  destruct (shouldAnimateGlass _ _ _ _).
  - destruct (getDelta_nonneg now (gs_clock gs) Hk) as [Hd Hk'].
    destruct (getDelta now (gs_clock gs)) as [delta clk]. simpl in Hd, Hk'.
    destruct (glass_forEach_unit (gs_origColors gs) (gs_origOpacities gs) 0 (gs_materials gs)
                (gs_materials gs) (mkGlassAnim (ga_state (gs_anim gs)) (ga_timer (gs_anim gs) + delta))
                mats Hc Ho) as [H1 H2]; [simpl; lra|exact Hs|].
    destruct (glass_forEach _ _ _ _ _ _) as [a' mats']. simpl in *.
    exact (conj H1 (conj H2 (conj Hk' (conj eq_refl (conj Hc Ho))))).
  - destruct (gs_was gs); simpl.
    + refine (conj (glass_reset_materials_unit _ _ _ _ _ _ Hc Ho Hs)
                (conj _ (conj Hk (conj eq_refl (conj Hc Ho))))). lra.
    + exact (conj Hs (conj Ht (conj Hk (conj eq_refl (conj Hc Ho))))).
Qed.

Module GlassWitness.

Definition lens : Material :=
  build_glass_material Skins.SHINY_COSMIC_BLUE (Some (logo_texture_of Skins.SHINY_COSMIC_BLUE)).

(** A second lens caught half-way through the fade, opacity 0.05. *)
Definition lens_mid : Material := set_color_opacity ⟪0.9, 0.9, 0.9⟫ 0.05 lens.

Definition one_lens : GlassSys :=
  mkGlassSys glassAnim_init [0%nat] [glass_color (glass Skins.SHINY_COSMIC_BLUE)] [0.9]
             false clock_init.

Definition two_lenses : GlassSys :=
  mkGlassSys (mkGlassAnim toClear 1.4) [0%nat; 1%nat]
             [glass_color (glass Skins.SHINY_COSMIC_BLUE); glass_color (glass Skins.SHINY_COSMIC_BLUE)]
             [0.9; 0.9] true (mkClock true 1000 3).

Definition store1 : Store := {[ 0%nat := lens ]}.
Definition store2 : Store := <[ 1%nat := lens_mid ]> {[ 0%nat := lens ]}.

Definition lenses : option string := Some "Cam_Lenses".

End GlassWitness.

Import GlassWitness.

Ltac solve_single_lens :=
  eexists _, _, _; split; [reflexivity|]; split; [reflexivity|]; split; [reflexivity|];
  eexists; split; [reflexivity|]; equiv_split; vm_compute; reflexivity.

Lemma glass_frame_refines_witness :
  single_lens_ok one_lens store1 /\
  single_lens_ok (glass_frame true lenses lenses 16 one_lens store1).1
                 (glass_frame true lenses lenses 16 one_lens store1).2.
Proof.
  split; [solve_single_lens|]. apply glass_frame_refines. solve_single_lens.
Defined.

(** The frame at 1200 ms completes the fade (timer 1.4 + 0.2 s): the
    second lens keeps opacity 0.05 through the clear phase. *)
Lemma glass_frame_fade_end_skips_later_lenses_witness :
  gs_anim (glass_frame true lenses lenses 1200 two_lenses store2).1 = mkGlassAnim waitClear 0 /\
  (glass_frame true lenses lenses 1200 two_lenses store2).2 !! 1%nat = Some lens_mid /\
  m_opacity lens_mid == 0.05.
Proof.
  destruct (glass_frame_fade_end_skips_later_lenses true lenses lenses 1200 two_lenses store2
              0%nat [1%nat] lens) as (H1 & _ & H3).
  - reflexivity.
  - reflexivity.
  - set_solver.
  - reflexivity.
  - reflexivity.
  - apply Qle_bool_iff. reflexivity.
  - split; [exact H1|]. split; [rewrite H3 by set_solver; reflexivity|reflexivity].
Defined.

(** Leaving [Cam_Lenses] in the middle of the fade resets both lenses. *)
Lemma glass_frame_stop_resets_witness :
  gs_anim (glass_frame true (Some "Cam_Front") lenses 1200 two_lenses store2).1 = glassAnim_init /\
  exists m, (glass_frame true (Some "Cam_Front") lenses 1200 two_lenses store2).2 !! 1%nat = Some m /\
            m_opacity m = 0.9.
Proof.
  destruct (glass_frame_stop_resets true (Some "Cam_Front") lenses 1200 two_lenses store2)
    as (H1 & _ & H3).
  - reflexivity.
  - reflexivity.
  - repeat constructor; set_solver.
  - repeat constructor; eexists; reflexivity.
  - split; [exact H1|]. destruct (H3 1%nat 1%nat eq_refl) as (m & Hm & _ & Ho).
    exists m. split; [exact Hm | exact Ho].
Defined.

(** Two lenses animating until 1000 ms, the Front camera at 1200 ms, the
    Lenses camera again at 2500 ms: the fade starts on the first frame. *)
Lemma glass_reentry_skips_wait_witness :
  gs_anim (glass_frame true (Some "Cam_Front") lenses 1200 two_lenses store2).1
    = glassAnim_init /\
  gs_anim (glass_frame true lenses lenses 2500
             (glass_frame true (Some "Cam_Front") lenses 1200 two_lenses store2).1
             (glass_frame true (Some "Cam_Front") lenses 1200 two_lenses store2).2).1
    = mkGlassAnim toClear 0.
Proof. apply glass_reentry_skips_wait; vm_compute; reflexivity. Defined.

(** The one-lens page of the witnesses, at its first frame. *)
Lemma glass_frame_in_unit_witness :
  store_in_unit [0%nat] (glass_frame true lenses lenses 500 one_lens store1).2.
Proof.
  destruct (glass_frame_in_unit true lenses lenses 500 one_lens store1) as [H _].
  - split; repeat constructor; unfold color_in_unit, unit_q; simpl; lra.
  - simpl. lra.
  - intros H. discriminate H.
  - intros id m Hin Hm. apply list_elem_of_singleton in Hin as ->. injection Hm as <-.
    unfold mat_in_unit, color_in_unit, unit_q. vm_compute. repeat split; discriminate.
  - exact H.
Defined.
