(* ===== verification/Camera.v ===== *)
(** * Camera switching and transitions (main.js:508-532, 662-701, 716-750)

    [smoothSwitchCamera] either snaps to the free camera and hands the view
    to the orbit controls, or records a transition from the camera's
    current pose to the named camera's pose; [camera_frame] is the camera
    half of [animate]: it interpolates the position linearly and the
    orientation by slerp, both by the smoothstep of the clamped progress,
    and ends the transition when the progress reaches 1.

    The three.js operations whose results are not rational (quaternion
    slerp, [Object3D.lookAt], [OrbitControls.update]) are the fields of the
    class [ThreeOps]; the only laws used are the two early returns of
    [Quaternion.slerp] ([t === 0] returns the start, [t === 1] the end).
    [cam_reachable] is the step relation of the camera component: the
    states reachable by switches and frames. *)

From S2P Require Import Prelude.

(** [cameraTargets[name]] (main.js:183-188). *)
Record CamData := mkCamData {
  cd_position : Vec3;
  cd_quaternion : Quat;
  cd_target : Vec3;
  cd_fov : Q
}.

(** [transition] (main.js:524-532). *)
Record Transition := mkTransition {
  tr_active : bool;
  tr_startTime : Q;
  tr_duration : Q;
  tr_fromPos : Vec3;
  tr_toPos : Vec3;
  tr_fromQuat : Quat;
  tr_toQuat : Quat
}.

(** The [camera]'s pose and field of view. *)
Record CameraState := mkCameraState {
  cam_position : Vec3;
  cam_quaternion : Quat;
  cam_fov : Q
}.

(** The two properties of [controls] the code changes. *)
Record Controls := mkControls { ctl_enabled : bool; ctl_target : Vec3 }.

(** The camera globals: [transition], [camera], [controls], [activeCameraName]. *)
Record CamSys := mkCamSys {
  cs_transition : Transition;
  cs_camera : CameraState;
  cs_controls : Controls;
  cs_active : option string
}.

(** The three.js operations the camera code calls. *)
Class ThreeOps := {
  slerp : Quat -> Quat -> Q -> Quat;
  slerp_at_0 : forall a b t, t == 0 -> slerp a b t = a;
  slerp_at_1 : forall a b t, t == 1 -> slerp a b t = b;
  (** [camera.lookAt(target)] from [eye]: the new orientation. *)
  lookAt_quat : Vec3 -> Vec3 -> Quat;
  (** [controls.update()]: the camera after the orbit step around [target]. *)
  orbit_update : Vec3 -> CameraState -> CameraState
}.

(** [FREE_CAMERA]: the name the code compares with, written out at
    main.js:669 and 734. *)
Definition FREE_CAMERA : string := "Cam_Free".

(** The state at start-up (main.js:508-532, 568-569, 41). *)
Definition cam_init : CamSys :=
  {| cs_transition := mkTransition false 0 0.8 vec_zero vec_zero quat_identity quat_identity;
     cs_camera := mkCameraState vec_zero quat_identity 80;
     cs_controls := mkControls false vec_zero;
     cs_active := None |}.

Section CameraOps.
Context {ops : ThreeOps}.

(** [smoothSwitchCamera(name)] at [performance.now() = now] (main.js:662-701). *)
Definition smoothSwitchCamera (targets : gmap string CamData) (name : string) (now : Q)
    (cs : CamSys) : CamSys :=
  let tr := cs_transition cs in
  let cam := cs_camera cs in
  match targets !! name with
  | None =>
      {| cs_transition := tr; cs_camera := cam; cs_controls := cs_controls cs;
         cs_active := Some name |}
  | Some cd =>
      if String.eqb name FREE_CAMERA then
        let cam1 := mkCameraState (cd_position cd)
                      (lookAt_quat (cd_position cd) (cd_target cd)) (cam_fov cam) in
        {| cs_transition := mkTransition false (tr_startTime tr) (tr_duration tr)
                              (tr_fromPos tr) (tr_toPos tr) (tr_fromQuat tr) (tr_toQuat tr);
           cs_camera := orbit_update (cd_target cd) cam1;
           cs_controls := mkControls true (cd_target cd);
           cs_active := Some name |}
      else
        {| cs_transition := mkTransition true now (tr_duration tr) (cam_position cam)
                              (cd_position cd) (cam_quaternion cam) (cd_quaternion cd);
           cs_camera := mkCameraState (cam_position cam) (cam_quaternion cam) (cd_fov cd);
           cs_controls := mkControls false (ctl_target (cs_controls cs));
           cs_active := Some name |}
  end.

(** The camera half of [animate(time)] (main.js:722-750). *)
Definition camera_frame (time : Q) (cs : CamSys) : CamSys :=
  let tr := cs_transition cs in
  let cam := cs_camera cs in
  let cs1 :=
    if tr_active tr then
      let elapsed := (time - tr_startTime tr) / 1000 in
      let t := progress elapsed (tr_duration tr) in
      let e := ease t in
      let q := if opt_str_eqb (cs_active cs) (Some FREE_CAMERA) then cam_quaternion cam
               else slerp (tr_fromQuat tr) (tr_toQuat tr) e in
      {| cs_transition := mkTransition (negb (Qle_bool 1 t)) (tr_startTime tr)
                            (tr_duration tr) (tr_fromPos tr) (tr_toPos tr)
                            (tr_fromQuat tr) (tr_toQuat tr);
         cs_camera := mkCameraState (vec_lerp (tr_fromPos tr) (tr_toPos tr) e) q (cam_fov cam);
         cs_controls := cs_controls cs;
         cs_active := cs_active cs |}
    else cs in
  if ctl_enabled (cs_controls cs1) then
    {| cs_transition := cs_transition cs1;
       cs_camera := orbit_update (ctl_target (cs_controls cs1)) (cs_camera cs1);
       cs_controls := cs_controls cs1; cs_active := cs_active cs1 |}
  else cs1.

(** The events of the component: a camera button, a display frame. *)
Inductive CamEvent := SwitchCamera (name : string) (now : Q) | Frame (time : Q).

Definition cam_step (targets : gmap string CamData) (ev : CamEvent) (cs : CamSys) : CamSys :=
  match ev with
  | SwitchCamera name now => smoothSwitchCamera targets name now cs
  | Frame time => camera_frame time cs
  end.

(** The states reachable from start-up. *)
Inductive cam_reachable (targets : gmap string CamData) : CamSys -> Prop :=
  | cam_reach_init : cam_reachable targets cam_init
  | cam_reach_step ev cs :
      cam_reachable targets cs -> cam_reachable targets (cam_step targets ev cs).

(** A run of frames. *)
Definition camera_frames (times : list Q) (cs : CamSys) : CamSys :=
  fold_left (fun c t => camera_frame t c) times cs.

End CameraOps.

(** The camera buttons (main.js:873-881): label and camera name. *)
Definition camera_buttons : list (string * string) :=
  [("Front", "Cam_Front"); ("Side", "Cam_Side"); ("Camera", "Cam_Camera");
   ("Capture", "Cam_Capture"); ("Power", "Cam_Power"); ("Lenses", "Cam_Lenses");
   ("Free", FREE_CAMERA)].

(** ** A computable instance for the witnesses

    [Quaternion.slerp] returns its start for [t === 0] and its end for
    [t === 1]; in between it computes with [sqrt] and [atan2].  The
    witnesses only evaluate the endpoints, so the middle is filled by the
    componentwise blend.  [lookAt] and the orbit step are left as the
    identity: the witnesses do not observe them. *)
Definition endpoint_slerp (a b : Quat) (t : Q) : Quat :=
  if Qeq_bool t 0 then a
  else if Qeq_bool t 1 then b
  else mkQuat (qx a + (qx b - qx a) * t) (qy a + (qy b - qy a) * t)
              (qz a + (qz b - qz a) * t) (qw a + (qw b - qw a) * t).

Lemma endpoint_slerp_0 a b t : t == 0 -> endpoint_slerp a b t = a.
Proof. intros H. unfold endpoint_slerp. apply Qeq_bool_iff in H. by rewrite H. Qed.

Lemma endpoint_slerp_1 a b t : t == 1 -> endpoint_slerp a b t = b.
Proof.
  intros H. unfold endpoint_slerp. destruct (Qeq_bool t 0) eqn:E0.
  - apply Qeq_bool_iff in E0. rewrite E0 in H. discriminate.
  - apply Qeq_bool_iff in H. by rewrite H.
Qed.

Definition witness_ops : ThreeOps := {|
  slerp := endpoint_slerp; slerp_at_0 := endpoint_slerp_0; slerp_at_1 := endpoint_slerp_1;
  lookAt_quat := fun _ _ => quat_identity; orbit_update := fun _ c => c |}.

(** An illustrative camera table: the model file is not part of the
    repository, so the poses are made up; the names are those of the
    camera buttons. *)
Definition sample_cameras : gmap string CamData :=
  list_to_map
    [("Cam_Front", mkCamData (mkVec3 0 0 1) (mkQuat 0 0 0 1) vec_zero 35);
     ("Cam_Lenses", mkCamData (mkVec3 0 (1#10) (6#10)) (mkQuat 0 (1#2) 0 (1#2)) vec_zero 30);
     (FREE_CAMERA, mkCamData (mkVec3 1 1 1) (mkQuat 0 0 0 1) vec_zero 50)].

(** ** Lemmas on one frame *)

Section CameraProofs.
Context {ops : ThreeOps}.

(** [transition] with [active] cleared. *)
Definition tr_deactivate (T : Transition) : Transition :=
  mkTransition false (tr_startTime T) (tr_duration T) (tr_fromPos T) (tr_toPos T)
               (tr_fromQuat T) (tr_toQuat T).

Lemma le_div_1000 a b : a <= b / 1000 <-> 1000 * a <= b.
Proof.
  split; intros Hle.
  - apply (Qle_trans _ (1000 * (b / 1000))).
    + apply Qmult_le_l; [reflexivity | exact Hle].
    + rewrite Qle_lteq. right. field.
  - apply Qle_shift_div_l; [reflexivity | lra].
Qed.

(** The transition is late at [time]: its progress has reached 1. *)
Definition tr_late (T : Transition) (time : Q) : Prop :=
  tr_startTime T + 1000 * tr_duration T <= time.

#[export] Instance tr_late_dec T time : Decision (tr_late T time).
Proof. unfold tr_late. apply _. Defined.

Lemma tr_late_progress T time :
  0 < tr_duration T -> tr_late T time ->
  Qle_bool 1 (progress ((time - tr_startTime T) / 1000) (tr_duration T)) = true.
Proof.
  unfold tr_late. intros Hd Hl. apply Qle_bool_iff, progress_one_iff; [exact Hd|].
  apply le_div_1000. lra.
Qed.

Lemma tr_not_late_progress T time :
  0 < tr_duration T -> ~ tr_late T time ->
  Qle_bool 1 (progress ((time - tr_startTime T) / 1000) (tr_duration T)) = false.
Proof.
  unfold tr_late. intros Hd Hl. destruct (Qle_bool _ _) eqn:E; [|reflexivity].
  exfalso. apply Hl. apply Qle_bool_iff in E. apply (progress_one_iff _ _ Hd) in E.
  apply le_div_1000 in E. lra.
Qed.

(** Without a transition and without the orbit controls a frame changes nothing. *)
Lemma camera_frame_idle time cs :
  tr_active (cs_transition cs) = false -> ctl_enabled (cs_controls cs) = false ->
  camera_frame time cs = cs.
Proof. intros Ha Hc. unfold camera_frame. rewrite Ha, Hc. reflexivity. Qed.

(** The camera heads for the pose of transition [T] under the name
    [name]: the controls are off and either [T] is still running, or it
    has ended with the camera exactly on [T]'s target pose. *)
Definition heading_to (T : Transition) (name : string) (cs : CamSys) : Prop :=
  ctl_enabled (cs_controls cs) = false /\ cs_active cs = Some name /\
  (cs_transition cs = T \/
   (cs_transition cs = tr_deactivate T /\ cam_position (cs_camera cs) ≡ tr_toPos T /\
    cam_quaternion (cs_camera cs) = tr_toQuat T)).

Lemma camera_frame_heading T name time cs :
  tr_active T = true -> 0 < tr_duration T -> name <> FREE_CAMERA ->
  heading_to T name cs ->
  heading_to T name (camera_frame time cs) /\
  (tr_late T time -> cs_transition (camera_frame time cs) = tr_deactivate T).
Proof.
  intros HT Hd Hn (Hc & Ha & [Htr | (Htr & Hp & Hq)]).
  - assert (Hq : opt_str_eqb (cs_active cs) (Some FREE_CAMERA) = false).
    { rewrite Ha. destruct (opt_str_eqb_spec (Some name) (Some FREE_CAMERA)); congruence. }
    destruct T as [act st du fp tp fq tq]; simpl in HT, Hd; subst act.
    unfold camera_frame. rewrite Htr, Hq.
    cbn [tr_active cs_controls cs_transition cs_camera cs_active tr_startTime tr_duration
         tr_fromPos tr_toPos tr_fromQuat tr_toQuat]. rewrite Hc.
    destruct (decide (tr_late (mkTransition true st du fp tp fq tq) time)) as [Hl|Hl].
    + pose proof (tr_late_progress (mkTransition true st du fp tp fq tq) time Hd Hl) as E. simpl in E. rewrite E.
      split; [|reflexivity]. split; [exact Hc|]. split; [exact Ha|]. right.
      split; [reflexivity|]. simpl. apply Qle_bool_iff in E.
      assert (Ht : progress ((time - st) / 1000) du == 1)
        by (pose proof (progress_le_1 ((time - st) / 1000) du); lra).
      split; [apply vec_lerp_1, ease_1, Ht | apply slerp_at_1, ease_1, Ht].
    + pose proof (tr_not_late_progress (mkTransition true st du fp tp fq tq) time Hd Hl) as E. simpl in E. rewrite E.
      split; [|intros; contradiction]. split; [exact Hc|]. split; [exact Ha|]. by left.
  - rewrite camera_frame_idle by (rewrite ?Htr; auto).
    split; [|intros; exact Htr]. split; [exact Hc|]. split; [exact Ha|]. right. auto.
Qed.

Lemma camera_frames_heading T name times cs :
  tr_active T = true -> 0 < tr_duration T -> name <> FREE_CAMERA ->
  heading_to T name cs -> heading_to T name (camera_frames times cs).
Proof.
  intros HT Hd Hn. revert cs. induction times as [|t ts IH]; intros cs H; [exact H|].
  apply IH, (camera_frame_heading T name t cs HT Hd Hn H).
Qed.

(** Once the transition has ended, frames leave it ended. *)
Lemma camera_frames_ended T name times cs :
  tr_active T = true -> 0 < tr_duration T -> name <> FREE_CAMERA ->
  heading_to T name cs -> cs_transition cs = tr_deactivate T ->
  cs_transition (camera_frames times cs) = tr_deactivate T.
Proof.
  intros HT Hd Hn. revert cs. induction times as [|t ts IH]; intros cs H He; [exact He|].
  simpl. apply IH; [apply (camera_frame_heading T name t cs HT Hd Hn H)|].
  destruct H as (Hc & _ & _). by rewrite camera_frame_idle by (rewrite ?He; auto).
Qed.

Lemma camera_frames_cons t ts cs :
  camera_frames (t :: ts) cs = camera_frames ts (camera_frame t cs).
Proof. reflexivity. Qed.

(** A run of frames containing a late one ends the transition. *)
Lemma camera_frames_reach T name times cs :
  tr_active T = true -> 0 < tr_duration T -> name <> FREE_CAMERA ->
  heading_to T name cs -> Exists (tr_late T) times ->
  cs_transition (camera_frames times cs) = tr_deactivate T.
Proof.
  intros HT Hd Hn H Hex. revert cs H. induction Hex as [t ts Hl|t ts _ IH]; intros cs H.
  - rewrite camera_frames_cons.
    destruct (camera_frame_heading T name t cs HT Hd Hn H) as [H' He].
    apply (camera_frames_ended T name); auto.
  - rewrite camera_frames_cons. apply IH, (camera_frame_heading T name t cs HT Hd Hn H).
Qed.

(** The transition [smoothSwitchCamera] starts towards camera [cd]. *)
Definition switch_transition (cs : CamSys) (now : Q) (cd : CamData) : Transition :=
  mkTransition true now (tr_duration (cs_transition cs)) (cam_position (cs_camera cs))
               (cd_position cd) (cam_quaternion (cs_camera cs)) (cd_quaternion cd).

Lemma smoothSwitchCamera_heading targets name cd now cs :
  targets !! name = Some cd -> name <> FREE_CAMERA ->
  heading_to (switch_transition cs now cd) name (smoothSwitchCamera targets name now cs).
Proof.
  intros Hcd Hn. unfold smoothSwitchCamera. rewrite Hcd.
  destruct (String.eqb_spec name FREE_CAMERA) as [|_]; [contradiction|].
  split; [reflexivity|]. split; [reflexivity|]. by left.
Qed.

(** C3: after [smoothSwitchCamera] to a camera of the table other than the
    free camera, any run of frames that contains a frame at least the
    transition's duration after the switch ends the transition with the
    camera exactly at the stored position and orientation of that camera,
    whatever the frames before it were (spec section 8, endpoint of a
    transition). *)
Theorem switch_frames_reach_target targets name cd now cs times :
  targets !! name = Some cd -> name <> FREE_CAMERA -> 0 < tr_duration (cs_transition cs) ->
  Exists (fun t => now + 1000 * tr_duration (cs_transition cs) <= t) times ->
  (tr_active (cs_transition (camera_frames times (smoothSwitchCamera targets name now cs)))
     = false) /\
  (cam_position (cs_camera (camera_frames times (smoothSwitchCamera targets name now cs)))
     ≡ cd_position cd) /\
  (cam_quaternion (cs_camera (camera_frames times (smoothSwitchCamera targets name now cs)))
     = cd_quaternion cd).
Proof.
  intros Hcd Hn Hd Hex.
  set (T := switch_transition cs now cd).
  pose proof (smoothSwitchCamera_heading targets name cd now cs Hcd Hn) as H0.
  pose proof (camera_frames_reach T name times _ eq_refl Hd Hn H0 Hex) as He.
  destruct (camera_frames_heading T name times _ eq_refl Hd Hn H0) as (_ & _ & [Ht | (_ & Hp & Hq)]).
  - rewrite He in Ht. discriminate.
  - rewrite He. auto.
Qed.

(** C4: the frame at the instant of the switch leaves the camera where it
    was: a switch, also one made in the middle of another transition,
    starts from the camera's current pose (spec section 8, start of a
    transition; section 4.5, restart from the current pose). *)
Theorem switch_starts_at_current_pose targets name cd now cs :
  targets !! name = Some cd -> name <> FREE_CAMERA -> 0 < tr_duration (cs_transition cs) ->
  (cam_position (cs_camera (camera_frame now (smoothSwitchCamera targets name now cs)))
     ≡ cam_position (cs_camera cs)) /\
  (cam_quaternion (cs_camera (camera_frame now (smoothSwitchCamera targets name now cs)))
     = cam_quaternion (cs_camera cs)) /\
  (tr_active (cs_transition (camera_frame now (smoothSwitchCamera targets name now cs)))
     = true).
Proof.
  intros Hcd Hn Hd.
  assert (Hq : opt_str_eqb (Some name) (Some FREE_CAMERA) = false).
  { destruct (opt_str_eqb_spec (Some name) (Some FREE_CAMERA)); congruence. }
  assert (Hp : progress ((now - now) / 1000) (tr_duration (cs_transition cs)) == 0).
  { assert (E : (now - now) / 1000 == 0) by field.
    rewrite E, progress_partial; [| exact Hd | lra]. unfold Qdiv. ring. }
  unfold smoothSwitchCamera. rewrite Hcd.
  destruct (String.eqb_spec name FREE_CAMERA) as [|_]; [contradiction|].
  unfold camera_frame. cbn [tr_active cs_transition cs_active cs_controls ctl_enabled]. rewrite Hq.
  cbn. split; [|split].
  - apply vec_lerp_0, ease_0, Hp.
  - apply slerp_at_0, ease_0, Hp.
  - apply negb_true_iff. destruct (Qle_bool _ _) eqn:E; [|reflexivity].
    apply Qle_bool_iff in E. rewrite Hp in E. lra.
Qed.

Lemma camera_frame_controls time cs : cs_controls (camera_frame time cs) = cs_controls cs.
Proof.
  unfold camera_frame. destruct (tr_active (cs_transition cs)); simpl;
    destruct (ctl_enabled (cs_controls cs)); reflexivity.
Qed.

Lemma camera_frame_inactive time cs :
  tr_active (cs_transition cs) = false -> tr_active (cs_transition (camera_frame time cs)) = false.
Proof.
  intros Ha. unfold camera_frame. rewrite Ha. by destruct (ctl_enabled (cs_controls cs)).
Qed.

(** C5: in every state reachable by camera buttons and frames, while the
    orbit controls are on no transition runs: switching to the free camera
    cancels the transition, a switch to another camera turns the controls
    off, and frames never start a transition (spec section 8, the free
    camera never engages the transition machine). *)
Theorem cam_free_mode_no_transition targets cs :
  cam_reachable targets cs ->
  ctl_enabled (cs_controls cs) = true -> tr_active (cs_transition cs) = false.
Proof.
  induction 1 as [|[name now|time] cs _ IH]; intros Hen; [discriminate| |].
  - unfold cam_step, smoothSwitchCamera in *.
    destruct (targets !! name); [|exact (IH Hen)].
    destruct (String.eqb name FREE_CAMERA); [reflexivity|discriminate].
  - simpl in Hen |- *. rewrite camera_frame_controls in Hen.
    apply camera_frame_inactive, IH, Hen.
Qed.

(** [x] lies between [a] and [b]. *)
Definition between (a b x : Q) : Prop := (a <= x /\ x <= b) \/ (b <= x /\ x <= a).

Lemma lerp_between a b e : 0 <= e <= 1 -> between a b (a + (b - a) * e).
Proof.
  intros [H0 H1]. unfold between. destruct (Qlt_le_dec a b); [left|right]; split; nra.
Qed.

(** C6: a frame of a running transition that is not earlier than its
    start puts every coordinate of the camera between the corresponding
    coordinates of the transition's start and end positions. *)
Theorem camera_frame_position_between time cs :
  tr_active (cs_transition cs) = true -> 0 < tr_duration (cs_transition cs) ->
  tr_startTime (cs_transition cs) <= time -> ctl_enabled (cs_controls cs) = false ->
  let p := cam_position (cs_camera (camera_frame time cs)) in
  let T := cs_transition cs in
  between (vx (tr_fromPos T)) (vx (tr_toPos T)) (vx p) /\
  between (vy (tr_fromPos T)) (vy (tr_toPos T)) (vy p) /\
  between (vz (tr_fromPos T)) (vz (tr_toPos T)) (vz p).
Proof.
  intros Ha Hd Hs Hc. unfold camera_frame. rewrite Ha. cbn [cs_controls]. rewrite Hc.
  cbn [cs_camera cam_position vec_lerp vx vy vz].
  assert (He : 0 <= ease (progress ((time - tr_startTime (cs_transition cs)) / 1000)
                                  (tr_duration (cs_transition cs))) <= 1).
  { apply ease_range. split; [apply progress_nonneg; [apply Qle_shift_div_l|]; lra|].
    apply progress_le_1. }
  split; [|split]; apply lerp_between, He.
Qed.

(** C7: a camera button whose name is not a camera of the loaded model
    changes nothing but [activeCameraName]: the transition, the camera and
    the controls are untouched, and the name is recorded although no camera
    moved (spec section 7 asks for a no-op). *)
Theorem smoothSwitchCamera_unknown targets name now cs :
  targets !! name = None ->
  smoothSwitchCamera targets name now cs =
  mkCamSys (cs_transition cs) (cs_camera cs) (cs_controls cs) (Some name).
Proof. intros H. unfold smoothSwitchCamera. by rewrite H. Qed.

End CameraProofs.

(** ** Witnesses *)

Section CameraWitnesses.
#[local] Existing Instance witness_ops.

Lemma switch_frames_reach_target_witness :
  (tr_active (cs_transition (camera_frames [1016; 1500; 1800; 1816]
     (smoothSwitchCamera sample_cameras "Cam_Lenses" 1000 cam_init)))) = false /\
  (cam_position (cs_camera (camera_frames [1016; 1500; 1800; 1816]
     (smoothSwitchCamera sample_cameras "Cam_Lenses" 1000 cam_init)))
     ≡ mkVec3 0 (1#10) (6#10)) /\
  (cam_quaternion (cs_camera (camera_frames [1016; 1500; 1800; 1816]
     (smoothSwitchCamera sample_cameras "Cam_Lenses" 1000 cam_init)))
     = mkQuat 0 (1#2) 0 (1#2)).
Proof.
  apply (switch_frames_reach_target sample_cameras "Cam_Lenses"
           (mkCamData (mkVec3 0 (1#10) (6#10)) (mkQuat 0 (1#2) 0 (1#2)) vec_zero 30)).
  - reflexivity.
  - discriminate.
  - reflexivity.
  - apply Exists_cons_tl, Exists_cons_tl, Exists_cons_hd. apply Qle_bool_iff. reflexivity.
Defined.

Lemma switch_starts_at_current_pose_witness :
  (cam_position (cs_camera (camera_frame 1000
     (smoothSwitchCamera sample_cameras "Cam_Lenses" 1000 cam_init))) ≡ vec_zero) /\
  (cam_quaternion (cs_camera (camera_frame 1000
     (smoothSwitchCamera sample_cameras "Cam_Lenses" 1000 cam_init))) = quat_identity) /\
  (tr_active (cs_transition (camera_frame 1000
     (smoothSwitchCamera sample_cameras "Cam_Lenses" 1000 cam_init))) = true).
Proof.
  apply (switch_starts_at_current_pose sample_cameras "Cam_Lenses"
           (mkCamData (mkVec3 0 (1#10) (6#10)) (mkQuat 0 (1#2) 0 (1#2)) vec_zero 30)).
  - reflexivity.
  - discriminate.
  - reflexivity.
Defined.

Lemma cam_free_mode_no_transition_witness :
  tr_active (cs_transition (cam_step sample_cameras (Frame 2000)
    (cam_step sample_cameras (SwitchCamera FREE_CAMERA 1500)
      (cam_step sample_cameras (SwitchCamera "Cam_Front" 1000) cam_init)))) = false.
Proof.
  apply (cam_free_mode_no_transition sample_cameras).
  - repeat apply cam_reach_step. apply cam_reach_init.
  - reflexivity.
Defined.

Lemma camera_frame_position_between_witness :
  let cs := smoothSwitchCamera sample_cameras "Cam_Lenses" 1000 cam_init in
  let p := cam_position (cs_camera (camera_frame 1400 cs)) in
  between 0 0 (vx p) /\ between 0 (1#10) (vy p) /\ between 0 (6#10) (vz p).
Proof.
  apply (camera_frame_position_between 1400
           (smoothSwitchCamera sample_cameras "Cam_Lenses" 1000 cam_init));
    [reflexivity | reflexivity | apply Qle_bool_iff; reflexivity | reflexivity].
Defined.

Lemma smoothSwitchCamera_unknown_witness :
  smoothSwitchCamera sample_cameras "Cam_Power" 500 cam_init =
  mkCamSys (cs_transition cam_init) (cs_camera cam_init) (cs_controls cam_init)
           (Some "Cam_Power").
Proof. apply smoothSwitchCamera_unknown. reflexivity. Defined.

End CameraWitnesses.
