(* ===== verification/Scene.v ===== *)
(** * The loaded model: node tree, traversal and mesh roles

    The loader delivers a tree of named nodes ([Node]); [traverse] is
    three.js's [Object3D.traverse] order (the node, then each child's
    subtree).  Loading instantiates the tree: every mesh's material becomes
    an object of the material store ([instantiate]), so that a model
    instance is the list of its objects in traversal order, a mesh holding
    the address of its current material.  The role tests are the string
    conditions of [loadModel] and [applyConfig]; [assign_material] is the
    [obj.material = ...] the two traversals of [applyConfig] perform. *)

From S2P Require Import Prelude Materials Camera.

(** What a node of the loaded glTF scene is. *)
Inductive NodeKind :=
  | NCamera (pos : Vec3) (quat : Quat) (fov : Q)   (* world pose, getEffectiveFOV() *)
  | NMesh (mat : Material)                         (* the material the loader built *)
  | NGroup.

Inductive Node := mkNode (name : string) (kind : NodeKind) (children : list Node).

(** What the loader hands to the callback: the scene and the centre of its
    bounding box ([Box3.setFromObject(...).getCenter], main.js:165-167). *)
Record Asset := mkAsset { asset_root : Node; asset_center : Vec3 }.

(** [Object3D.traverse]: pre-order. *)
Fixpoint traverse (n : Node) : list (string * NodeKind) :=
  match n with
  | mkNode nm k ch => (nm, k) :: flat_map traverse ch
  end.

(** An object of a model instance, with the material slot of a mesh. *)
Inductive SKind :=
  | SCamera (pos : Vec3) (quat : Quat) (fov : Q)
  | SMesh (mat : nat)
  | SOther.

Record SObj := mkSObj { so_name : string; so_kind : SKind }.

(** Instantiation: each mesh's material is allocated in the store. *)
Fixpoint instantiate (objs : list (string * NodeKind)) (mats : Store) (next : nat)
  : list SObj * Store * nat :=
  match objs with
  | [] => ([], mats, next)
  | (nm, k) :: rest =>
      match k with
      | NCamera p q f =>
          let '(os, mats', next') := instantiate rest mats next in
          (mkSObj nm (SCamera p q f) :: os, mats', next')
      | NMesh m =>
          let '(mats1, next1) := store_alloc mats next m in
          let '(os, mats', next') := instantiate rest mats1 next1 in
          (mkSObj nm (SMesh next) :: os, mats', next')
      | NGroup =>
          let '(os, mats', next') := instantiate rest mats next in
          (mkSObj nm SOther :: os, mats', next')
      end
  end.

(** ** Roles *)

(** [obj.material?.name?.toLowerCase().includes('glass')] (main.js:203). *)
Definition is_glass_material (m : Material) : bool :=
  js_includes (js_toLowerCase (m_name m)) "glass".

(** [obj.material?.name?.toLowerCase() === 'fake'] (main.js:409). *)
Definition is_fake_material (m : Material) : bool :=
  String.eqb (js_toLowerCase (m_name m)) "fake".

(** [obj.name.includes('Arm_Text')] (main.js:380). *)
Definition is_arm_text_name (n : string) : bool := js_includes n "Arm_Text".

(** [obj.name.includes('Frame') || (obj.name.includes('Arm') &&
     !obj.name.includes('Text'))] (main.js:385-391). *)
Definition is_frame_name (n : string) : bool :=
  js_includes n "Frame" || (js_includes n "Arm" && negb (js_includes n "Text")).

(** The roles of spec section 3, as the first traversal of [applyConfig]
    decides them from the name. *)
Inductive NameRole := RoleArmText | RoleFrame | RoleNone.

Definition name_role (n : string) : NameRole :=
  if is_arm_text_name n then RoleArmText
  else if is_frame_name n then RoleFrame
  else RoleNone.

(** ** Material slots *)

(** The first traversal of [applyConfig] (main.js:376-397): an [Arm_Text]
    mesh gets the arm-text material, a frame or arm mesh the frame
    material, any other mesh keeps its own. *)
Definition role_obj (armText frameMat : nat) (o : SObj) : SObj :=
  match so_kind o with
  | SMesh _ =>
      match name_role (so_name o) with
      | RoleArmText => mkSObj (so_name o) (SMesh armText)
      | RoleFrame => mkSObj (so_name o) (SMesh frameMat)
      | RoleNone => o
      end
  | _ => o
  end.

Definition assign_roles (armText frameMat : nat) (objs : list SObj) : list SObj :=
  map (role_obj armText frameMat) objs.

(** The material addresses of the meshes, in traversal order. *)
Definition mesh_materials (objs : list SObj) : list nat :=
  flat_map (fun o => match so_kind o with SMesh m => [m] | _ => [] end) objs.

(** ** What a load records

    The loader's traversal (main.js:171-240) records each camera under its
    name, with the model centre as target, and builds one glass material
    per mesh whose material is named like glass.  [camera_table] and
    [glass_count] say what that gives for a node tree; [obj_cam] and
    [obj_is_glass] are the same tests on the instantiated objects. *)

Definition node_cam (center : Vec3) (t : gmap string CamData) (nk : string * NodeKind)
  : gmap string CamData :=
  match nk.2 with NCamera p q f => <[nk.1 := mkCamData p q center f]> t | _ => t end.

Definition camera_table (a : Asset) : gmap string CamData :=
  foldl (node_cam (asset_center a)) ∅ (traverse (asset_root a)).

Definition node_is_glass (nk : string * NodeKind) : bool :=
  match nk.2 with NMesh m => is_glass_material m | _ => false end.

Definition glass_count (a : Asset) : nat :=
  List.length (List.filter node_is_glass (traverse (asset_root a))).

Definition obj_cam (center : Vec3) (t : gmap string CamData) (o : SObj) : gmap string CamData :=
  match so_kind o with SCamera p q f => <[so_name o := mkCamData p q center f]> t | _ => t end.

Definition obj_is_glass (st : Store) (o : SObj) : bool :=
  match so_kind o with SMesh id => default false (is_glass_material <$> st !! id) | _ => false end.

(** ** An illustrative asset

    The model file ./models/Standard_Wayfarer.glb is not part of the
    repository.  The witnesses use this tree: the seven cameras of the
    camera buttons, a frame, two arms, two temple texts, two lenses whose
    materials are named like glass, and an interior with the [Fake]
    material. *)

(** A material as GLTFLoader builds it: standard, with the file's name. *)
Definition gltf_material (name : string) : Material :=
  {| m_kind := MeshStandardMaterial; m_name := name; m_color := white;
     m_roughness := 1; m_metalness := 1; m_transparent := false; m_opacity := 1;
     m_depthWrite := true; m_envMapIntensity := 1; m_clearcoat := 0;
     m_clearcoatRoughness := 0; m_ior := 1.5; m_transmission := 0; m_map := None;
     m_alphaMap := None; m_emissiveMap := None; m_emissive := ⟪0, 0, 0⟫;
     m_emissiveIntensity := 1; m_onBeforeCompile := None |}.

Definition leaf (name : string) (k : NodeKind) : Node := mkNode name k [].

Definition sample_asset : Asset :=
  mkAsset
    (mkNode "Scene" NGroup
       [leaf "Cam_Front" (NCamera (mkVec3 0 0 1) (mkQuat 0 0 0 1) 35);
        leaf "Cam_Side" (NCamera (mkVec3 1 0 0) (mkQuat 0 (1#2) 0 (1#2)) 35);
        leaf "Cam_Lenses" (NCamera (mkVec3 0 (1#10) (6#10)) (mkQuat 0 0 0 1) 30);
        leaf "Cam_Free" (NCamera (mkVec3 1 1 1) (mkQuat 0 0 0 1) 50);
        mkNode "Wayfarer" NGroup
          [leaf "Frame" (NMesh (gltf_material "Frame_Mat"));
           leaf "Arm_L" (NMesh (gltf_material "Frame_Mat"));
           leaf "Arm_R" (NMesh (gltf_material "Frame_Mat"));
           leaf "Arm_Text_L" (NMesh (gltf_material "Temples"));
           leaf "Arm_Text_R" (NMesh (gltf_material "Temples"));
           leaf "Lens_L" (NMesh (gltf_material "Glass"));
           leaf "Lens_R" (NMesh (gltf_material "Glass"));
           leaf "Interior" (NMesh (gltf_material "Fake"))]])
    (mkVec3 0 0 0).

(** ** Instantiation *)

(** What [instantiate] gives: addresses only grow, the store below the
    first address is untouched, each mesh's slot is one of the new
    addresses, and the objects carry the cameras and the glass meshes of
    the node list. *)
Lemma instantiate_spec l : forall mats n objs st n',
  instantiate l mats n = (objs, st, n') ->
  (n <= n')%nat /\ (forall id, (id < n)%nat -> st !! id = mats !! id) /\
  (forall o id, o ∈ objs -> so_kind o = SMesh id -> (n <= id < n')%nat) /\
  (forall center t, foldl (obj_cam center) t objs = foldl (node_cam center) t l) /\
  List.length (List.filter (obj_is_glass st) objs) = List.length (List.filter node_is_glass l).
Proof.
  induction l as [|[nm k] rest IH]; intros mats n objs st n' E.
  - injection E as <- <- <-. refine (conj _ (conj _ (conj _ (conj _ _)))); auto.
    intros o id Hin. by apply elem_of_nil in Hin.
  - cbn [instantiate] in E. destruct k as [p q f|m|].
    + destruct (instantiate rest mats n) as [[os st0] n0] eqn:E0. injection E as <- <- <-.
      destruct (IH _ _ _ _ _ E0) as (H1 & H2 & H3 & H4 & H5).
      refine (conj H1 (conj H2 (conj _ (conj _ H5)))); [|intros; apply H4].
      intros o id Hin Hk. apply elem_of_cons in Hin as [->|Hin]; [discriminate|eauto].
    + unfold store_alloc in E.
      destruct (instantiate rest (<[n:=m]> mats) (S n)) as [[os st0] n0] eqn:E0.
      injection E as <- <- <-. destruct (IH _ _ _ _ _ E0) as (H1 & H2 & H3 & H4 & H5).
      refine (conj _ (conj _ (conj _ (conj _ _)))); [lia| | |intros; apply H4|].
      * intros id Hid. rewrite H2 by lia. apply lookup_insert_ne. lia.
      * intros o id Hin Hk. apply elem_of_cons in Hin as [->|Hin].
        -- injection Hk as <-. lia.
        -- specialize (H3 o id Hin Hk). lia.
      * cbn [List.filter]. unfold obj_is_glass at 1. cbn [so_kind node_is_glass snd].
        rewrite H2 by lia. rewrite lookup_insert_eq. simpl.
        destruct (is_glass_material m); simpl; congruence.
    + destruct (instantiate rest mats n) as [[os st0] n0] eqn:E0. injection E as <- <- <-.
      destruct (IH _ _ _ _ _ E0) as (H1 & H2 & H3 & H4 & H5).
      refine (conj H1 (conj H2 (conj _ (conj _ H5)))); [|intros; apply H4].
      intros o id Hin Hk. apply elem_of_cons in Hin as [->|Hin]; [discriminate|eauto].
Qed.
