(* ===== verification/Session.v ===== *)
(** * The page: globals, loading, applying a skin, frames and events

    [Session] holds the module-level variables of main.js that the other
    components do not own: the current skin and model, the models added
    to the scene, the material store, [logoTexture], the glass gating
    flags, [armsTextMeshes], [cameraTargets] and the loads in flight.
    Operations run in [M], a state monad with JavaScript exceptions: a
    [throw] keeps every mutation made before it, as an exception escaping
    an event handler does.

    [loadModel] is split at its asynchronous boundary: [loadModel_request]
    is the synchronous part (main.js:128-159) and leaves the request in
    [pending]; [load_callback] is the loader's callback (main.js:159-246).
    [applyConfig] (main.js:253-478) and [animate_frame] (main.js:716-856)
    follow the code.  [step] runs one event of the page: a skin button, a
    camera button, a display frame, a call of [loadModel], or the
    completion or failure of a pending load. *)

From S2P Require Import Prelude Configs Materials GlassAnim Camera Scene.

Inductive JsError := TypeError (msg : string).

Record Session := mkSession {
  currentConfig : ModelConfig;
  currentModel : option nat;
  models : gmap nat (list SObj);
  sceneChildren : list nat;
  disposedMaterials : list nat;
  mats : Store;
  next_mat : nat;
  next_model : nat;
  logoTexture : option Texture;
  glassAnimationEnabled : bool;
  glassAnimateCamera : option string;
  glassSys : GlassSys;
  armsTextMeshes : list (nat * nat);
  cameraTargets : gmap string CamData;
  cam : CamSys;
  pending : list ModelConfig
}.

(** ** The monad *)

Definition M (A : Type) : Type := Session -> (A + JsError) * Session.

Definition ret {A} (x : A) : M A := fun s => (inl x, s).
Definition bind {A B} (m : M A) (k : A -> M B) : M B :=
  fun s => match m s with
           | (inl x, s') => k x s'
           | (inr e, s') => (inr e, s')
           end.
Definition throw {A} (e : JsError) : M A := fun s => (inr e, s).
Definition gets {A} (f : Session -> A) : M A := fun s => (inl (f s), s).
Definition modify (f : Session -> Session) : M unit := fun s => (inl tt, f s).

#[export] Instance M_ret : MRet M := @ret.
#[export] Instance M_bind : MBind M := fun A B k m => bind m k.

(** The state after running [m], whether it returned or threw. *)
Definition exec (m : M unit) (s : Session) : Session := (m s).2.

(** ** Field updates *)

Definition set_glass (g : GlassSys) (s : Session) : Session :=
  mkSession (currentConfig s) (currentModel s) (models s) (sceneChildren s)
    (disposedMaterials s) (mats s) (next_mat s) (next_model s) (logoTexture s)
    (glassAnimationEnabled s) (glassAnimateCamera s) g (armsTextMeshes s)
    (cameraTargets s) (cam s) (pending s).

Definition set_mats (st : Store) (next : nat) (s : Session) : Session :=
  mkSession (currentConfig s) (currentModel s) (models s) (sceneChildren s)
    (disposedMaterials s) st next (next_model s) (logoTexture s)
    (glassAnimationEnabled s) (glassAnimateCamera s) (glassSys s) (armsTextMeshes s)
    (cameraTargets s) (cam s) (pending s).

Definition set_cam (c : CamSys) (s : Session) : Session :=
  mkSession (currentConfig s) (currentModel s) (models s) (sceneChildren s)
    (disposedMaterials s) (mats s) (next_mat s) (next_model s) (logoTexture s)
    (glassAnimationEnabled s) (glassAnimateCamera s) (glassSys s) (armsTextMeshes s)
    (cameraTargets s) c (pending s).

Definition set_gating (enabled : bool) (gate : option string) (logo : option Texture)
    (s : Session) : Session :=
  mkSession (currentConfig s) (currentModel s) (models s) (sceneChildren s)
    (disposedMaterials s) (mats s) (next_mat s) (next_model s) logo enabled gate
    (glassSys s) (armsTextMeshes s) (cameraTargets s) (cam s) (pending s).

Definition set_config (c : ModelConfig) (s : Session) : Session :=
  mkSession c (currentModel s) (models s) (sceneChildren s)
    (disposedMaterials s) (mats s) (next_mat s) (next_model s) (logoTexture s)
    (glassAnimationEnabled s) (glassAnimateCamera s) (glassSys s) (armsTextMeshes s)
    (cameraTargets s) (cam s) (pending s).

Definition set_model_objs (id : nat) (objs : list SObj) (s : Session) : Session :=
  mkSession (currentConfig s) (currentModel s) (<[id := objs]> (models s)) (sceneChildren s)
    (disposedMaterials s) (mats s) (next_mat s) (next_model s) (logoTexture s)
    (glassAnimationEnabled s) (glassAnimateCamera s) (glassSys s) (armsTextMeshes s)
    (cameraTargets s) (cam s) (pending s).

Definition set_pending (p : list ModelConfig) (s : Session) : Session :=
  mkSession (currentConfig s) (currentModel s) (models s) (sceneChildren s)
    (disposedMaterials s) (mats s) (next_mat s) (next_model s) (logoTexture s)
    (glassAnimationEnabled s) (glassAnimateCamera s) (glassSys s) (armsTextMeshes s)
    (cameraTargets s) (cam s) p.

(** [new ...Material(...)] in the session's store: the new address. *)
Definition alloc_material (m : Material) : M nat :=
  fun s => (inl (next_mat s), set_mats (<[next_mat s := m]> (mats s)) (S (next_mat s)) s).

(** The glass gating flags and the logo texture, set alike by [loadModel]
    (main.js:130-134) and [applyConfig] (main.js:367-373). *)
Definition set_flags_from (c : ModelConfig) : M unit :=
  modify (set_gating (js_true (animate (glass c))) (js_or_null (animateCamera (glass c)))
                     (Some (logo_texture_of c))).

Definition set_scene (children disposed : list nat) (s : Session) : Session :=
  mkSession (currentConfig s) (currentModel s) (models s) children disposed (mats s)
    (next_mat s) (next_model s) (logoTexture s) (glassAnimationEnabled s)
    (glassAnimateCamera s) (glassSys s) (armsTextMeshes s) (cameraTargets s) (cam s)
    (pending s).

(** ** loadModel, synchronous part (main.js:128-159) *)

(** [scene.remove(currentModel)] and the dispose traversal (main.js:137-149);
    [currentModel] keeps pointing at the removed model. *)
Definition dispose_current : M unit :=
  modify (fun s =>
    match currentModel s with
    | Some id =>
        set_scene (filter (fun x => negb (x =? id)%nat) (sceneChildren s))
                  (disposedMaterials s ++ mesh_materials (default [] (models s !! id))) s
    | None => s
    end).

(** The state reset (main.js:152-157).  [originalGlassOpacities] and
    [wasAnimatingGlass] are not reset. *)
Definition reset_for_load (s : Session) : Session :=
  let g := glassSys s in
  mkSession (currentConfig s) (currentModel s) (models s) (sceneChildren s)
    (disposedMaterials s) (mats s) (next_mat s) (next_model s) (logoTexture s)
    (glassAnimationEnabled s) (glassAnimateCamera s)
    (mkGlassSys glassAnim_init [] [] (gs_origOpacities g) (gs_was g) (gs_clock g))
    [] ∅ (cam s) (pending s).

Definition loadModel_request (c : ModelConfig) : M unit :=
  set_flags_from c;;
  dispose_current;;
  modify reset_for_load;;
  modify (fun s => set_pending (pending s ++ [c]) s).

(** ** The loader's callback (main.js:159-246) *)

(** [currentModel = gltf.scene; scene.add(currentModel)]: the model is
    instantiated into the store and becomes the current one. *)
Definition add_model (a : Asset) : M nat :=
  fun s =>
    let '(objs, st, next) := instantiate (traverse (asset_root a)) (mats s) (next_mat s) in
    let id := next_model s in
    (inl id,
     mkSession (currentConfig s) (Some id) (<[id := objs]> (models s))
       (filter (fun x => negb (x =? id)%nat) (sceneChildren s) ++ [id])
       (disposedMaterials s) st next (S id) (logoTexture s) (glassAnimationEnabled s)
       (glassAnimateCamera s) (glassSys s) (armsTextMeshes s) (cameraTargets s) (cam s)
       (pending s)).

Definition add_camera_target (name : string) (cd : CamData) (s : Session) : Session :=
  mkSession (currentConfig s) (currentModel s) (models s) (sceneChildren s)
    (disposedMaterials s) (mats s) (next_mat s) (next_model s) (logoTexture s)
    (glassAnimationEnabled s) (glassAnimateCamera s) (glassSys s) (armsTextMeshes s)
    (<[name := cd]> (cameraTargets s)) (cam s) (pending s).

(** [glassMaterials.push(mat); originalGlassColors.push(...);
     originalGlassOpacities.push(...)] (main.js:236-238). *)
Definition push_glass (id : nat) (oc : Color) (oo : Q) (s : Session) : Session :=
  let g := glassSys s in
  set_glass (mkGlassSys (gs_anim g) (gs_materials g ++ [id]) (gs_origColors g ++ [oc])
                        (gs_origOpacities g ++ [oo]) (gs_was g) (gs_clock g)) s.

(** The body of the loader's traversal for one object (main.js:171-240). *)
Definition load_obj (c : ModelConfig) (center : Vec3) (o : SObj) : M SObj :=
  match so_kind o with
  | SCamera p q f =>
      modify (add_camera_target (so_name o) (mkCamData p q center f));; mret o
  | SMesh cur =>
      m ← gets (fun s => mats s !! cur);
      if default false (is_glass_material <$> m) then
        logo ← gets logoTexture;
        gid ← alloc_material (build_glass_material c logo);
        modify (push_glass gid (glass_color (glass c)) (glass_opacity (glass c)));;
        mret (mkSObj (so_name o) (SMesh gid))
      else mret o
  | SOther => mret o
  end.

Fixpoint load_pass (c : ModelConfig) (center : Vec3) (objs : list SObj) : M (list SObj) :=
  match objs with
  | [] => mret []
  | o :: rest => o' ← load_obj c center o; rest' ← load_pass c center rest; mret (o' :: rest')
  end.

(** ** applyConfig (main.js:253-478) *)

(** The fake-interior traversal (main.js:407-423): each mesh whose
    material is named [fake] gets a fresh fake material. *)
Fixpoint fake_objs (path : string) (objs : list SObj) : M (list SObj) :=
  match objs with
  | [] => mret []
  | o :: rest =>
      o' ← match so_kind o with
           | SMesh cur =>
               m ← gets (fun s => mats s !! cur);
               if default false (is_fake_material <$> m) then
                 nid ← alloc_material (build_fake_material path);
                 mret (mkSObj (so_name o) (SMesh nid))
               else mret o
           | _ => mret o
           end;
      rest' ← fake_objs path rest;
      mret (o' :: rest')
  end.

(** [if (config.fake?.texture)] (main.js:401). *)
Definition fake_texture_of (c : ModelConfig) : option string :=
  match fake c with Some f => js_or_null (fake_texture f) | None => None end.

Definition fake_pass (c : ModelConfig) (id : nat) : M unit :=
  match fake_texture_of c with
  | Some path =>
      objs ← gets (fun s => default [] (models s !! id));
      objs' ← fake_objs path objs;
      modify (set_model_objs id objs')
  | None => mret tt
  end.

(** [armsTextMeshes.forEach(mesh => ...)] (main.js:430-460), on the
    current material of each recorded mesh (model, index). *)
Definition arms_text_pass (c : ModelConfig) : M unit :=
  modify (fun s =>
    set_mats
      (foldl (fun st '(mid, i) =>
                match models s !! mid with
                | Some objs =>
                    match objs !! i with
                    | Some (mkSObj _ (SMesh cur)) => store_update (update_armText_mesh_material c) cur st
                    | _ => st
                    end
                | None => st
                end) (mats s) (armsTextMeshes s))
      (next_mat s) s).

(** [glassMaterials.forEach(mat => ...)] (main.js:465-476). *)
Definition glass_update_pass (c : ModelConfig) : M unit :=
  modify (fun s =>
    set_mats (foldl (fun st gid => store_update (update_glass c (logo_texture_of c)) gid st)
                    (mats s) (gs_materials (glassSys s)))
             (next_mat s) s).

Definition applyConfig (c : ModelConfig) : M unit :=
  aid ← alloc_material (build_armText_material c);
  fid ← alloc_material (build_frame_material c);
  set_flags_from c;;
  cur ← gets currentModel;
  match cur with
  | None => throw (TypeError "Cannot read properties of null (reading 'traverse')")
  | Some id =>
      objs ← gets (fun s => default [] (models s !! id));
      modify (set_model_objs id (assign_roles aid fid objs));;
      fake_pass c id;;
      arms_text_pass c;;
      glass_update_pass c
  end.

Section Page.
Context {ops : ThreeOps}.

Definition load_callback (c : ModelConfig) (a : Asset) (now : Q) : M unit :=
  id ← add_model a;
  objs ← gets (fun s => default [] (models s !! id));
  objs' ← load_pass c (asset_center a) objs;
  modify (set_model_objs id objs');;
  modify (fun s => set_cam (smoothSwitchCamera (cameraTargets s) (startCamera c) now (cam s)) s);;
  applyConfig c.

(** ** animate (main.js:716-856) *)

Definition animate_frame (time now : Q) : M unit :=
  modify (fun s => set_cam (camera_frame time (cam s)) s);;
  modify (fun s =>
    let '(g, st) := glass_frame (glassAnimationEnabled s) (cs_active (cam s))
                      (glassAnimateCamera s) now (glassSys s) (mats s) in
    set_mats st (next_mat s) (set_glass g s)).

(** ** Events *)

Inductive Event :=
  | ClickSkin (c : ModelConfig)                  (* model button, main.js:78-81 *)
  | ClickCamera (name : string) (now : Q)        (* camera button, main.js:895 *)
  | AnimFrame (time now : Q)                     (* requestAnimationFrame *)
  | CallLoadModel (c : ModelConfig)              (* loadModel(config) *)
  | LoadDone (k : nat) (a : Asset) (now : Q)     (* the k-th pending load calls back *)
  | LoadFailed (k : nat).                        (* the k-th pending load fails *)

Definition step (ev : Event) : M unit :=
  match ev with
  | ClickSkin c => modify (set_config c);; applyConfig c
  | ClickCamera name now =>
      modify (fun s => set_cam (smoothSwitchCamera (cameraTargets s) name now (cam s)) s)
  | AnimFrame time now => animate_frame time now
  | CallLoadModel c => loadModel_request c
  | LoadDone k a now =>
      p ← gets pending;
      match p !! k with
      | Some c => modify (set_pending (delete k p));; load_callback c a now
      | None => mret tt
      end
  | LoadFailed k => p ← gets pending; modify (set_pending (delete k p))
  end.

(** A run of events; an exception ends its handler, not the page. *)
Definition run (evs : list Event) (s : Session) : Session :=
  foldl (fun s ev => exec (step ev) s) s evs.

(** A run in which [loadModel] is only called when no load is in flight:
    the serialization that spec section 5 asks for and the page does not
    enforce. *)
Definition serial_ok (ev : Event) (s : Session) : bool :=
  match ev with
  | CallLoadModel _ => match pending s with [] => true | _ => false end
  | _ => true
  end.

Fixpoint serial (evs : list Event) (s : Session) : bool :=
  match evs with
  | [] => true
  | ev :: rest => serial_ok ev s && serial rest (exec (step ev) s)
  end.

(** A [loadModel] call whose load completes before anything else happens. *)
Definition load_once (c : ModelConfig) (a : Asset) (now : Q) (s : Session) : Session :=
  run [CallLoadModel c; LoadDone 0 a now] s.

End Page.

(** The module-level state before the first statement runs. *)
Definition session_init : Session :=
  mkSession Skins.initial_config None ∅ [] [] ∅ 0 0 None true None
    (mkGlassSys glassAnim_init [] [] [] false clock_init) [] ∅ cam_init [].

(** [loadModel(currentConfig)] at the end of main.js (line 900); the
    [animate()] that follows runs before any load completes. *)
Definition page_start : Session := exec (loadModel_request Skins.initial_config) session_init.

(** ** The session invariant *)

(** Every address in use is below the next one to be allocated. *)
Definition store_fresh (s : Session) : Prop :=
  forall id, is_Some (mats s !! id) -> (id < next_mat s)%nat.

(** The glass lists: distinct materials, all in the store, one rest colour
    per material and at least one rest opacity per material. *)
Definition glass_wf (s : Session) : Prop :=
  NoDup (gs_materials (glassSys s)) /\
  Forall (fun id => is_Some (mats s !! id)) (gs_materials (glassSys s)) /\
  length (gs_origColors (glassSys s)) = length (gs_materials (glassSys s)) /\
  (length (gs_materials (glassSys s)) <= length (gs_origOpacities (glassSys s)))%nat.

Definition session_wf (s : Session) : Prop := store_fresh s /\ glass_wf s.

(** [m] keeps [P], whether it returns or throws. *)
Definition preserves {A} (P : Session -> Prop) (m : M A) : Prop :=
  forall s, P s -> P (m s).2.

Create HintDb page discriminated.

Lemma preserves_ret {A} P (x : A) : preserves P (mret x).
Proof. intros s Hs. exact Hs. Qed.

Lemma preserves_bind {A B} P (m : M A) (k : A -> M B) :
  preserves P m -> (forall x, preserves P (k x)) -> preserves P (x ← m; k x).
Proof.
  intros Hm Hk s Hs. unfold mbind, M_bind, bind. specialize (Hm s Hs).
  destruct (m s) as [[x|e] s']; simpl in *; [apply Hk|]; exact Hm.
Qed.

Lemma preserves_gets {A} P (f : Session -> A) : preserves P (gets f).
Proof. intros s Hs. exact Hs. Qed.

Lemma preserves_throw {A} P e : preserves P (throw (A:=A) e).
Proof. intros s Hs. exact Hs. Qed.

Lemma preserves_modify P f : (forall s, P s -> P (f s)) -> preserves P (modify f).
Proof. intros H s Hs. exact (H s Hs). Qed.

(** An update that leaves the store and the glass lists alone keeps the invariant. *)
Lemma wf_frame f :
  (forall s, mats (f s) = mats s /\ next_mat (f s) = next_mat s /\ glassSys (f s) = glassSys s) ->
  forall s, session_wf s -> session_wf (f s).
Proof.
  intros H s (Hf & Hg). destruct (H s) as (Hm & Hn & Hgl).
  unfold session_wf, store_fresh, glass_wf in *. rewrite Hm, Hn, Hgl. auto.
Qed.

(** A store update that keeps the addresses keeps the invariant. *)
Lemma wf_same_dom st s :
  same_dom (mats s) st -> session_wf s -> session_wf (set_mats st (next_mat s) s).
Proof.
  intros Hd (Hf & Hnd & Hall & Hl). unfold session_wf, store_fresh, glass_wf; simpl.
  split; [intros id Hid; apply Hf, Hd, Hid|]. split; [exact Hnd|]. split; [|exact Hl].
  eapply Forall_impl; [exact Hall|]. intros id Hid. by apply Hd.
Qed.

Lemma alloc_material_wf m : preserves session_wf (alloc_material m).
Proof.
  intros s (Hf & Hnd & Hall & Hl). unfold alloc_material; simpl.
  unfold session_wf, store_fresh, glass_wf; simpl. split.
  - intros id Hid. destruct (decide (id = next_mat s)) as [->|Hne]; [lia|].
    rewrite lookup_insert_ne in Hid by congruence. specialize (Hf id Hid). lia.
  - split; [exact Hnd|]. split; [|exact Hl].
    eapply Forall_impl; [exact Hall|]. intros id Hid.
    destruct (decide (id = next_mat s)) as [->|Hne]; [by rewrite lookup_insert_eq|].
    by rewrite lookup_insert_ne by congruence.
Qed.

#[export] Hint Resolve preserves_ret preserves_gets preserves_throw alloc_material_wf : page.

(** Allocating a glass material and recording it keeps the invariant: the
    new address is fresh, so the list stays without duplicates. *)
Lemma alloc_push_wf {B} m oc oo (k : nat -> M B) :
  (forall gid, preserves session_wf (k gid)) ->
  preserves session_wf (gid ← alloc_material m; modify (push_glass gid oc oo);; k gid).
Proof.
  intros Hk s Hs. unfold mbind, M_bind, bind, alloc_material, modify. simpl. apply Hk.
  destruct Hs as (Hf & Hnd & Hall & Hl).
  assert (Hfresh : next_mat s ∉ gs_materials (glassSys s)).
  { intros Hin. rewrite Forall_forall in Hall. specialize (Hf _ (Hall _ Hin)). lia. }
  unfold session_wf, store_fresh, glass_wf, push_glass, set_glass; simpl.
  rewrite !length_app. simpl. split; [|split; [|split]].
  - intros id Hid. destruct (decide (id = next_mat s)) as [->|Hne]; [lia|].
    rewrite lookup_insert_ne in Hid by congruence. specialize (Hf id Hid). lia.
  - apply NoDup_app. split; [exact Hnd|]. split; [|apply NoDup_singleton].
    intros x Hx Hx'. apply list_elem_of_singleton in Hx'. subst. contradiction.
  - apply Forall_app. split; [|apply Forall_singleton; by rewrite lookup_insert_eq].
    eapply Forall_impl; [exact Hall|]. intros id Hid.
    destruct (decide (id = next_mat s)) as [->|Hne]; [by rewrite lookup_insert_eq|].
    by rewrite lookup_insert_ne by congruence.
  - lia.
Qed.

Lemma foldl_same_dom {X} (g : Store -> X -> Store) :
  (forall st x, same_dom st (g st x)) -> forall xs st, same_dom st (foldl g st xs).
Proof.
  intros Hg xs. induction xs as [|x xs IH]; intros st; simpl; [reflexivity|].
  etransitivity; [apply Hg | apply IH].
Qed.

(** Instantiation only adds fresh addresses. *)
Lemma instantiate_grows objs st next :
  (forall id, is_Some (st !! id) -> (id < next)%nat) ->
  (forall id, is_Some (st !! id) -> (instantiate objs st next).1.2 !! id = st !! id) /\
  (forall id, is_Some ((instantiate objs st next).1.2 !! id) ->
              (id < (instantiate objs st next).2)%nat).
Proof.
  revert st next. induction objs as [|[nm k] rest IH]; intros st next Hf; [simpl; auto|].
  destruct k as [p q f|m|]; simpl.
  - specialize (IH st next Hf). destruct (instantiate rest st next) as [[os st'] n']. exact IH.
  - destruct (IH (<[next := m]> st) (S next)) as [IH1 IH2].
    { intros id Hid. destruct (decide (id = next)) as [->|Hne]; [lia|].
      rewrite lookup_insert_ne in Hid by congruence. specialize (Hf id Hid). lia. }
    destruct (instantiate rest (<[next := m]> st) (S next)) as [[os st'] n']. simpl in *.
    split; [|exact IH2]. intros id Hid. rewrite IH1.
    + apply lookup_insert_ne. intros ->. specialize (Hf _ Hid). lia.
    + destruct (decide (id = next)) as [->|Hne]; [by rewrite lookup_insert_eq|].
      by rewrite lookup_insert_ne by congruence.
  - specialize (IH st next Hf). destruct (instantiate rest st next) as [[os st'] n']. exact IH.
Qed.

Lemma add_model_wf a : preserves session_wf (add_model a).
Proof.
  intros s (Hf & Hnd & Hall & Hl). unfold add_model.
  destruct (instantiate_grows (traverse (asset_root a)) (mats s) (next_mat s) Hf) as [H1 H2].
  destruct (instantiate _ _ _) as [[os st'] n']. simpl in *.
  unfold session_wf, store_fresh, glass_wf; simpl. split; [exact H2|].
  split; [exact Hnd|]. split; [|exact Hl].
  eapply Forall_impl; [exact Hall|]. intros id Hid. by rewrite H1.
Qed.

#[export] Hint Resolve add_model_wf : page.

(** Discharge [preserves session_wf] for a sequence of operations. *)
Ltac wf_solve :=
  repeat first
    [ progress (intros; subst)
    | solve [eauto with page]
    | apply alloc_push_wf
    | apply preserves_bind
    | apply preserves_modify, wf_frame; intros ?; split; [reflexivity|split; reflexivity]
    | solve [eauto with page]
    | case_match ].

Lemma load_obj_wf c center o : preserves session_wf (load_obj c center o).
Proof. unfold load_obj. wf_solve. Qed.

Lemma load_pass_wf c center objs : preserves session_wf (load_pass c center objs).
Proof. induction objs as [|o rest IH]; simpl; [wf_solve|]. wf_solve; apply load_obj_wf. Qed.

Lemma fake_objs_wf path objs : preserves session_wf (fake_objs path objs).
Proof. induction objs as [|o rest IH]; simpl; wf_solve. Qed.

Lemma arms_text_pass_wf c : preserves session_wf (arms_text_pass c).
Proof.
  apply preserves_modify. intros s Hs. apply wf_same_dom; [|exact Hs].
  apply foldl_same_dom. intros st [mid i].
  destruct (models s !! mid) as [objs|]; [|reflexivity].
  destruct (objs !! i) as [[? [| cur |]]|]; try reflexivity. apply store_update_same_dom.
Qed.

Lemma glass_update_pass_wf c : preserves session_wf (glass_update_pass c).
Proof.
  apply preserves_modify. intros s Hs. apply wf_same_dom; [|exact Hs].
  apply foldl_same_dom. intros st gid. apply store_update_same_dom.
Qed.

#[export] Hint Resolve load_pass_wf fake_objs_wf arms_text_pass_wf glass_update_pass_wf : page.

Lemma fake_pass_wf c id : preserves session_wf (fake_pass c id).
Proof. unfold fake_pass. wf_solve. Qed.

#[export] Hint Resolve fake_pass_wf : page.

Lemma applyConfig_wf c : preserves session_wf (applyConfig c).
Proof. unfold applyConfig, set_flags_from. wf_solve. Qed.

Lemma loadModel_request_wf c : preserves session_wf (loadModel_request c).
Proof.
  unfold loadModel_request, set_flags_from, dispose_current. wf_solve.
  - apply preserves_modify, wf_frame. intros s. destruct (currentModel s); auto.
  - apply preserves_modify. intros s (Hf & _). split; [exact Hf|].
    unfold glass_wf; simpl. split; [constructor|]. split; [constructor|]. simpl; lia.
Qed.

#[export] Hint Resolve applyConfig_wf loadModel_request_wf : page.

(** ** What applyConfig leaves alone *)

(** The glass globals and the camera are [g] and [k]. *)
Definition keeps_gc (g : GlassSys) (k : CamSys) (s : Session) : Prop :=
  glassSys s = g /\ cam s = k.

Ltac keep_solve :=
  repeat first
    [ progress (intros; subst)
    | solve [eauto with page]
    | apply preserves_bind
    | apply preserves_modify; intros ?s [?Hg ?Hk]; split;
      [etransitivity; [|exact Hg] | etransitivity; [|exact Hk]]; reflexivity
    | case_match ].

Lemma alloc_material_keeps g k m : preserves (keeps_gc g k) (alloc_material m).
Proof. intros s Hs. exact Hs. Qed.

#[export] Hint Resolve alloc_material_keeps : page.

Lemma fake_objs_keeps g k path objs : preserves (keeps_gc g k) (fake_objs path objs).
Proof. induction objs as [|o rest IH]; simpl; keep_solve. Qed.

#[export] Hint Resolve fake_objs_keeps : page.

Lemma applyConfig_keeps g k c : preserves (keeps_gc g k) (applyConfig c).
Proof. unfold applyConfig, fake_pass, set_flags_from, arms_text_pass, glass_update_pass. keep_solve. Qed.

(** The gating flags after [applyConfig c] are those of [c], whether it
    returned or threw. *)
Definition flags_of (c : ModelConfig) (s : Session) : Prop :=
  glassAnimationEnabled s = js_true (animate (glass c)) /\
  glassAnimateCamera s = js_or_null (animateCamera (glass c)).

Lemma fake_objs_flags c path objs : preserves (flags_of c) (fake_objs path objs).
Proof.
  induction objs as [|o rest IH]; simpl;
    repeat first [ progress intros | apply preserves_bind | solve [eauto with page]
                 | intros s Hs; exact Hs | case_match ].
Qed.

(** [m] returns normally, from any state. *)
Definition returns {A} (m : M A) : Prop := forall s, exists x s', m s = (inl x, s').

Lemma returns_ret {A} (x : A) : returns (mret x).
Proof. intros s. eexists _, _. reflexivity. Qed.

Lemma returns_gets {A} (f : Session -> A) : returns (gets f).
Proof. intros s. eexists _, _. reflexivity. Qed.

Lemma returns_modify f : returns (modify f).
Proof. intros s. eexists _, _. reflexivity. Qed.

Lemma returns_alloc m : returns (alloc_material m).
Proof. intros s. eexists _, _. reflexivity. Qed.

Lemma returns_add_model a : returns (add_model a).
Proof. intros s. unfold add_model. destruct (instantiate _ _ _) as [[os st] n]. eexists _, _. reflexivity. Qed.

Lemma returns_bind {A B} (m : M A) (k : A -> M B) :
  returns m -> (forall x, returns (k x)) -> returns (x ← m; k x).
Proof.
  intros Hm Hk s. unfold mbind, M_bind, bind. destruct (Hm s) as (x & s' & ->). apply Hk.
Qed.

#[export] Hint Resolve returns_ret returns_gets returns_modify returns_alloc returns_add_model
  returns_bind : page.

Lemma load_obj_returns c center o : returns (load_obj c center o).
Proof.
  unfold load_obj.
  repeat first [ solve [auto with page] | apply returns_bind; [|intros] | case_match ].
Qed.

Lemma load_pass_returns c center objs : returns (load_pass c center objs).
Proof.
  induction objs as [|o rest IH]; simpl; [auto with page|].
  apply returns_bind; [apply load_obj_returns|]. intros. apply returns_bind; auto with page.
Qed.

#[export] Hint Resolve load_pass_returns : page.

(** [m] ends in a state satisfying [P], from any state. *)
Definition establishes {A} (P : Session -> Prop) (m : M A) : Prop := forall s, P (m s).2.

Lemma establishes_bind_l {A B} P (m : M A) (k : A -> M B) :
  returns m -> (forall x, establishes P (k x)) -> establishes P (x ← m; k x).
Proof.
  intros Hm Hk s. unfold mbind, M_bind, bind. destruct (Hm s) as (x & s' & ->). apply Hk.
Qed.

Lemma establishes_bind_r {A B} P (m : M A) (k : A -> M B) :
  establishes P m -> (forall x, preserves P (k x)) -> establishes P (x ← m; k x).
Proof.
  intros Hm Hk s. unfold mbind, M_bind, bind. specialize (Hm s).
  destruct (m s) as [[x|e] s']; [apply Hk|]; exact Hm.
Qed.

Lemma applyConfig_flags c : establishes (flags_of c) (applyConfig c).
Proof.
  unfold applyConfig.
  apply establishes_bind_l; [auto with page|]. intros aid.
  apply establishes_bind_l; [auto with page|]. intros fid.
  apply establishes_bind_r; [intros s; split; reflexivity|]. intros [].
  unfold fake_pass, arms_text_pass, glass_update_pass.
  repeat first [ progress intros | apply preserves_bind | solve [eauto with page]
               | apply fake_objs_flags | apply preserves_modify; intros s' Hs'; exact Hs'
               | case_match ].
Qed.

(** ** Fields that applyConfig and the loader's traversal leave alone *)

(** Discharge [preserves P m] for a [P] that reads fields [m] only passes
    through: every [modify] and allocation leaves [P] convertible. *)
Ltac field_solve :=
  repeat first
    [ progress (intros; subst)
    | solve [eauto with page]
    | apply preserves_bind
    | apply preserves_modify; intros ?s ?Hs; exact Hs
    | intros ?s ?Hs; exact Hs
    | case_match ].

(** The scene, the current model, the loads in flight and the current skin. *)
Definition scene_fields (sc : list nat) (cm : option nat) (p : list ModelConfig)
    (cc : ModelConfig) (s : Session) : Prop :=
  sceneChildren s = sc /\ currentModel s = cm /\ pending s = p /\ currentConfig s = cc.

(** The same, with the next model address. *)
Definition model_fields (sc : list nat) (cm : option nat) (p : list ModelConfig) (nm : nat)
    (s : Session) : Prop :=
  sceneChildren s = sc /\ currentModel s = cm /\ pending s = p /\ next_model s = nm.

Lemma fake_objs_scene sc cm p cc path objs :
  preserves (scene_fields sc cm p cc) (fake_objs path objs).
Proof. induction objs as [|o rest IH]; simpl; field_solve. Qed.

#[export] Hint Resolve fake_objs_scene : page.

Lemma applyConfig_scene sc cm p cc c : preserves (scene_fields sc cm p cc) (applyConfig c).
Proof. unfold applyConfig, fake_pass, set_flags_from, arms_text_pass, glass_update_pass. field_solve. Qed.

Lemma load_pass_scene sc cm p cc c center objs :
  preserves (scene_fields sc cm p cc) (load_pass c center objs).
Proof. induction objs as [|o rest IH]; simpl; [field_solve|]. unfold load_obj. field_solve. Qed.

#[export] Hint Resolve applyConfig_scene load_pass_scene : page.

Lemma fake_objs_model sc cm p nm path objs :
  preserves (model_fields sc cm p nm) (fake_objs path objs).
Proof. induction objs as [|o rest IH]; simpl; field_solve. Qed.

#[export] Hint Resolve fake_objs_model : page.

Lemma applyConfig_model sc cm p nm c : preserves (model_fields sc cm p nm) (applyConfig c).
Proof. unfold applyConfig, fake_pass, set_flags_from, arms_text_pass, glass_update_pass. field_solve. Qed.

Lemma load_pass_model sc cm p nm c center objs :
  preserves (model_fields sc cm p nm) (load_pass c center objs).
Proof. induction objs as [|o rest IH]; simpl; [field_solve|]. unfold load_obj. field_solve. Qed.

#[export] Hint Resolve applyConfig_model load_pass_model : page.

(** [originalGlassOpacities] only grows at its end. *)
Definition opacities_extend (l : list Q) (s : Session) : Prop :=
  exists tail, gs_origOpacities (glassSys s) = l ++ tail.

Lemma push_glass_extend l gid oc oo : preserves (opacities_extend l) (modify (push_glass gid oc oo)).
Proof.
  intros s [tail Ht]. exists (tail ++ [oo]). simpl. rewrite Ht. by rewrite app_assoc.
Qed.

#[export] Hint Resolve push_glass_extend : page.

Lemma fake_objs_extend l path objs : preserves (opacities_extend l) (fake_objs path objs).
Proof. induction objs as [|o rest IH]; simpl; field_solve. Qed.

#[export] Hint Resolve fake_objs_extend : page.

Lemma applyConfig_extend l c : preserves (opacities_extend l) (applyConfig c).
Proof. unfold applyConfig, fake_pass, set_flags_from, arms_text_pass, glass_update_pass. field_solve. Qed.

Lemma load_pass_extend l c center objs : preserves (opacities_extend l) (load_pass c center objs).
Proof. induction objs as [|o rest IH]; simpl; [field_solve|]. unfold load_obj. field_solve. Qed.

Lemma add_model_extend l a : preserves (opacities_extend l) (add_model a).
Proof. intros s Hs. unfold add_model. by destruct (instantiate _ _ _) as [[os st] n]. Qed.

#[export] Hint Resolve applyConfig_extend load_pass_extend add_model_extend : page.

Lemma load_callback_extend `{ThreeOps} l c a now :
  preserves (opacities_extend l) (load_callback c a now).
Proof. unfold load_callback. field_solve. Qed.

Lemma orig_opacity_extend l tail i :
  (i < length l)%nat -> orig_opacity (l ++ tail) i = orig_opacity l i.
Proof. intros Hi. unfold orig_opacity. by rewrite lookup_app_l. Qed.

(** ** What the loader's traversal records *)

Lemma bind_ret_state {A B} (m : M A) (f : A -> B) s :
  (x ← m; mret (f x))%stdpp s = (match (m s).1 with inl x => inl (f x) | inr e => inr e end, (m s).2).
Proof. unfold mbind, M_bind, bind. destruct (m s) as [[x|e] s']; reflexivity. Qed.

(** The slots of the objects are below the next free address. *)
Definition slots_below (objs : list SObj) (n : nat) : Prop :=
  forall o id, o ∈ objs -> so_kind o = SMesh id -> (id < n)%nat.

Definition slots_below_b (objs : list SObj) (n : nat) : bool :=
  forallb (fun o => match so_kind o with SMesh id => (id <? n)%nat | _ => true end) objs.

Lemma slots_below_b_spec objs n : slots_below_b objs n = true -> slots_below objs n.
Proof.
  intros H o id Hin Hk. unfold slots_below_b in H. rewrite forallb_forall in H.
  specialize (H o (proj1 (list_elem_of_In _ _) Hin)). rewrite Hk in H. by apply Nat.ltb_lt.
Qed.

Lemma load_obj_effect c center o s :
  slots_below [o] (next_mat s) ->
  cameraTargets (load_obj c center o s).2 = obj_cam center (cameraTargets s) o /\
  length (gs_materials (glassSys (load_obj c center o s).2)) =
    (length (gs_materials (glassSys s)) + if obj_is_glass (mats s) o then 1 else 0)%nat /\
  (forall id, (id < next_mat s)%nat -> mats (load_obj c center o s).2 !! id = mats s !! id) /\
  (next_mat s <= next_mat (load_obj c center o s).2)%nat.
Proof.
  intros _. unfold load_obj, obj_is_glass, obj_cam.
  destruct o as [nm [p q f|cur|]]; cbn [so_kind so_name];
    [| |repeat split; simpl; auto with lia].
  - repeat split; simpl; auto with lia.
  - unfold mbind, M_bind, bind, gets. cbn [fst snd].
    destruct (default false (is_glass_material <$> mats s !! cur)).
    + unfold alloc_material, modify, mret, M_ret, ret. simpl.
      repeat split; [rewrite length_app; simpl; lia| |lia].
      intros id Hid. apply lookup_insert_ne. lia.
    + repeat split; simpl; auto with lia.
Qed.

Lemma load_pass_effect c center objs : forall s,
  slots_below objs (next_mat s) ->
  cameraTargets (load_pass c center objs s).2 = foldl (obj_cam center) (cameraTargets s) objs /\
  length (gs_materials (glassSys (load_pass c center objs s).2)) =
    (length (gs_materials (glassSys s)) + List.length (List.filter (obj_is_glass (mats s)) objs))%nat /\
  (forall id, (id < next_mat s)%nat -> mats (load_pass c center objs s).2 !! id = mats s !! id) /\
  (next_mat s <= next_mat (load_pass c center objs s).2)%nat.
Proof.
  induction objs as [|o rest IH]; intros s Hb; [simpl; auto with lia|].
  destruct (load_obj_returns c center o s) as (o' & s1 & E).
  assert (Hstep : (load_pass c center (o :: rest) s).2 = (load_pass c center rest s1).2).
  { cbn [load_pass]. unfold mbind at 1, M_bind at 1, bind at 1. rewrite E.
    rewrite bind_ret_state. reflexivity. }
  pose proof (load_obj_effect c center o s) as (Hc1 & Hg1 & Hm1 & Hn1).
  { intros o0 id Hin. apply Hb. set_solver. }
  rewrite E in Hc1, Hg1, Hm1, Hn1. cbn [snd] in *. rewrite Hstep.
  destruct (IH s1) as (Hc2 & Hg2 & Hm2 & Hn2).
  { intros o0 id Hin Hk. specialize (Hb o0 id ltac:(set_solver) Hk). lia. }
  assert (Hf : List.filter (obj_is_glass (mats s1)) rest = List.filter (obj_is_glass (mats s)) rest).
  { apply List.filter_ext_in. intros o0 Hin. unfold obj_is_glass.
    destruct (so_kind o0) as [| id |] eqn:Hk; [reflexivity| |reflexivity].
    rewrite Hm1; [reflexivity|]. apply (Hb o0 id); [apply elem_of_cons; right; apply list_elem_of_In, Hin|exact Hk]. }
  refine (conj _ (conj _ (conj _ _))).
  - rewrite Hc2, Hc1. reflexivity.
  - rewrite Hg2, Hg1, Hf. cbn [List.filter]. destruct (obj_is_glass (mats s) o); simpl; lia.
  - intros id Hid. rewrite Hm2 by lia. apply Hm1, Hid.
  - lia.
Qed.

(** ** Hoare triples over [M]

    [hoare P m Q]: from a state satisfying [P], the state [m] leaves,
    whether it returned or threw, satisfies [Q]. *)
Definition hoare {A} (P : Session -> Prop) (m : M A) (Q : Session -> Prop) : Prop :=
  forall s, P s -> Q (m s).2.

Lemma hoare_bind {A B} P Q R (m : M A) (k : A -> M B) :
  returns m -> hoare P m Q -> (forall x, hoare Q (k x) R) -> hoare P (x ← m; k x) R.
Proof.
  intros Hr Hm Hk s Hs. unfold mbind, M_bind, bind. specialize (Hm s Hs).
  destruct (Hr s) as (x & s' & E). rewrite E in Hm |- *. apply Hk, Hm.
Qed.

Lemma fake_objs_returns path objs : returns (fake_objs path objs).
Proof.
  induction objs as [|o rest IH]; simpl; [auto with page|].
  repeat first [ solve [auto with page] | apply returns_bind; [|intros] | case_match ].
Qed.

Lemma fake_pass_returns c id : returns (fake_pass c id).
Proof.
  unfold fake_pass. case_match; [|auto with page].
  repeat first [ solve [auto using fake_objs_returns with page] | apply returns_bind; [|intros] ].
Qed.

#[export] Hint Resolve fake_objs_returns fake_pass_returns : page.

Lemma hoare_gets {A B} P R (f : Session -> A) (k : A -> M B) :
  (forall x, hoare (fun s => P s /\ f s = x) (k x) R) -> hoare P (x ← gets f; k x) R.
Proof. intros Hk s Hs. apply (Hk (f s)). auto. Qed.

Lemma hoare_preserves {A} P (m : M A) : preserves P m -> hoare P m P.
Proof. exact id. Qed.

Lemma hoare_weaken {A} P P' Q (m : M A) : (forall s, P' s -> P s) -> hoare P m Q -> hoare P' m Q.
Proof. intros HP H s Hs. apply H, HP, Hs. Qed.

(** [store_update] over a duplicate-free list of addresses updates each
    of them once. *)
Lemma foldl_store_update_in f ids st id m :
  NoDup ids -> id ∈ ids -> st !! id = Some m ->
  foldl (fun st gid => store_update f gid st) st ids !! id = Some (f m).
Proof.
  revert st. induction ids as [|x rest IH]; intros st Hnd Hin Hm; [by apply elem_of_nil in Hin|].
  inversion Hnd as [|? ? Hx Hnd']; subst. simpl.
  destruct (decide (x = id)) as [->|Hne].
  - assert (Hout : forall st', foldl (fun st gid => store_update f gid st) st' rest !! id = st' !! id).
    { clear IH Hnd Hnd' Hin. induction rest as [|y r IHr]; intros st'; [reflexivity|].
      simpl. rewrite IHr by set_solver. apply store_update_lookup_ne. set_solver. }
    rewrite Hout. by apply store_update_lookup_eq.
  - apply IH; [exact Hnd'|set_solver|]. by rewrite store_update_lookup_ne.
Qed.

(** What [applyConfig] keeps of a glass material up to its last loop. *)
Definition glass_slot (id : nat) (m : Material) (G : list nat) (s : Session) : Prop :=
  mats s !! id = Some m /\ (id < next_mat s)%nat /\ gs_materials (glassSys s) = G /\
  armsTextMeshes s = [] /\ currentModel s <> None.

Lemma alloc_material_slot id m G x : preserves (glass_slot id m G) (alloc_material x).
Proof.
  intros s (H1 & H2 & H3 & H4 & H5). unfold glass_slot; simpl.
  rewrite lookup_insert_ne by lia. repeat split; auto with lia.
Qed.

#[export] Hint Resolve alloc_material_slot : page.

Lemma fake_objs_slot id m G path objs : preserves (glass_slot id m G) (fake_objs path objs).
Proof. induction objs as [|o rest IH]; simpl; field_solve. Qed.

#[export] Hint Resolve fake_objs_slot : page.

Lemma arms_text_pass_slot id m G c : preserves (glass_slot id m G) (arms_text_pass c).
Proof.
  intros s (H1 & H2 & H3 & H4 & H5). unfold arms_text_pass, modify; simpl.
  rewrite H4. simpl. repeat split; auto.
Qed.

Lemma applyConfig_glass c id m G :
  NoDup G -> id ∈ G ->
  hoare (glass_slot id m G) (applyConfig c)
        (fun s => mats s !! id = Some (update_glass c (logo_texture_of c) m)).
Proof.
  intros Hnd Hin. unfold applyConfig.
  eapply hoare_bind; [auto with page|apply hoare_preserves; auto with page|]; intros.
  eapply hoare_bind; [auto with page|apply hoare_preserves; auto with page|]; intros.
  eapply hoare_bind; [unfold set_flags_from; auto with page|apply hoare_preserves; unfold set_flags_from; field_solve|]; intros.
  apply hoare_gets. intros [mid|].
  2:{ intros s' ((_ & _ & _ & _ & Hcm) & Hx). contradiction. }
  apply (hoare_weaken (glass_slot id m G)); [tauto|].
  apply hoare_gets. intros objs. apply (hoare_weaken (glass_slot id m G)); [tauto|].
  eapply hoare_bind; [auto with page|apply hoare_preserves; field_solve|]; intros.
  eapply hoare_bind; [auto with page|apply hoare_preserves; unfold fake_pass; field_solve|]; intros.
  eapply hoare_bind; [unfold arms_text_pass; auto with page|apply hoare_preserves, arms_text_pass_slot|]; intros.
  intros s (H1 & _ & H3 & _). unfold glass_update_pass, modify; simpl. rewrite H3.
  by apply foldl_store_update_in.
Qed.

(** [armsTextMeshes] is emptied by [loadModel] and never filled. *)
Definition arms_empty (s : Session) : Prop := armsTextMeshes s = [].

Lemma fake_objs_arms path objs : preserves arms_empty (fake_objs path objs).
Proof. induction objs as [|o rest IH]; simpl; field_solve. Qed.

#[export] Hint Resolve fake_objs_arms : page.

Lemma applyConfig_arms c : preserves arms_empty (applyConfig c).
Proof. unfold applyConfig, fake_pass, set_flags_from, arms_text_pass, glass_update_pass. field_solve. Qed.

Lemma load_pass_arms c center objs : preserves arms_empty (load_pass c center objs).
Proof. induction objs as [|o rest IH]; simpl; [field_solve|]. unfold load_obj. field_solve. Qed.

Lemma add_model_arms a : preserves arms_empty (add_model a).
Proof. intros s Hs. unfold add_model. by destruct (instantiate _ _ _) as [[os st] n]. Qed.

#[export] Hint Resolve applyConfig_arms load_pass_arms add_model_arms : page.

(** The camera table and the number of glass materials. *)
Definition load_records (t : gmap string CamData) (n : nat) (s : Session) : Prop :=
  cameraTargets s = t /\ length (gs_materials (glassSys s)) = n.

(** The camera table and the glass list. *)
Definition records_fields (t : gmap string CamData) (gl : list nat) (s : Session) : Prop :=
  cameraTargets s = t /\ gs_materials (glassSys s) = gl.

Lemma fake_objs_records t gl path objs : preserves (records_fields t gl) (fake_objs path objs).
Proof. induction objs as [|o rest IH]; simpl; field_solve. Qed.

#[export] Hint Resolve fake_objs_records : page.

Lemma applyConfig_records t gl c : preserves (records_fields t gl) (applyConfig c).
Proof. unfold applyConfig, fake_pass, set_flags_from, arms_text_pass, glass_update_pass. field_solve. Qed.

#[export] Hint Resolve applyConfig_records : page.

(** At most one load in flight, and the scene either empty or holding
    exactly the current model while no load is in flight. *)
Definition one_model (s : Session) : Prop :=
  (length (pending s) <= 1)%nat /\
  (sceneChildren s = [] \/
   exists id, sceneChildren s = [id] /\ currentModel s = Some id /\ pending s = []).

Lemma delete_single {A} (p : list A) k x :
  (length p <= 1)%nat -> p !! k = Some x -> delete k p = [].
Proof. destruct p as [|y [|z r]], k; simpl; intros; try discriminate; auto; lia. Qed.

Lemma length_delete_le {A} (p : list A) k : (length (delete k p) <= length p)%nat.
Proof. revert k; induction p as [|y r IH]; intros [|k]; simpl; try lia. specialize (IH k); lia. Qed.

Lemma filter_neq_single id :
  filter (fun x => negb (x =? id)%nat) [id] = [].
Proof. rewrite filter_cons_False; [done|]. rewrite Nat.eqb_refl. simpl. auto. Qed.

Section PageProofs.
Context {ops : ThreeOps}.

Lemma animate_frame_wf time now : preserves session_wf (animate_frame time now).
Proof.
  unfold animate_frame. wf_solve.
  apply preserves_modify. intros s Hs.
  destruct (glass_frame_shape (glassAnimationEnabled s) (cs_active (cam s)) (glassAnimateCamera s)
              now (glassSys s) (mats s)) as (Hm & Hc & Ho & Hd).
  destruct (glass_frame _ _ _ _ _ _) as [g st]. simpl in *.
  destruct Hs as (Hf & Hnd & Hall & Hl).
  unfold session_wf, store_fresh, glass_wf; simpl. rewrite Hm, Hc, Ho.
  split; [intros id Hid; apply Hf, Hd, Hid|]. split; [exact Hnd|]. split; [|exact Hl].
  eapply Forall_impl; [exact Hall|]. intros id Hid. by apply Hd.
Qed.

Lemma load_callback_wf c a now : preserves session_wf (load_callback c a now).
Proof. unfold load_callback. wf_solve. Qed.

#[local] Hint Resolve animate_frame_wf load_callback_wf : page.

Lemma step_wf ev : preserves session_wf (step ev).
Proof. destruct ev; simpl; wf_solve. Qed.

Lemma session_init_wf : session_wf session_init.
Proof.
  split; [intros id [m Hid]; simpl in Hid; by rewrite lookup_empty in Hid|].
  repeat split; simpl; [constructor|constructor|lia].
Qed.

(** A property every event keeps holds after any sequence of events. *)
Lemma run_invariant (P : Session -> Prop) :
  (forall ev s, P s -> P (exec (step ev) s)) -> forall evs s, P s -> P (run evs s).
Proof. intros Hstep evs. induction evs as [|ev evs IH]; intros s Hs; [exact Hs|]. apply IH, Hstep, Hs. Qed.

Lemma run_wf evs s : session_wf s -> session_wf (run evs s).
Proof. apply run_invariant. intros ev. apply step_wf. Qed.

Lemma page_start_wf : session_wf page_start.
Proof. apply loadModel_request_wf, session_init_wf. Qed.

(** C9: every state the page reaches, from its start and through any
    sequence of button clicks, frames, [loadModel] calls and load
    completions or failures, keeps the material store and the glass lists
    consistent: glass materials are distinct objects of the store, each
    has its rest colour and a rest opacity, and addresses are allocated
    fresh. *)
Theorem run_session_wf evs : session_wf (run evs page_start).
Proof. apply run_wf, page_start_wf. Qed.

Lemma exec_click c s : exec (step (ClickSkin c)) s = exec (applyConfig c) (set_config c s).
Proof. reflexivity. Qed.

Lemma exec_loaddone k a now s :
  exec (step (LoadDone k a now)) s =
  match pending s !! k with
  | Some c => exec (load_callback c a now) (set_pending (delete k (pending s)) s)
  | None => s
  end.
Proof.
  unfold exec, step. unfold mbind at 1. unfold M_bind, bind at 1, gets.
  destruct (pending s !! k); reflexivity.
Qed.

Lemma exec_frame time now s :
  exec (step (AnimFrame time now)) s =
  let s1 := set_cam (camera_frame time (cam s)) s in
  let '(g, st) := glass_frame (glassAnimationEnabled s1) (cs_active (cam s1))
                    (glassAnimateCamera s1) now (glassSys s1) (mats s1) in
  set_mats st (next_mat s1) (set_glass g s1).
Proof. reflexivity. Qed.

(** C10: a skin button does not change the rest values of the glass
    animation: [applyConfig] writes the new skin's glass colour and
    opacity into the materials but never into [originalGlassColors] or
    [originalGlassOpacities].  So when the next frame stops the
    animation (the new skin does not animate, or the camera is not its
    gating camera) while it was running, every lens is set back to the
    rest values of the skin the model was loaded with, not to the skin
    just chosen (spec section 4.4: the rest values are the new config's). *)
Theorem skin_click_then_stop_restores_old_rest c time now s i id :
  session_wf s -> gs_was (glassSys s) = true ->
  shouldAnimateGlass (js_true (animate (glass c))) (length (gs_materials (glassSys s)))
    (cs_active (camera_frame time (cam s))) (js_or_null (animateCamera (glass c))) = false ->
  gs_materials (glassSys s) !! i = Some id ->
  exists m, mats (run [ClickSkin c; AnimFrame time now] s) !! id = Some m /\
            m_color m = orig_color (gs_origColors (glassSys s)) i /\
            m_opacity m = orig_opacity (gs_origOpacities (glassSys s)) i.
Proof.
  intros Hwf Hwas Hsh Hi. unfold run. cbn [foldl].
  set (s1 := exec (step (ClickSkin c)) s).
  assert (Hk : keeps_gc (glassSys s) (cam s) s1).
  { unfold s1. rewrite exec_click. apply applyConfig_keeps. split; reflexivity. }
  assert (Hfl : flags_of c s1) by (unfold s1; rewrite exec_click; apply applyConfig_flags).
  assert (Hw1 : session_wf s1) by (apply step_wf, Hwf).
  destruct Hk as [Hg Hc]. destruct Hfl as [He Hgate].
  destruct Hw1 as (_ & Hnd & Hall & _). rewrite Hg in Hnd, Hall.
  rewrite exec_frame. cbn [cam set_cam glassAnimationEnabled glassAnimateCamera glassSys mats].
  rewrite Hc, He, Hgate, Hg.
  pose proof (glass_frame_stop_materials (js_true (animate (glass c)))
              (cs_active (camera_frame time (cam s))) (js_or_null (animateCamera (glass c)))
              now (glassSys s) (mats s1) i id Hsh Hwas Hnd Hall Hi) as H.
  destruct (glass_frame _ _ _ _ _ _) as [g st]. exact H.
Qed.

(** C15: a skin button pressed while no model is loaded (before the first
    load completes) throws a [TypeError] from [currentModel.traverse]; the
    statements before the traversal have already run, so the gating flags
    are those of the new skin, while the glass globals and the models are
    untouched (spec section 7 wants errors handled locally). *)
Theorem applyConfig_without_model_throws c s :
  currentModel s = None ->
  (applyConfig c s).1 = inr (TypeError "Cannot read properties of null (reading 'traverse')") /\
  flags_of c (applyConfig c s).2 /\
  models (applyConfig c s).2 = models s /\ glassSys (applyConfig c s).2 = glassSys s.
Proof.
  intros H. unfold applyConfig, mbind, M_bind, bind. simpl. rewrite H. simpl.
  split; [reflexivity|]. split; [split; reflexivity|]. split; reflexivity.
Qed.

Lemma load_callback_flags c a now : establishes (flags_of c) (load_callback c a now).
Proof.
  unfold load_callback.
  do 5 (apply establishes_bind_l; [auto with page|]; intros).
  apply applyConfig_flags.
Qed.

Lemma scene_to_config {A} (m : M A) cc :
  (forall sc cm p, preserves (scene_fields sc cm p cc) m) ->
  preserves (fun s => currentConfig s = cc) m.
Proof.
  intros H s Hs.
  destruct (H (sceneChildren s) (currentModel s) (pending s) s) as (_ & _ & _ & Hc);
    [repeat split; auto | exact Hc].
Qed.

Lemma load_callback_config cc c a now :
  preserves (fun s => currentConfig s = cc) (load_callback c a now).
Proof.
  unfold load_callback. apply preserves_bind.
  - intros s Hs. unfold add_model. by destruct (instantiate _ _ _) as [[os st] n].
  - intros id. apply scene_to_config. intros. field_solve.
Qed.

(** C16: a skin chosen while the first model is still loading is lost: the
    click throws (no model yet) but records the skin as [currentConfig];
    when the load completes, its callback applies the skin [loadModel]
    was called with, so the page shows the start skin while [currentConfig]
    names the clicked one. *)
Theorem skin_click_during_load_is_lost c a now :
  currentConfig (run [ClickSkin c; LoadDone 0 a now] page_start) = c /\
  flags_of Skins.initial_config (run [ClickSkin c; LoadDone 0 a now] page_start).
Proof.
  unfold run. cbn [foldl].
  set (s1 := exec (step (ClickSkin c)) page_start).
  assert (H1 : scene_fields [] None [Skins.initial_config] c s1).
  { unfold s1. rewrite exec_click. apply applyConfig_scene. repeat split. }
  destruct H1 as (_ & _ & Hp & Hc).
  rewrite exec_loaddone, Hp. cbn [lookup list_lookup].
  split.
  - apply (load_callback_config c). exact Hc.
  - apply load_callback_flags.
Qed.

(** The loader's callback adds exactly one model to the scene, makes it
    current, and leaves the other loads in flight. *)
Lemma load_callback_scene c a now s :
  model_fields (filter (fun x => negb (x =? next_model s)%nat) (sceneChildren s) ++ [next_model s])
    (Some (next_model s)) (pending s) (S (next_model s)) (exec (load_callback c a now) s).
Proof.
  unfold exec, load_callback. unfold mbind at 1, M_bind at 1, bind at 1.
  unfold add_model at 1. destruct (instantiate _ _ _) as [[os st] n]. simpl.
  match goal with |- model_fields ?sc ?cm ?p ?nm (?m ?s1).2 =>
    assert (H : preserves (model_fields sc cm p nm) m) by field_solve; apply H end.
  repeat split.
Qed.

(** C11: two loads in flight at once both add their model to the scene:
    after [loadModel] is called again before the first load completes,
    the scene holds two glasses models and the first is never disposed
    (spec section 5: concurrent loads should be serialized). *)
Theorem overlapping_loads_two_models c a t1 t2 :
  sceneChildren (run [CallLoadModel c; LoadDone 0 a t1; LoadDone 0 a t2] page_start) = [0; 1]%nat.
Proof.
  unfold run. cbn [foldl].
  set (s1 := exec (step (CallLoadModel c)) page_start).
  assert (Hp1 : pending s1 = [Skins.initial_config; c]) by reflexivity.
  assert (Hsc1 : sceneChildren s1 = []) by reflexivity.
  assert (Hn1 : next_model s1 = 0%nat) by reflexivity.
  rewrite (exec_loaddone 0 a t1 s1), Hp1. cbn [lookup list_lookup delete list_delete].
  pose proof (load_callback_scene Skins.initial_config a t1 (set_pending [c] s1)) as H2.
  set (s2 := exec (load_callback Skins.initial_config a t1) (set_pending [c] s1)) in *.
  destruct H2 as (Hsc2 & _ & Hp2 & Hn2). simpl in Hsc2, Hp2, Hn2.
  rewrite (exec_loaddone 0 a t2 s2), Hp2. cbn [lookup list_lookup delete list_delete].
  destruct (load_callback_scene c a t2 (set_pending [] s2)) as (Hsc3 & _).
  rewrite Hsc3. simpl. rewrite Hsc2, Hn2. reflexivity.
Qed.

Lemma loadModel_request_model c s :
  model_fields
    (match currentModel s with
     | Some id => filter (fun x => negb (x =? id)%nat) (sceneChildren s)
     | None => sceneChildren s end)
    (currentModel s) (pending s ++ [c]) (next_model s) (exec (loadModel_request c) s).
Proof.
  unfold exec; simpl. destruct (currentModel s) eqn:E;
    unfold set_pending, reset_for_load, set_scene, set_gating; simpl; rewrite ?E; repeat split.
Qed.

(** The events that do not load: the scene, the current model and the
    loads in flight are untouched. *)
Lemma step_model_other ev s :
  match ev with ClickSkin _ | ClickCamera _ _ | AnimFrame _ _ => True | _ => False end ->
  model_fields (sceneChildren s) (currentModel s) (pending s) (next_model s) (exec (step ev) s).
Proof.
  destruct ev as [c|nm now|t now|c|k a now|k]; try contradiction; intros _.
  - rewrite exec_click. apply applyConfig_model. repeat split.
  - repeat split.
  - rewrite exec_frame. cbv zeta. destruct (glass_frame _ _ _ _ _ _). repeat split.
Qed.

Lemma one_model_fields s s' :
  model_fields (sceneChildren s) (currentModel s) (pending s) (next_model s) s' ->
  one_model s -> one_model s'.
Proof. intros (H1 & H2 & H3 & _). unfold one_model. rewrite H1, H2, H3. exact id. Qed.

Lemma step_one_model ev s : serial_ok ev s = true -> one_model s -> one_model (exec (step ev) s).
Proof.
  intros Hok Hs. destruct ev as [c|nm now|t now|c|k a now|k];
    try (apply (one_model_fields s); [apply step_model_other; exact I | exact Hs]).
  - simpl in Hok. destruct (pending s) eqn:Hp; [|discriminate].
    change (exec (step (CallLoadModel c)) s) with (exec (loadModel_request c) s).
    destruct (loadModel_request_model c s) as (Hsc & _ & Hp' & _).
    split; [rewrite Hp', Hp; simpl; lia|left; rewrite Hsc].
    destruct Hs as [_ [Hsc0|(id & Hsc0 & Hcm & _)]]; rewrite Hsc0; [by destruct (currentModel s)|].
    rewrite Hcm. apply filter_neq_single.
  - rewrite exec_loaddone. destruct (pending s !! k) as [c|] eqn:Hk; [|exact Hs].
    destruct Hs as [Hlen [Hsc0|(id & _ & _ & Hp0)]]; [|rewrite Hp0 in Hk; discriminate].
    rewrite (delete_single _ _ _ Hlen Hk).
    destruct (load_callback_scene c a now (set_pending [] s)) as (Hsc & Hcm & Hp & _).
    simpl in Hsc, Hcm, Hp. rewrite Hsc0 in Hsc.
    split; [rewrite Hp; simpl; lia|right; exists (next_model s); auto].
  - destruct Hs as [Hlen Hsc].
    change (exec (step (LoadFailed k)) s) with (set_pending (delete k (pending s)) s).
    unfold one_model, set_pending; cbn [pending sceneChildren currentModel].
    split; [pose proof (length_delete_le (pending s) k); lia|].
    destruct Hsc as [Hsc|(id & Hsc & Hcm & Hp)]; [left; exact Hsc|right].
    exists id. rewrite Hp. auto.
Qed.

Lemma run_one_model evs s : serial evs s = true -> one_model s -> one_model (run evs s).
Proof.
  revert s; induction evs as [|ev rest IH]; intros s Hser Hs; [exact Hs|].
  simpl in Hser. apply andb_prop in Hser as [Hok Hser].
  apply (IH _ Hser), step_one_model; assumption.
Qed.

Lemma page_start_one_model : one_model page_start.
Proof. split; [vm_compute; lia | left; reflexivity]. Qed.

(** C12: with loads serialized, the scene never holds more than one glasses
    model, and when it holds one it is the current model and no load is in
    flight (spec section 5; compare the overlapping loads above). *)
Theorem serialized_loads_one_model evs :
  serial evs page_start = true ->
  (length (sceneChildren (run evs page_start)) <= 1)%nat /\
  Forall (fun id => currentModel (run evs page_start) = Some id)
    (sceneChildren (run evs page_start)).
Proof.
  intros Hser. destruct (run_one_model evs page_start Hser page_start_one_model) as [_ [Hsc|(id & Hsc & Hcm & _)]].
  - rewrite Hsc. split; [simpl; lia | constructor].
  - rewrite Hsc. split; [simpl; lia | by constructor].
Qed.

(** What [loadModel] resets before the loader runs (main.js:152-157). *)
Lemma loadModel_request_resets c s :
  gs_materials (glassSys (exec (loadModel_request c) s)) = [] /\
  gs_origColors (glassSys (exec (loadModel_request c) s)) = [] /\
  gs_origOpacities (glassSys (exec (loadModel_request c) s)) = gs_origOpacities (glassSys s) /\
  cameraTargets (exec (loadModel_request c) s) = ∅.
Proof. unfold exec; simpl. destruct (currentModel s); repeat split. Qed.

(** C13: a load that fails after [loadModel] has started leaves the page
    with an empty scene, no lenses and no camera targets, while
    [currentModel] still names the disposed model (main.js:128-157, 243-246;
    spec section 7: the previous model should stay). *)
Theorem failed_reload_empties_scene c s (id : nat) :
  sceneChildren s = [id] -> currentModel s = Some id -> pending s = [] ->
  sceneChildren (run [CallLoadModel c; LoadFailed 0] s) = [] /\
  currentModel (run [CallLoadModel c; LoadFailed 0] s) = Some id /\
  pending (run [CallLoadModel c; LoadFailed 0] s) = [] /\
  gs_materials (glassSys (run [CallLoadModel c; LoadFailed 0] s)) = [] /\
  cameraTargets (run [CallLoadModel c; LoadFailed 0] s) = ∅.
Proof.
  intros Hsc Hcm Hp. unfold run. cbn [foldl].
  change (exec (step (LoadFailed 0%nat)) ?x) with (set_pending (delete 0%nat (pending x)) x).
  change (exec (step (CallLoadModel c)) s) with (exec (loadModel_request c) s).
  destruct (loadModel_request_model c s) as (H1 & H2 & H3 & _).
  destruct (loadModel_request_resets c s) as (H4 & _ & _ & H5).
  unfold set_pending; cbn [sceneChildren currentModel pending glassSys cameraTargets].
  rewrite H1, H2, H3, H4, H5, Hp, Hcm, Hsc. split; [apply filter_neq_single|auto].
Qed.

(** C14: [originalGlassOpacities] is not cleared by [loadModel]
    (main.js:152-157): after a reload the new model's lens [i] is restored
    to the rest opacity recorded for lens [i] of an earlier model, the new
    rest values being appended after the old ones (main.js:238). *)
Theorem reload_keeps_stale_opacities c a now s i :
  pending s = [] -> (i < length (gs_origOpacities (glassSys s)))%nat ->
  orig_opacity (gs_origOpacities (glassSys (run [CallLoadModel c; LoadDone 0 a now] s))) i =
  orig_opacity (gs_origOpacities (glassSys s)) i.
Proof.
  intros Hp Hi. unfold run. cbn [foldl].
  change (exec (step (CallLoadModel c)) s) with (exec (loadModel_request c) s).
  destruct (loadModel_request_model c s) as (_ & _ & Hp1 & _).
  destruct (loadModel_request_resets c s) as (_ & _ & Ho1 & _).
  rewrite exec_loaddone, Hp1, Hp. cbn [app lookup list_lookup].
  change (delete 0%nat [c]) with (@nil ModelConfig).
  destruct (load_callback_extend (gs_origOpacities (glassSys s)) c a now
              (set_pending [] (exec (loadModel_request c) s))) as [tail Ht].
  { exists []. rewrite app_nil_r. exact Ho1. }
  fold (exec (load_callback c a now) (set_pending [] (exec (loadModel_request c) s))) in Ht.
  rewrite Ht. by apply orig_opacity_extend.
Qed.

(** The loader's callback records the asset's cameras in the table and
    adds one glass material per glass mesh of the asset. *)
Lemma load_callback_records c a now s :
  load_records (foldl (node_cam (asset_center a)) (cameraTargets s) (traverse (asset_root a)))
    (length (gs_materials (glassSys s)) + glass_count a) (exec (load_callback c a now) s).
Proof.
  unfold exec, load_callback. unfold mbind at 1, M_bind at 1, bind at 1, add_model at 1.
  destruct (instantiate (traverse (asset_root a)) (mats s) (next_mat s)) as [[os st] n] eqn:Ei.
  destruct (instantiate_spec _ _ _ _ _ _ Ei) as (_ & _ & Hslot & Hcam & Hgl).
  unfold mbind at 1, M_bind at 1, bind at 1, gets at 1. cbn [models]. rewrite lookup_insert_eq.
  cbn [default]. change (id os) with os. unfold mbind at 1, M_bind at 1, bind at 1.
  match goal with |- context [load_pass c ?ctr os ?s1] =>
    destruct (load_pass_returns c ctr os s1) as (objs' & s2 & E2);
    destruct (load_pass_effect c ctr os s1) as (Hc & Hg & _ & _);
    [intros o id Hin Hk; specialize (Hslot o id Hin Hk); simpl; lia|] end.
  rewrite E2 in Hc, Hg |- *. cbn [snd cameraTargets glassSys mats] in Hc, Hg. cbv beta iota.
  match goal with |- load_records _ _ (?m s2).2 =>
    assert (Hp : preserves (records_fields (cameraTargets s2) (gs_materials (glassSys s2))) m)
      by field_solve;
    destruct (Hp s2 (conj eq_refl eq_refl)) as [H1 H2] end.
  split; [rewrite H1, Hc, Hcam | rewrite H2, Hg, Hgl]; reflexivity.
Qed.

(** A load started with no other load in flight records exactly the
    asset's cameras and glass meshes, whatever the page held before. *)
Lemma load_determined c a now s :
  pending s = [] ->
  load_records (camera_table a) (glass_count a) (load_once c a now s) /\
  pending (load_once c a now s) = [].
Proof.
  intros Hp. unfold load_once, run. cbn [foldl].
  change (exec (step (CallLoadModel c)) s) with (exec (loadModel_request c) s).
  destruct (loadModel_request_model c s) as (_ & _ & Hp1 & _).
  destruct (loadModel_request_resets c s) as (Hg1 & _ & _ & Hc1).
  rewrite exec_loaddone, Hp1, Hp. cbn [app lookup list_lookup].
  change (delete 0%nat [c]) with (@nil ModelConfig).
  pose proof (load_callback_records c a now (set_pending [] (exec (loadModel_request c) s))) as H.
  destruct (load_callback_scene c a now (set_pending [] (exec (loadModel_request c) s)))
    as (_ & _ & Hp2 & _).
  unfold set_pending in H, Hp2 at 2. cbn [cameraTargets glassSys pending] in H, Hp2.
  rewrite Hc1, Hg1 in H. split; [exact H|exact Hp2].
Qed.

(** C18: loading asset X, then Y, then X again, each load completing
    before the next starts, gives the same camera table and the same
    number of glass materials as the first load of X: the table is the
    cameras of X by name, targeting X's centre, and there is one glass
    material per glass mesh of X (spec section 8, round trip). *)
Theorem reload_roundtrip cX cY aX aY t1 t2 t3 s :
  pending s = [] ->
  cameraTargets (load_once cX aX t3 (load_once cY aY t2 (load_once cX aX t1 s))) =
    cameraTargets (load_once cX aX t1 s) /\
  length (gs_materials (glassSys (load_once cX aX t3 (load_once cY aY t2 (load_once cX aX t1 s))))) =
    length (gs_materials (glassSys (load_once cX aX t1 s))) /\
  cameraTargets (load_once cX aX t1 s) = camera_table aX /\
  length (gs_materials (glassSys (load_once cX aX t1 s))) = glass_count aX.
Proof.
  intros Hp.
  destruct (load_determined cX aX t1 s Hp) as [[Hc1 Hg1] Hp1].
  destruct (load_determined cY aY t2 _ Hp1) as [_ Hp2].
  destruct (load_determined cX aX t3 _ Hp2) as [[Hc3 Hg3] _].
  rewrite Hc1, Hg1, Hc3, Hg3. auto.
Qed.

Lemma step_arms ev : preserves arms_empty (step ev).
Proof.
  destruct ev; unfold step, animate_frame, load_callback, loadModel_request, set_flags_from,
    dispose_current; field_solve;
    apply preserves_modify; intros s Hs;
    first [destruct (glass_frame _ _ _ _ _ _); exact Hs | destruct (currentModel s); exact Hs
          | reflexivity].
Qed.

(** C20: in every state the page reaches, [armsTextMeshes] is empty: the
    arm-text update loop of [applyConfig] (main.js:430-460) never runs. *)
Theorem run_arms_text_empty evs : armsTextMeshes (run evs page_start) = [].
Proof.
  apply (run_invariant arms_empty); [intros ev; apply step_arms|reflexivity].
Qed.

(** A skin button re-tunes each glass material of a well-formed state in
    place (main.js:465-476). *)
Lemma skin_click_retunes_glass_wf c s i id m :
  session_wf s -> armsTextMeshes s = [] -> currentModel s <> None ->
  gs_materials (glassSys s) !! i = Some id -> mats s !! id = Some m ->
  exists m', mats (exec (step (ClickSkin c)) s) !! id = Some m' /\
    m_color m' = glass_color (glass c) /\ m_opacity m' = glass_opacity (glass c) /\
    m_alphaMap m' = (if js_true (gradient (glass c)) then Some gradientTexture else None) /\
    m_roughness m' = m_roughness m /\ m_metalness m' = m_metalness m.
Proof.
  intros (Hf & Hnd & _) Har Hcm Hi Hm. rewrite exec_click.
  exists (update_glass c (logo_texture_of c) m).
  split; [|repeat split].
  apply (applyConfig_glass c id m (gs_materials (glassSys s)) Hnd).
  - by eapply list_elem_of_lookup_2.
  - repeat split; auto.
Qed.

End PageProofs.

(** ** Witnesses *)

Section PageWitnesses.
#[local] Existing Instance witness_ops.

(** The page after the Cosmic Blue model loaded, the Lenses button, and
    frames until the fade to clear has begun. *)
Definition lenses_session : Session :=
  run [LoadDone 0 sample_asset 500; ClickCamera "Cam_Lenses" 600; AnimFrame 601 601;
       AnimFrame 1500 1500; AnimFrame 2000 2000] page_start.

(** Clicking Matte Black Clear (glass opacity 0.15, no animation) there:
    the next frame puts the first lens back to Cosmic Blue's rest values. *)
Lemma skin_click_then_stop_restores_old_rest_witness :
  (exists m, mats (run [ClickSkin Skins.MATTE_BLACK_CLEAR; AnimFrame 2100 2100] lenses_session)
               !! 8%nat = Some m /\
             m_color m = orig_color (gs_origColors (glassSys lenses_session)) 0 /\
             m_opacity m = orig_opacity (gs_origOpacities (glassSys lenses_session)) 0) /\
  orig_opacity (gs_origOpacities (glassSys lenses_session)) 0 = 0.9.
Proof.
  split; [|vm_compute; reflexivity].
  apply skin_click_then_stop_restores_old_rest.
  - unfold lenses_session. apply run_wf, page_start_wf.
  - vm_compute. reflexivity.
  - vm_compute. reflexivity.
  - vm_compute. reflexivity.
Defined.

(** The page after the initial model loaded. *)
Definition loaded_session : Session := run [LoadDone 0 sample_asset 500] page_start.

Lemma applyConfig_without_model_throws_witness :
  currentModel page_start = None /\
  (applyConfig Skins.CLEAR_SAPPHIRE page_start).1 =
    inr (TypeError "Cannot read properties of null (reading 'traverse')").
Proof.
  split; [reflexivity|].
  apply (applyConfig_without_model_throws Skins.CLEAR_SAPPHIRE page_start). reflexivity.
Defined.

(** Load, change skin, reload once the first load is done, and switch cameras. *)
Definition serial_run : list Event :=
  [LoadDone 0 sample_asset 500; ClickSkin Skins.MATTE_BLACK_CLEAR;
   CallLoadModel Skins.SHINY_BLACK_GREEN; AnimFrame 700 700; LoadDone 0 sample_asset 900;
   ClickCamera "Cam_Side" 1000; AnimFrame 1100 1100].

Lemma serialized_loads_one_model_witness :
  serial serial_run page_start = true /\
  (length (sceneChildren (run serial_run page_start)) <= 1)%nat.
Proof.
  assert (H : serial serial_run page_start = true) by (vm_compute; reflexivity).
  split; [exact H|]. apply (serialized_loads_one_model serial_run H).
Defined.

Lemma failed_reload_empties_scene_witness :
  sceneChildren (run [CallLoadModel Skins.MATTE_BLACK_CLEAR; LoadFailed 0] loaded_session) = [] /\
  cameraTargets (run [CallLoadModel Skins.MATTE_BLACK_CLEAR; LoadFailed 0] loaded_session) = ∅.
Proof.
  destruct (failed_reload_empties_scene Skins.MATTE_BLACK_CLEAR loaded_session 0)
    as (H1 & _ & _ & _ & H5); try (vm_compute; reflexivity).
  split; assumption.
Defined.

(** Reloading with Matte Black Clear (glass opacity 0.15): the first lens of
    the new model rests at the initial skin's 0.9. *)
Lemma reload_keeps_stale_opacities_witness :
  orig_opacity (gs_origOpacities (glassSys
    (run [CallLoadModel Skins.MATTE_BLACK_CLEAR; LoadDone 0 sample_asset 900] loaded_session))) 0 =
  orig_opacity (gs_origOpacities (glassSys loaded_session)) 0 /\
  orig_opacity (gs_origOpacities (glassSys loaded_session)) 0 = 0.9.
Proof.
  split; [|vm_compute; reflexivity].
  apply reload_keeps_stale_opacities; vm_compute; [reflexivity|lia].
Defined.

(** A one-lens model with its own camera and centre. *)
Definition other_asset : Asset :=
  mkAsset (mkNode "Scene" NGroup
             [leaf "Cam_Front" (NCamera (mkVec3 0 0 2) (mkQuat 0 0 0 1) 40);
              leaf "Lens" (NMesh (gltf_material "Glass"))])
          (mkVec3 0 1 0).

Lemma reload_roundtrip_witness :
  cameraTargets (load_once Skins.MATTE_BLACK_CLEAR sample_asset 3000
    (load_once Skins.BLUE_JEANS other_asset 2000
       (load_once Skins.MATTE_BLACK_CLEAR sample_asset 1000 loaded_session))) =
  cameraTargets (load_once Skins.MATTE_BLACK_CLEAR sample_asset 1000 loaded_session) /\
  length (gs_materials (glassSys (load_once Skins.MATTE_BLACK_CLEAR sample_asset 1000 loaded_session)))
    = 2%nat.
Proof.
  destruct (reload_roundtrip Skins.MATTE_BLACK_CLEAR Skins.BLUE_JEANS sample_asset other_asset
              1000 2000 3000 loaded_session) as (H1 & _ & _ & H4); [vm_compute; reflexivity|].
  split; [exact H1|]. rewrite H4. vm_compute. reflexivity.
Defined.


End PageWitnesses.
