(* ===== verification/ApplyIdem.v ===== *)
(** * Re-applying a skin (spec section 8, first property)

    [applyConfig] does not rebuild the page's materials in place: each call
    allocates a new frame and arm-text material, a new fake-interior
    material per fake mesh, and re-tunes the glass materials.  What the
    page shows is the material each mesh of the current model points to;
    [model_view] is that list.  [applied_obj] says, for one object of the
    model before the call, what its mesh shows after it
    ([applyConfig_once]).  [page_ok] is an invariant of every page the
    user can reach (mesh slots allocated, a current model that exists, no
    arm-text meshes), so that every such page with a model is ready for
    the call; the theorem of this file (C23) is that a second click on
    the same skin shows exactly what the first one did. *)

From S2P Require Import Prelude Configs Materials GlassAnim Camera Scene Session.

(** What a mesh shows. *)
Definition view_obj (st : Store) (o : SObj) : option Material :=
  match so_kind o with SMesh id => st !! id | _ => None end.

(** What the meshes of the current model show, in traversal order. *)
Definition model_view (s : Session) : list (option Material) :=
  match currentModel s with
  | Some mid => map (view_obj (mats s)) (default [] (models s !! mid))
  | None => []
  end.

(** The fake-interior material a mesh with material [m] gets, if any
    (main.js:401-423). *)
Definition fake_content (c : ModelConfig) (m : Material) : option Material :=
  match fake_texture_of c with
  | Some p => if is_fake_material m then Some (build_fake_material p) else None
  | None => None
  end.

(** What object [o] shows after [applyConfig c] on a store [st] whose
    glass list is [G]: the role traversal, then the fake traversal, then
    the glass loop. *)
Definition applied_obj (c : ModelConfig) (G : list nat) (st : Store) (o : SObj)
  : option Material :=
  match so_kind o with
  | SMesh cur =>
      match name_role (so_name o) with
      | RoleArmText => Some (build_armText_material c)
      | RoleFrame => Some (build_frame_material c)
      | RoleNone =>
          match st !! cur with
          | None => None
          | Some m =>
              match fake_content c m with
              | Some f => Some f
              | None => Some (if bool_decide (cur ∈ G) then update_glass c (logo_texture_of c) m
                              else m)
              end
          end
      end
  | _ => None
  end.

(** The hypotheses of one call: a current model whose mesh slots and glass
    addresses are below the next free address, and no arm-text meshes. *)
Definition apply_ready (G : list nat) (mid : nat) (objs : list SObj) (s : Session) : Prop :=
  currentModel s = Some mid /\ models s !! mid = Some objs /\
  slots_below objs (next_mat s) /\ Forall (fun id => (id < next_mat s)%nat) G /\
  gs_materials (glassSys s) = G /\ armsTextMeshes s = [].

(** ** Material lemmas *)

Lemma update_glass_idem c L m : update_glass c L (update_glass c L m) = update_glass c L m.
Proof. reflexivity. Qed.

Lemma update_glass_name c L m : m_name (update_glass c L m) = m_name m.
Proof. reflexivity. Qed.

Lemma fake_content_update_glass c L m : fake_content c (update_glass c L m) = fake_content c m.
Proof. reflexivity. Qed.

Lemma armText_not_fake c : is_fake_material (build_armText_material c) = false.
Proof. unfold build_armText_material. by destruct (js_true _). Qed.

Lemma frame_not_fake c : is_fake_material (build_frame_material c) = false.
Proof. unfold build_frame_material. by destruct (js_true _). Qed.

Lemma is_fake_update_glass c L m : is_fake_material (update_glass c L m) = is_fake_material m.
Proof. reflexivity. Qed.

Lemma fake_is_fake p : is_fake_material (build_fake_material p) = true.
Proof. reflexivity. Qed.

(** The glass loop on an idempotent update: an address of the list is
    updated, the others are not, however often it occurs. *)
Lemma foldl_store_update_idem f ids st id :
  (forall m, f (f m) = f m) ->
  foldl (fun st gid => store_update f gid st) st ids !! id =
  if bool_decide (id ∈ ids) then f <$> st !! id else st !! id.
Proof.
  intros Hf. revert st. induction ids as [|x rest IH]; intros st; [reflexivity|]. simpl.
  rewrite IH. destruct (decide (x = id)) as [->|Hne].
  - assert (E : store_update f id st !! id = f <$> st !! id).
    { unfold store_update. destruct (st !! id) eqn:Hs; [by rewrite lookup_insert_eq|exact Hs]. }
    rewrite E, (bool_decide_true (id ∈ id :: rest)) by constructor.
    case_bool_decide; [|reflexivity]. destruct (st !! id); simpl; [by rewrite Hf|reflexivity].
  - rewrite store_update_lookup_ne by exact Hne.
    do 2 case_bool_decide; try reflexivity; set_solver.
Qed.

Lemma Forall2_map_eq {A B C} (f : A -> C) (g : B -> C) l1 l2 :
  Forall2 (fun a b => f a = g b) l1 l2 -> map f l1 = map g l2.
Proof. induction 1; simpl; f_equal; auto. Qed.

Lemma Forall2_impl_Forall_l {A B} (P : A -> Prop) (R R' : A -> B -> Prop) l1 l2 :
  Forall2 R l1 l2 -> Forall P l1 -> (forall a b, P a -> R a b -> R' a b) -> Forall2 R' l1 l2.
Proof. induction 1; intros HP HR; inversion HP; subst; constructor; auto. Qed.

(** ** The fake-interior traversal *)

(** How [fake_objs] run from [t] (ending in [t']) maps one object: kept
    when its material is not named [fake], otherwise pointed to a fresh
    fake-interior material. *)
Definition fake_step_rel (p : string) (t t' : Session) (o o' : SObj) : Prop :=
  so_name o' = so_name o /\
  ((o' = o /\
    forall cur, so_kind o = SMesh cur -> default false (is_fake_material <$> mats t !! cur) = false) \/
   (exists cur f, so_kind o = SMesh cur /\
      default false (is_fake_material <$> mats t !! cur) = true /\ so_kind o' = SMesh f /\
      (next_mat t <= f < next_mat t')%nat /\ mats t' !! f = Some (build_fake_material p))).

Lemma fake_step_rel_mono p t t1 t' o o' :
  slots_below [o] (next_mat t) ->
  (forall id, (id < next_mat t)%nat -> mats t1 !! id = mats t !! id) ->
  (next_mat t <= next_mat t1)%nat ->
  fake_step_rel p t1 t' o o' -> fake_step_rel p t t' o o'.
Proof.
  intros Hb Hm Hn (Hname & [(-> & Hk)|(cur & f & Hk & Hf & Hk' & Hr & Hf')]); split; auto.
  - left. split; [reflexivity|]. intros cur Hc. rewrite <- Hm; [by apply Hk|].
    apply (Hb o); [constructor|exact Hc].
  - right. exists cur, f. rewrite <- Hm by (apply (Hb o); [constructor|exact Hk]).
    repeat split; auto; lia.
Qed.

(** Running one step of the traversal, and the case of a kept object. *)
Ltac fake_run :=
  cbn [fake_objs so_kind so_name];
  unfold mbind, M_bind, bind, gets, mret, M_ret, ret, alloc_material;
  cbn -[fake_objs is_fake_material build_fake_material].
Ltac fake_keep Hf :=
  split; [by destruct (fake_objs _ _ _) as [[r|e] tt]|];
  refine (conj (fun _ _ => eq_refl) (conj (le_n _) _)); intros t' _ _;
  split; [reflexivity|left]; split; [reflexivity|];
  intros c' Hc; injection Hc as <-;
  first [exact Hf | match goal with E : mats _ !! _ = _ |- _ => rewrite E; exact Hf end].

Lemma fake_objs_spec p objs : forall t,
  slots_below objs (next_mat t) ->
  exists objs', (fake_objs p objs t).1 = inl objs' /\
    Forall2 (fake_step_rel p t (fake_objs p objs t).2) objs objs' /\
    (forall id, (id < next_mat t)%nat -> mats (fake_objs p objs t).2 !! id = mats t !! id) /\
    (next_mat t <= next_mat (fake_objs p objs t).2)%nat.
Proof.
  induction objs as [|o rest IH]; intros t Hb.
  { exists []. repeat split; auto. }
  assert (Hbr : slots_below rest (next_mat t)).
  { intros o' id Hin. apply Hb. by apply list_elem_of_further. }
  (* the head object and the state after it *)
  assert (Hhead : exists o' t1, fake_objs p (o :: rest) t = 
            (match (fake_objs p rest t1).1 with inl r => inl (o' :: r) | inr e => inr e end,
             (fake_objs p rest t1).2) /\
            (forall id, (id < next_mat t)%nat -> mats t1 !! id = mats t !! id) /\
            (next_mat t <= next_mat t1)%nat /\
            (forall t', (forall id, (id < next_mat t1)%nat -> mats t' !! id = mats t1 !! id) ->
                        (next_mat t1 <= next_mat t')%nat -> fake_step_rel p t t' o o')).
  { destruct o as [nm [pp q fv|cur|]].
    - exists (mkSObj nm (SCamera pp q fv)), t. fake_run.
      split; [by destruct (fake_objs _ _ _) as [[r|e] tt]|].
      refine (conj (fun _ _ => eq_refl) (conj (le_n _) _)). intros t' _ _.
      split; [reflexivity|left]. split; [reflexivity|discriminate].
    - destruct (default false (is_fake_material <$> mats t !! cur)) eqn:Hf.
      + destruct (mats t !! cur) as [m|] eqn:Em; [|discriminate]. simpl in Hf.
        set (t1 := (alloc_material (build_fake_material p) t).2).
        exists (mkSObj nm (SMesh (next_mat t))), t1. fake_run. rewrite Em.
        cbn -[fake_objs is_fake_material build_fake_material]. rewrite Hf.
        split; [by destruct (fake_objs _ _ _) as [[r|e] tt]|].
        split; [intros id Hid; simpl; apply lookup_insert_ne; lia|]. split; [simpl; lia|].
        intros t' Hm Hn. split; [reflexivity|right]. exists cur, (next_mat t).
        rewrite Em. repeat split; auto; simpl in *; try lia.
        rewrite Hm by (simpl; lia). simpl. apply lookup_insert_eq.
      + exists (mkSObj nm (SMesh cur)), t. fake_run.
        destruct (mats t !! cur) as [m|] eqn:Em; simpl in Hf |- *; [rewrite Hf|]; fake_keep Hf.
    - exists (mkSObj nm SOther), t. fake_run.
      split; [by destruct (fake_objs _ _ _) as [[r|e] tt]|].
      refine (conj (fun _ _ => eq_refl) (conj (le_n _) _)). intros t' _ _.
      split; [reflexivity|left]. split; [reflexivity|discriminate]. }
  destruct Hhead as (o' & t1 & E & Hm1 & Hn1 & Hrel).
  destruct (IH t1) as (objs' & Er & Hf & Hm2 & Hn2).
  { intros o0 id Hin Hk. specialize (Hbr o0 id Hin Hk). lia. }
  rewrite E, Er. exists (o' :: objs'). cbn [fst snd]. split; [reflexivity|].
  split; [|split; [intros id Hid; rewrite Hm2 by lia; auto|lia]].
  constructor; [apply Hrel; auto|].
  apply (Forall2_impl_Forall_l (fun a => slots_below [a] (next_mat t)) _ _ _ _ Hf).
  - apply Forall_forall. intros a Ha o0 id Hin Hk. apply list_elem_of_singleton in Hin as ->.
    apply (Hbr a id); [first [exact Ha | by apply list_elem_of_In]|exact Hk].
  - intros a b Ha Hab. apply (fake_step_rel_mono p t t1); auto.
Qed.

(** ** One call of [applyConfig] *)

Lemma bind_inl {A B} (m : M A) (k : A -> M B) s x s' :
  m s = (inl x, s') -> (y ← m; k y) s = k x s'.
Proof. intros E. unfold mbind, M_bind, bind. by rewrite E. Qed.

(** The state after the two allocations and the flags. *)
Definition after_allocs (c : ModelConfig) (s : Session) : Session :=
  exec (set_flags_from c)
    (alloc_material (build_frame_material c)
       (alloc_material (build_armText_material c) s).2).2.

Lemma applyConfig_unfold c s mid :
  currentModel s = Some mid ->
  exec (applyConfig c) s =
  exec (fake_pass c mid;; arms_text_pass c;; glass_update_pass c)
    (set_model_objs mid (assign_roles (next_mat s) (S (next_mat s)) (default [] (models s !! mid)))
       (after_allocs c s)).
Proof.
  intros H. unfold exec at 1, applyConfig.
  rewrite (bind_inl (alloc_material (build_armText_material c)) _ s (next_mat s) _ eq_refl),
    (bind_inl (alloc_material (build_frame_material c)) _
       (alloc_material (build_armText_material c) s).2 (S (next_mat s)) _ eq_refl),
    (bind_inl (set_flags_from c) _
       (alloc_material (build_frame_material c) (alloc_material (build_armText_material c) s).2).2
       tt _ eq_refl),
    (bind_inl (gets currentModel) _ (after_allocs c s) (Some mid) (after_allocs c s)).
  - rewrite (bind_inl (gets (fun s => default [] (models s !! mid))) _ (after_allocs c s) _ _ eq_refl).
    rewrite (bind_inl (modify _) _ (after_allocs c s) tt _ eq_refl). reflexivity.
  - unfold gets. f_equal. f_equal. exact H.
Qed.

(** How the fake traversal maps an object, whether it runs or not. *)
Definition fake_rel_opt (c : ModelConfig) (t tF : Session) (o o' : SObj) : Prop :=
  match fake_texture_of c with
  | Some p => fake_step_rel p t tF o o'
  | None => o' = o
  end.

(** The glass loop of [applyConfig] on a store. *)
Definition glass_loop (c : ModelConfig) (G : list nat) (st : Store) : Store :=
  foldl (fun st gid => store_update (update_glass c (logo_texture_of c)) gid st) st G.

Lemma glass_loop_lookup c G st id :
  glass_loop c G st !! id =
  if bool_decide (id ∈ G) then update_glass c (logo_texture_of c) <$> st !! id else st !! id.
Proof. apply foldl_store_update_idem. intros m. apply update_glass_idem. Qed.

Lemma glass_loop_above c G st n id :
  Forall (fun id => (id < n)%nat) G -> (n <= id)%nat -> glass_loop c G st !! id = st !! id.
Proof.
  intros HG Hid. rewrite glass_loop_lookup. case_bool_decide as Hin; [|reflexivity].
  rewrite Forall_forall in HG. specialize (HG id Hin). lia.
Qed.

(** Where the slot of an object comes from after a call at next free
    address [n]: an arm-text mesh points to [n], a frame or arm mesh to
    [S n], any other mesh to its own slot or to a fake-interior material
    allocated after both. *)
Definition slot_origin (n : nat) (o o' : SObj) : Prop :=
  so_name o' = so_name o /\
  forall id', so_kind o' = SMesh id' ->
    exists cur, so_kind o = SMesh cur /\
      match name_role (so_name o) with
      | RoleArmText => id' = n
      | RoleFrame => id' = S n
      | RoleNone => id' = cur \/ (S (S n) <= id')%nat
      end.

Lemma role_obj_name a f o : so_name (role_obj a f o) = so_name o.
Proof. unfold role_obj. destruct (so_kind o); [reflexivity| |reflexivity]. by destruct (name_role _). Qed.

Lemma obj_slot_origin c t tF n o o' :
  mats t !! n = Some (build_armText_material c) -> mats t !! S n = Some (build_frame_material c) ->
  next_mat t = S (S n) -> fake_rel_opt c t tF (role_obj n (S n) o) o' -> slot_origin n o o'.
Proof.
  intros HA HF Hnt Hrel.
  assert (Hself : slot_origin n o (role_obj n (S n) o)).
  { split; [apply role_obj_name|]. intros id' Hk. unfold role_obj in Hk |- *.
    destruct (so_kind o) as [| cur |] eqn:Ek; [rewrite Ek in Hk; discriminate| |rewrite Ek in Hk; discriminate].
    exists cur. split; [reflexivity|].
    destruct (name_role (so_name o)); cbn in Hk; [injection Hk as <-; reflexivity
      |injection Hk as <-; reflexivity|rewrite Ek in Hk; injection Hk as <-; by left]. }
  unfold fake_rel_opt in Hrel. destruct (fake_texture_of c) as [p|]; [|subst o'; exact Hself].
  destruct Hrel as (Hname & [(-> & _)|(cur & f & Hk & Hf & Hk' & Hfr & _)]); [exact Hself|].
  split; [rewrite Hname; apply role_obj_name|]. intros id' Hid. rewrite Hk' in Hid. injection Hid as <-.
  unfold role_obj in Hk, Hf.
  destruct (so_kind o) as [| c0 |] eqn:Ek; [rewrite Ek in Hk; discriminate| |rewrite Ek in Hk; discriminate].
  exists c0. split; [reflexivity|].
  destruct (name_role (so_name o)); cbn [so_kind] in Hk;
    first [injection Hk as <- | rewrite Ek in Hk; injection Hk as <-].
  - rewrite HA in Hf. simpl in Hf. by rewrite armText_not_fake in Hf.
  - rewrite HF in Hf. simpl in Hf. by rewrite frame_not_fake in Hf.
  - right. lia.
Qed.

(** One object through the three passes of a call. *)
Lemma obj_after_apply c G s t tF o o' :
  slots_below [o] (next_mat s) -> Forall (fun id => (id < next_mat s)%nat) G ->
  mats t = <[S (next_mat s) := build_frame_material c]>
             (<[next_mat s := build_armText_material c]> (mats s)) ->
  next_mat t = S (S (next_mat s)) ->
  (forall id, (id < next_mat t)%nat -> mats tF !! id = mats t !! id) ->
  (next_mat t <= next_mat tF)%nat ->
  fake_rel_opt c t tF (role_obj (next_mat s) (S (next_mat s)) o) o' ->
  view_obj (glass_loop c G (mats tF)) o' = applied_obj c G (mats s) o /\
  applied_obj c G (glass_loop c G (mats tF)) o' = applied_obj c G (mats s) o /\
  (forall id, so_kind o' = SMesh id -> (id < next_mat tF)%nat).
Proof.
  intros Hb HG Hmt Hnt HmF HnF Hrel.
  set (n := next_mat s) in *.
  assert (Hlt : forall id, (id < n)%nat -> mats t !! id = mats s !! id).
  { intros id Hid. rewrite Hmt, !lookup_insert_ne by lia. reflexivity. }
  assert (HA : mats t !! n = Some (build_armText_material c)).
  { rewrite Hmt, lookup_insert_ne, lookup_insert_eq by lia. reflexivity. }
  assert (HF : mats t !! S n = Some (build_frame_material c)).
  { rewrite Hmt, lookup_insert_eq. reflexivity. }
  (* an object whose new slot is not a fake one keeps it *)
  assert (Hkeep : forall oR, (forall cur, so_kind oR = SMesh cur ->
                    default false (is_fake_material <$> mats t !! cur) = false) ->
                  fake_rel_opt c t tF oR o' -> o' = oR).
  { intros oR Hnf Hr. unfold fake_rel_opt in Hr. destruct (fake_texture_of c); [|exact Hr].
    destruct Hr as (_ & [(-> & _)|(cur & f & Hk & Hf & _)]); [reflexivity|].
    rewrite (Hnf cur Hk) in Hf. discriminate. }
  destruct o as [nm [pp q fv|cur|]].
  - assert (Ho' : o' = mkSObj nm (SCamera pp q fv))
      by (apply Hkeep; [intros ? H; discriminate H | exact Hrel]). subst o'.
    split; [reflexivity|split; [reflexivity|intros ? H; discriminate H]].
  - assert (Hcur : (cur < n)%nat) by (apply (Hb (mkSObj nm (SMesh cur)) cur); [constructor|reflexivity]).
    unfold role_obj in Hrel. cbn [so_kind so_name] in Hrel.
    destruct (name_role nm) eqn:Hr.
    + assert (Ho' : o' = mkSObj nm (SMesh n)) by
        (apply Hkeep; [intros ? H; injection H as <-; rewrite HA; apply armText_not_fake
                      | exact Hrel]). subst o'.
      unfold view_obj, applied_obj; cbn [so_kind so_name]. rewrite Hr.
      rewrite glass_loop_above with (n := n), HmF, HA by (auto; lia).
      repeat split; auto. intros id Hid. injection Hid as <-. lia.
    + assert (Ho' : o' = mkSObj nm (SMesh (S n))) by
        (apply Hkeep; [intros ? H; injection H as <-; rewrite HF; apply frame_not_fake
                      | exact Hrel]). subst o'.
      unfold view_obj, applied_obj; cbn [so_kind so_name]. rewrite Hr.
      rewrite glass_loop_above with (n := n), HmF, HF by (auto; lia).
      repeat split; auto. intros id Hid. injection Hid as <-. lia.
    + assert (Hgl : glass_loop c G (mats tF) !! cur =
                (fun m => if bool_decide (cur ∈ G) then update_glass c (logo_texture_of c) m else m)
                <$> mats s !! cur).
      { rewrite glass_loop_lookup, HmF, Hlt by lia. case_bool_decide; by destruct (mats s !! cur). }
      assert (Hslot : forall id, so_kind (mkSObj nm (SMesh cur)) = SMesh id -> (id < next_mat tF)%nat)
        by (intros id Hid; injection Hid as <-; lia).
      unfold fake_rel_opt in Hrel. unfold fake_content.
      destruct (fake_texture_of c) as [p|] eqn:Hp.
      * destruct Hrel as (Hname & [(-> & Hnf)|(cur' & f & Hk & Hf & Hk' & Hfr & Hff)]).
        -- specialize (Hnf cur eq_refl). rewrite Hlt in Hnf by exact Hcur.
           unfold view_obj, applied_obj; cbn [so_kind so_name]. rewrite Hr, Hgl.
           destruct (mats s !! cur) as [m|]; simpl in Hnf |- *; [|auto].
           unfold fake_content. rewrite Hp, Hnf.
           case_bool_decide; rewrite ?is_fake_update_glass, Hnf; auto.
        -- injection Hk as <-. rewrite Hlt in Hf by exact Hcur.
           destruct (mats s !! cur) as [m|] eqn:Em; simpl in Hf; [|discriminate].
           unfold view_obj, applied_obj. rewrite Hk'. cbn [so_kind so_name]. rewrite Hname, Hr, Em.
           rewrite glass_loop_above with (n := n), Hff by (auto; lia).
           unfold fake_content. rewrite Hp, Hf, fake_is_fake.
           cbn [so_name]. rewrite Hr. split; [reflexivity|split; [reflexivity|]]. intros id Hid. injection Hid as <-. lia.
      * subst o'. unfold view_obj, applied_obj; cbn [so_kind so_name]. rewrite Hr, Hgl.
        destruct (mats s !! cur); simpl; [|auto]. unfold fake_content. rewrite Hp.
        case_bool_decide; auto.
  - assert (Ho' : o' = mkSObj nm SOther)
      by (apply Hkeep; [intros ? H; discriminate H | exact Hrel]). subst o'.
    split; [reflexivity|split; [reflexivity|intros ? H; discriminate H]].
Qed.

(** The fields the fake traversal and the last two loops leave alone. *)
Definition apply_fields (mo : gmap nat (list SObj)) (cm : option nat) (g : GlassSys)
    (ar : list (nat * nat)) (s : Session) : Prop :=
  models s = mo /\ currentModel s = cm /\ glassSys s = g /\ armsTextMeshes s = ar.

Lemma fake_objs_fields mo cm g ar p objs : preserves (apply_fields mo cm g ar) (fake_objs p objs).
Proof. induction objs as [|o rest IH]; simpl; field_solve. Qed.

(** The list of disposed materials, which neither [applyConfig] nor the
    loader's traversal touches. *)
Definition disposed_is (d : list nat) (s : Session) : Prop := disposedMaterials s = d.

Lemma fake_objs_disposed d p objs : preserves (disposed_is d) (fake_objs p objs).
Proof. induction objs as [|o rest IH]; simpl; field_solve. Qed.

#[local] Hint Resolve fake_objs_disposed : page.

Lemma applyConfig_disposed d c : preserves (disposed_is d) (applyConfig c).
Proof. unfold applyConfig, fake_pass, set_flags_from, arms_text_pass, glass_update_pass. field_solve. Qed.

Lemma Forall2_map_l' {A B C} (f : A -> B) (R : B -> C -> Prop) l1 l2 :
  Forall2 R (map f l1) l2 -> Forall2 (fun a b => R (f a) b) l1 l2.
Proof.
  revert l2; induction l1 as [|a l1 IH]; intros l2 H; inversion H; subst; constructor; auto.
Qed.

Lemma Forall2_Forall_r' {A B} (P : B -> Prop) (R : A -> B -> Prop) l1 l2 :
  Forall2 R l1 l2 -> (forall a b, R a b -> P b) -> Forall P l2.
Proof. induction 1; constructor; eauto. Qed.

(** The fake pass as a whole, whether the skin has a fake texture or not. *)
Lemma fake_pass_exec c mid objsR t (k : M unit) :
  models t !! mid = Some objsR -> slots_below objsR (next_mat t) ->
  exists objsF tF,
    exec (fake_pass c mid;; k) t = exec k (set_model_objs mid objsF tF) /\
    Forall2 (fake_rel_opt c t tF) objsR objsF /\
    (forall id, (id < next_mat t)%nat -> mats tF !! id = mats t !! id) /\
    (next_mat t <= next_mat tF)%nat /\
    apply_fields (models t) (currentModel t) (glassSys t) (armsTextMeshes t) tF.
Proof.
  intros Hm Hb. unfold fake_rel_opt. destruct (fake_texture_of c) as [p|] eqn:Hp.
  - destruct (fake_objs_spec p objsR t Hb) as (objsF & Er & Hrel & Hmb & Hn).
    exists objsF, (fake_objs p objsR t).2. split; [|split; [exact Hrel|split; [exact Hmb|split; [exact Hn|]]]].
    + unfold exec at 1, fake_pass. rewrite Hp.
      rewrite (bind_inl (objs ← gets (fun s => default [] (models s !! mid));
                         objs' ← fake_objs p objs; modify (set_model_objs mid objs')) _ t tt
                 (set_model_objs mid objsF (fake_objs p objsR t).2)); [reflexivity|].
      rewrite (bind_inl (gets (fun s => default [] (models s !! mid))) _ t objsR t)
        by (unfold gets; by rewrite Hm).
      unfold mbind at 1, M_bind at 1, bind at 1.
      destruct (fake_objs p objsR t) as [r tt'] eqn:E. cbn [fst] in Er. subst r. reflexivity.
    + apply fake_objs_fields. repeat split.
  - exists objsR, t. repeat split; auto.
    + unfold exec at 1, fake_pass. rewrite Hp.
      rewrite (bind_inl (mret tt) _ t tt t eq_refl).
      assert (E : set_model_objs mid objsR t = t).
      { unfold set_model_objs. rewrite insert_id by exact Hm. by destruct t. }
      by rewrite E.
    + clear. induction objsR; constructor; auto.
Qed.

(** The arm-text loop (empty) and the glass loop. *)
Lemma arms_glass_exec c u :
  armsTextMeshes u = [] ->
  mats (exec (arms_text_pass c;; glass_update_pass c) u) =
    glass_loop c (gs_materials (glassSys u)) (mats u) /\
  next_mat (exec (arms_text_pass c;; glass_update_pass c) u) = next_mat u /\
  apply_fields (models u) (currentModel u) (glassSys u) [] (exec (arms_text_pass c;; glass_update_pass c) u).
Proof.
  intros H. unfold exec, arms_text_pass, glass_update_pass. simpl. rewrite H. simpl.
  repeat split; auto.
Qed.

(** One call: the meshes show [applied_obj] of the objects before it, the
    hypotheses hold again, and [applied_obj] on the new objects and store
    gives the same as on the old ones. *)
Lemma applyConfig_once c G mid objs s :
  apply_ready G mid objs s ->
  exists objs1,
    apply_ready G mid objs1 (exec (applyConfig c) s) /\
    map (view_obj (mats (exec (applyConfig c) s))) objs1 = map (applied_obj c G (mats s)) objs /\
    map (applied_obj c G (mats (exec (applyConfig c) s))) objs1 = map (applied_obj c G (mats s)) objs /\
    (forall mid', mid' <> mid -> models (exec (applyConfig c) s) !! mid' = models s !! mid') /\
    (S (S (next_mat s)) <= next_mat (exec (applyConfig c) s))%nat /\
    Forall2 (slot_origin (next_mat s)) objs objs1 /\
    (forall id, (id < next_mat s)%nat -> id ∉ G -> mats (exec (applyConfig c) s) !! id = mats s !! id) /\
    mats (exec (applyConfig c) s) !! next_mat s = Some (build_armText_material c) /\
    mats (exec (applyConfig c) s) !! S (next_mat s) = Some (build_frame_material c).
Proof.
  intros (Hcm & Hmo & Hb & HG & Hgs & Har).
  rewrite (applyConfig_unfold c s mid Hcm), Hmo. change (default [] (Some objs)) with objs.
  set (t := set_model_objs mid (assign_roles (next_mat s) (S (next_mat s)) objs) (after_allocs c s)).
  assert (Hbt : slots_below (assign_roles (next_mat s) (S (next_mat s)) objs) (next_mat t)).
  { intros o' id Hin Hk. unfold assign_roles in Hin. apply list_elem_of_In, in_map_iff in Hin
      as (o & <- & Hin). apply list_elem_of_In in Hin. simpl.
    unfold role_obj in Hk. destruct (so_kind o) as [| cur |] eqn:Ek; try (specialize (Hb o id Hin Hk); lia).
    specialize (Hb o cur Hin Ek).
    destruct (name_role (so_name o)); cbn in Hk;
      first [injection Hk as <-; simpl; lia | rewrite Ek in Hk; injection Hk as <-; simpl; lia]. }
  destruct (fake_pass_exec c mid _ t (arms_text_pass c;; glass_update_pass c)
              (lookup_insert_eq _ _ _) Hbt) as (objsF & tF & -> & Hrel & HmF & HnF & (Hmo' & Hcm' & Hg' & Har')).
  destruct (arms_glass_exec c (set_model_objs mid objsF tF)) as (Hm2 & Hn2 & (Hmo2 & Hcm2 & Hg2 & Har2));
    [simpl; rewrite Har'; exact Har|].
  set (s2 := exec (arms_text_pass c;; glass_update_pass c) (set_model_objs mid objsF tF)) in *.
  cbn [mats next_mat models currentModel glassSys set_model_objs] in Hm2, Hn2, Hmo2, Hcm2, Hg2.
  rewrite Hg' in Hm2. replace (glassSys t) with (glassSys s) in Hm2 by reflexivity. rewrite Hgs in Hm2.
  (* every object of the model through the three passes *)
  assert (Hall : Forall2 (fun o o' =>
      view_obj (glass_loop c G (mats tF)) o' = applied_obj c G (mats s) o /\
      applied_obj c G (glass_loop c G (mats tF)) o' = applied_obj c G (mats s) o /\
      (forall id, so_kind o' = SMesh id -> (id < next_mat tF)%nat)) objs objsF).
  { apply (Forall2_impl_Forall_l (fun o => slots_below [o] (next_mat s)) _ _ _ _
             (Forall2_map_l' _ _ _ _ Hrel)).
    - apply Forall_forall. intros o Ho o0 id Hin Hk. apply list_elem_of_singleton in Hin as ->.
      apply (Hb o id); [first [exact Ho | by apply list_elem_of_In] | exact Hk].
    - intros o o' Ho H. apply (obj_after_apply c G s t tF o o' Ho HG); auto. }
  assert (Hmt : mats t = <[S (next_mat s) := build_frame_material c]>
                          (<[next_mat s := build_armText_material c]> (mats s))) by reflexivity.
  assert (Hnt : next_mat t = S (S (next_mat s))) by reflexivity.
  assert (Hlow : forall id, (id < S (S (next_mat s)))%nat -> id ∉ G ->
            glass_loop c G (mats tF) !! id = mats t !! id).
  { intros id Hid HnG. rewrite glass_loop_lookup, bool_decide_false by exact HnG.
    apply HmF. rewrite Hnt. exact Hid. }
  assert (HGn : forall id, (next_mat s <= id)%nat -> id ∉ G).
  { intros id Hid Hin. rewrite Forall_forall in HG. specialize (HG id Hin). lia. }
  exists objsF. rewrite Hm2. split; [|split; [|split; [|split; [|split; [|split; [|split; [|split]]]]]]].
  - repeat split.
    + rewrite Hcm2, Hcm'. exact Hcm.
    + rewrite Hmo2. apply lookup_insert_eq.
    + intros o' id Hin Hk. rewrite Hn2.
      pose proof (Forall2_Forall_r' _ _ _ _ Hall (fun a b H => proj2 (proj2 H))) as Hs.
      rewrite Forall_forall in Hs. by apply (Hs o').
    + rewrite Hn2. eapply Forall_impl; [exact HG|]. intros id Hid. change (next_mat t) with (S (S (next_mat s))) in HnF. cbv beta in Hid. lia.
    + rewrite Hg2, Hg'. exact Hgs.
    + exact Har2.
  - symmetry. apply Forall2_map_eq. eapply Forall2_impl; [exact Hall|]. intros a b H. symmetry. apply H.
  - symmetry. apply Forall2_map_eq. eapply Forall2_impl; [exact Hall|]. intros a b H. symmetry. apply H.
  - intros mid' Hne. rewrite Hmo2, lookup_insert_ne by congruence. rewrite Hmo'.
    change (models t) with (<[mid := assign_roles (next_mat s) (S (next_mat s)) objs]> (models s)).
    by rewrite lookup_insert_ne by congruence.
  - rewrite Hn2. change (next_mat t) with (S (S (next_mat s))) in HnF. simpl. lia.
  - eapply Forall2_impl; [exact (Forall2_map_l' _ _ _ _ Hrel)|]. intros o o'.
    apply (obj_slot_origin c t tF); [rewrite Hmt, lookup_insert_ne, lookup_insert_eq by lia
                                    |rewrite Hmt, lookup_insert_eq| ]; reflexivity.
  - intros id Hid HnG. rewrite Hlow by (auto; lia). rewrite Hmt, !lookup_insert_ne by lia. reflexivity.
  - rewrite Hlow by (auto; lia). rewrite Hmt, lookup_insert_ne, lookup_insert_eq by lia. reflexivity.
  - rewrite Hlow by (auto; lia). rewrite Hmt, lookup_insert_eq. reflexivity.
Qed.

(** Two calls on a ready state show what one call shows. *)
Lemma applyConfig_idem_ready c s mid objs :
  apply_ready (gs_materials (glassSys s)) mid objs s ->
  model_view (exec (applyConfig c) (exec (applyConfig c) s)) = model_view (exec (applyConfig c) s) /\
  glassSys (exec (applyConfig c) (exec (applyConfig c) s)) = glassSys (exec (applyConfig c) s).
Proof.
  intros H.
  destruct (applyConfig_once c _ mid objs s H) as (objs1 & H1 & Hv1 & Ha1 & _).
  destruct (applyConfig_once c _ mid objs1 _ H1) as (objs2 & (Hc2 & Hm2 & _) & Hv2 & _).
  destruct H1 as (Hc1 & Hm1 & _).
  split.
  - unfold model_view. rewrite Hc2, Hc1, Hm2, Hm1.
    change (default [] (Some objs2)) with objs2. change (default [] (Some objs1)) with objs1.
    rewrite Hv2, Ha1, Hv1. reflexivity.
  - destruct (applyConfig_keeps (glassSys (exec (applyConfig c) s)) (cam (exec (applyConfig c) s)) c
                (exec (applyConfig c) s) (conj eq_refl eq_refl)) as [Hg _].
    exact Hg.
Qed.

(** ** Every state the page reaches is ready for [applyConfig] *)

(** The page invariant: the store invariant, no arm-text meshes, every
    mesh slot of every model below the next free address, and a current
    model that is one of the models. *)
Definition page_ok (s : Session) : Prop :=
  session_wf s /\ armsTextMeshes s = [] /\
  (forall mid objs, models s !! mid = Some objs -> slots_below objs (next_mat s)) /\
  (forall mid, currentModel s = Some mid -> is_Some (models s !! mid)).

Lemma slots_below_mono objs n n' : slots_below objs n -> (n <= n')%nat -> slots_below objs n'.
Proof. intros H Hn o id Hin Hk. specialize (H o id Hin Hk). lia. Qed.

(** The glass addresses of a well-formed state are below the next one. *)
Lemma wf_glass_below s :
  session_wf s -> Forall (fun id => (id < next_mat s)%nat) (gs_materials (glassSys s)).
Proof.
  intros (Hf & _ & Hall & _). eapply Forall_impl; [exact Hall|]. intros id Hid. by apply Hf.
Qed.

Lemma page_ok_ready s mid :
  page_ok s -> currentModel s = Some mid ->
  exists objs, apply_ready (gs_materials (glassSys s)) mid objs s.
Proof.
  intros (Hw & Har & Hsl & Hcur) Hcm. destruct (Hcur mid Hcm) as [objs Hobjs].
  exists objs. repeat split; eauto using wf_glass_below.
Qed.

(** [applyConfig] without a current model only allocates. *)
Lemma applyConfig_no_model c s :
  currentModel s = None ->
  models (exec (applyConfig c) s) = models s /\ currentModel (exec (applyConfig c) s) = None /\
  (next_mat s <= next_mat (exec (applyConfig c) s))%nat /\
  (forall id, (id < next_mat s)%nat -> mats (exec (applyConfig c) s) !! id = mats s !! id).
Proof.
  intros H. unfold exec, applyConfig, mbind, M_bind, bind. simpl. rewrite H. simpl.
  split; [auto|split; [auto|split; [lia|]]].
  intros id Hid. rewrite !lookup_insert_ne by lia. reflexivity.
Qed.

Lemma applyConfig_page_ok c s : page_ok s -> page_ok (exec (applyConfig c) s).
Proof.
  intros Hok. pose proof Hok as (Hw & Har & Hsl & Hcur).
  split; [apply applyConfig_wf, Hw|]. split; [apply applyConfig_arms, Har|].
  destruct (currentModel s) as [mid|] eqn:Hcm.
  - destruct (page_ok_ready s mid Hok Hcm) as (objs & Hr).
    destruct (applyConfig_once c _ mid objs s Hr) as (objs1 & (Hc1 & Hm1 & Hb1 & _) & _ & _ & Hoth & Hn & _).
    split.
    + intros mid' objs' Hm'. destruct (decide (mid' = mid)) as [->|Hne].
      * rewrite Hm1 in Hm'. injection Hm' as <-. exact Hb1.
      * rewrite Hoth in Hm' by exact Hne. eapply slots_below_mono; [apply (Hsl _ _ Hm')|lia].
    + intros mid' Hc'. rewrite Hc1 in Hc'. injection Hc' as <-. by rewrite Hm1.
  - destruct (applyConfig_no_model c s Hcm) as (Hm & Hc & Hn & _). split.
    + intros mid' objs' Hm'. rewrite Hm in Hm'. eapply slots_below_mono; [apply (Hsl _ _ Hm')|exact Hn].
    + rewrite Hc. discriminate.
Qed.

(** The loader's traversal returns objects whose slots are below the next
    free address. *)
Lemma load_obj_slot c center o s :
  exists o', (load_obj c center o s).1 = inl o' /\
    (forall id, so_kind o' = SMesh id -> so_kind o = SMesh id \/
                (next_mat s <= id < next_mat (load_obj c center o s).2)%nat) /\
    (next_mat s <= next_mat (load_obj c center o s).2)%nat /\
    (forall id, id ∈ gs_materials (glassSys (load_obj c center o s).2) ->
                id ∈ gs_materials (glassSys s) \/ (next_mat s <= id)%nat).
Proof.
  unfold load_obj. destruct o as [nm [p q f|cur|]]; cbn [so_kind so_name].
  - exists (mkSObj nm (SCamera p q f)). split; [reflexivity|]. split; [auto|simpl; split; [lia|auto]].
  - unfold mbind, M_bind, bind, gets. cbn [fst snd].
    destruct (default false (is_glass_material <$> mats s !! cur)).
    + exists (mkSObj nm (SMesh (next_mat s))). simpl. split; [reflexivity|].
      split; [intros id Hid; injection Hid as <-; right; lia|split; [lia|]].
      intros id Hid. apply elem_of_app in Hid as [Hid|Hid]; [by left|right].
      apply list_elem_of_singleton in Hid. lia.
    + exists (mkSObj nm (SMesh cur)). split; [reflexivity|]. split; [auto|simpl; split; [lia|auto]].
  - exists (mkSObj nm SOther). split; [reflexivity|]. split; [auto|simpl; split; [lia|auto]].
Qed.

Lemma load_pass_cons c center o rest s o' s1 :
  load_obj c center o s = (inl o', s1) ->
  load_pass c center (o :: rest) s =
    (match (load_pass c center rest s1).1 with inl r => inl (o' :: r) | inr e => inr e end,
     (load_pass c center rest s1).2).
Proof.
  intros E. cbn [load_pass]. unfold mbind at 1, M_bind at 1, bind at 1. rewrite E.
  unfold mbind, M_bind, bind. by destruct (load_pass c center rest s1) as [[r|e] s2].
Qed.

(** The slots and glass addresses the traversal adds are at or above any
    bound [lo] the next free address has reached. *)
Lemma load_pass_fresh c center lo objs : forall s objs',
  (lo <= next_mat s)%nat ->
  (forall o id, o ∈ objs -> so_kind o = SMesh id -> (lo <= id)%nat) ->
  (load_pass c center objs s).1 = inl objs' ->
  (forall o id, o ∈ objs' -> so_kind o = SMesh id -> (lo <= id)%nat) /\
  (forall id, id ∈ gs_materials (glassSys (load_pass c center objs s).2) ->
              id ∈ gs_materials (glassSys s) \/ (lo <= id)%nat).
Proof.
  induction objs as [|o rest IH]; intros s objs' Hlo Hb Er.
  { injection Er as <-. split; [intros o id Hin; by apply elem_of_nil in Hin|auto]. }
  destruct (load_obj_slot c center o s) as (o' & Eo & Ho' & Hn1 & Hg1).
  destruct (load_obj c center o s) as [r s1] eqn:E. cbn [fst snd] in Eo, Ho', Hn1, Hg1. subst r.
  rewrite (load_pass_cons c center o rest s o' s1 E) in Er |- *. cbn [fst snd] in Er |- *.
  destruct (load_pass c center rest s1) as [[rs|e] s2] eqn:Er2; [|discriminate].
  injection Er as <-.
  destruct (IH s1 rs) as (Hr & Hg); [lia|intros o0 id Hin; apply Hb; by right|by rewrite Er2|].
  rewrite Er2 in Hg. cbn [snd] in Hg. split.
  - intros o0 id Hin Hk. apply elem_of_cons in Hin as [->|Hin]; [|eauto].
    destruct (Ho' id Hk) as [Hk0|Hlt]; [apply (Hb o id); [left|exact Hk0]|lia].
  - intros id Hid. destruct (Hg id Hid) as [Hin|]; [|by right].
    destruct (Hg1 id Hin); [by left|right; lia].
Qed.

Lemma load_pass_slots c center objs : forall s,
  slots_below objs (next_mat s) ->
  exists objs', (load_pass c center objs s).1 = inl objs' /\
    slots_below objs' (next_mat (load_pass c center objs s).2) /\
    (next_mat s <= next_mat (load_pass c center objs s).2)%nat.
Proof.
  induction objs as [|o rest IH]; intros s Hb.
  { exists []. split; [reflexivity|]. split; [intros o id Hin; by apply elem_of_nil in Hin|simpl; lia]. }
  destruct (load_obj_slot c center o s) as (o' & Eo & Ho' & Hn1 & _).
  destruct (load_obj c center o s) as [r s1] eqn:E. cbn [fst snd] in Eo, Ho', Hn1. subst r.
  destruct (IH s1) as (objs' & Er & Hb' & Hn2).
  { eapply slots_below_mono; [|exact Hn1]. intros o0 id Hin Hk. apply (Hb o0 id); [by right|exact Hk]. }
  assert (Hstep : load_pass c center (o :: rest) s =
                  (inl (o' :: objs'), (load_pass c center rest s1).2)).
  { cbn [load_pass]. unfold mbind at 1, M_bind at 1, bind at 1. rewrite E.
    rewrite bind_ret_state, Er. reflexivity. }
  rewrite Hstep. exists (o' :: objs'). split; [reflexivity|]. cbn [snd]. split; [|lia].
  intros o0 id Hin Hk. apply elem_of_cons in Hin as [->|Hin]; [|eauto].
  destruct (Ho' id Hk) as [Hk0|Hlt]; [|lia].
  specialize (Hb o id ltac:(left) Hk0). lia.
Qed.

(** The fields the loader's traversal leaves alone. *)
Definition model_ids (mo : gmap nat (list SObj)) (cm : option nat) (s : Session) : Prop :=
  models s = mo /\ currentModel s = cm.

Lemma load_pass_ids mo cm c center objs : preserves (model_ids mo cm) (load_pass c center objs).
Proof. induction objs as [|o rest IH]; simpl; [field_solve|]. unfold load_obj. field_solve. Qed.

Lemma load_pass_disposed d c center objs : preserves (disposed_is d) (load_pass c center objs).
Proof. induction objs as [|o rest IH]; simpl; [field_solve|]. unfold load_obj. field_solve. Qed.

(** The loader's callback is a prefix (instantiate the model, the glass
    traversal, the camera) followed by [applyConfig]: the prefix keeps the
    page invariant, adds one model whose slots are all fresh, writes no
    address that was allocated before it and adds only fresh glass
    addresses. *)
Lemma load_callback_split `{ThreeOps} c a now s :
  page_ok s ->
  exists t2 objs', exec (load_callback c a now) s = exec (applyConfig c) t2 /\ page_ok t2 /\
    models t2 = <[next_model s := objs']> (models s) /\
    (forall o id, o ∈ objs' -> so_kind o = SMesh id -> (next_mat s <= id)%nat) /\
    (forall id, (id < next_mat s)%nat -> mats t2 !! id = mats s !! id) /\
    disposedMaterials t2 = disposedMaterials s /\
    (forall id, id ∈ gs_materials (glassSys t2) -> id ∈ gs_materials (glassSys s) \/ (next_mat s <= id)%nat) /\
    (next_mat s <= next_mat t2)%nat.
Proof.
  intros (Hw & Har & Hsl & Hcur).
  pose proof (add_model_wf a s Hw) as Hw0. pose proof (add_model_arms a s Har) as Har0.
  unfold exec at 1, load_callback. unfold mbind at 1, M_bind at 1, bind at 1.
  unfold add_model in Hw0, Har0 |- *.
  destruct (instantiate (traverse (asset_root a)) (mats s) (next_mat s)) as [[os st] n'] eqn:Ei.
  destruct (instantiate_spec _ _ _ _ _ _ Ei) as (Hnn & Hst & Hslot & _ & _).
  cbv beta iota zeta in Hw0, Har0 |- *.
  match goal with |- context [((_ ≫= _) ?t).2] => set (t0 := t) in * end.
  unfold mbind at 1, M_bind at 1, bind at 1, gets at 1. cbv beta iota.
  change (models t0) with (<[next_model s := os]> (models s)). rewrite lookup_insert_eq.
  change (default [] (Some os)) with os.
  assert (Hb0 : slots_below os (next_mat t0)).
  { intros o id Hin Hk. specialize (Hslot o id Hin Hk). simpl. lia. }
  destruct (load_pass_slots c (asset_center a) os t0 Hb0) as (objs' & Er & Hb' & Hn1).
  destruct (load_pass_fresh c (asset_center a) (next_mat s) os t0 objs' Hnn
              (fun o id Hin Hk => proj1 (Hslot o id Hin Hk)) Er) as (Hfr & Hgl).
  destruct (load_pass_ids (models t0) (currentModel t0) c (asset_center a) os t0 (conj eq_refl eq_refl))
    as [Hmo1 Hcm1].
  destruct (load_pass_effect c (asset_center a) os t0 Hb0) as (_ & _ & Hm1 & _).
  pose proof (load_pass_disposed (disposedMaterials s) c (asset_center a) os t0 eq_refl) as Hd1.
  pose proof (load_pass_wf c (asset_center a) os t0 Hw0) as Hw1.
  pose proof (load_pass_arms c (asset_center a) os t0 Har0) as Har1.
  unfold mbind at 1, M_bind at 1, bind at 1.
  destruct (load_pass c (asset_center a) os t0) as [r t1] eqn:El. cbn [fst snd] in *. subst r.
  rewrite (bind_inl (modify (set_model_objs (next_model s) objs')) _ t1 tt _ eq_refl).
  rewrite (bind_inl (modify _) _ _ tt _ eq_refl).
  eexists _, objs'. split; [reflexivity|].
  split; [|split; [|split; [exact Hfr|split; [|split; [exact Hd1|split]]]]].
  - split; [exact Hw1|]. split; [exact Har1|]. split.
    + intros mid objs Hm. cbn [models set_cam set_model_objs] in Hm.
      destruct (decide (mid = next_model s)) as [->|Hne].
      * rewrite lookup_insert_eq in Hm. injection Hm as <-. exact Hb'.
      * rewrite lookup_insert_ne, Hmo1 in Hm by congruence.
        change (models t0) with (<[next_model s := os]> (models s)) in Hm.
        rewrite lookup_insert_ne in Hm by congruence.
        eapply slots_below_mono; [apply (Hsl _ _ Hm)|]. simpl. simpl in Hn1. lia.
    + intros mid Hc. cbn [currentModel set_cam set_model_objs] in Hc. rewrite Hcm1 in Hc.
      simpl in Hc. injection Hc as <-. simpl. rewrite lookup_insert_eq. eauto.
  - cbn [models set_cam set_model_objs]. rewrite Hmo1. apply insert_insert_eq.
  - intros id Hid. simpl. rewrite Hm1 by (simpl; lia). simpl. apply Hst, Hid.
  - exact Hgl.
  - simpl. simpl in Hn1. lia.
Qed.

Lemma load_callback_page_ok `{ThreeOps} c a now s : page_ok s -> page_ok (exec (load_callback c a now) s).
Proof.
  intros Hok. destruct (load_callback_split c a now s Hok) as (t2 & objs' & -> & Hok2 & _).
  apply applyConfig_page_ok, Hok2.
Qed.

Lemma page_ok_fields s s' :
  page_ok s -> session_wf s' -> armsTextMeshes s' = [] -> models s' = models s ->
  (next_mat s <= next_mat s')%nat -> currentModel s' = currentModel s -> page_ok s'.
Proof.
  intros (_ & _ & Hsl & Hcur) Hw Har Hm Hn Hc. split; [exact Hw|]. split; [exact Har|]. split.
  - intros mid objs Hmo. rewrite Hm in Hmo. eapply slots_below_mono; [apply (Hsl _ _ Hmo)|exact Hn].
  - intros mid Hcm. rewrite Hm. apply Hcur. congruence.
Qed.

Lemma step_page_ok `{ThreeOps} ev s : page_ok s -> page_ok (exec (step ev) s).
Proof.
  intros Hok. pose proof Hok as (Hw & Har & Hsl & Hcur).
  pose proof (step_wf ev s Hw) as Hw'. pose proof (step_arms ev s Har) as Har'.
  fold (exec (step ev) s) in Hw', Har'.
  destruct ev as [c|nm now|time now|c|k a now|k].
  - rewrite exec_click. apply applyConfig_page_ok. exact Hok.
  - exact Hok.
  - apply (page_ok_fields s); auto; rewrite exec_frame; cbv zeta;
      destruct (glass_frame _ _ _ _ _ _); reflexivity.
  - change (exec (step (CallLoadModel c)) s) with (exec (loadModel_request c) s) in *.
    destruct (loadModel_request_model c s) as (_ & Hcm & _ & _).
    apply (page_ok_fields s); auto; unfold exec; simpl; by destruct (currentModel s).
  - rewrite exec_loaddone. destruct (pending s !! k); [|exact Hok].
    apply load_callback_page_ok. exact Hok.
  - change (exec (step (LoadFailed k)) s) with (set_pending (delete k (pending s)) s). exact Hok.
Qed.

Lemma run_page_ok `{ThreeOps} evs : page_ok (run evs page_start).
Proof.
  apply (run_invariant page_ok); [intros ev; apply step_page_ok|]. split; [apply page_start_wf|]. split; [reflexivity|]. split.
  - intros mid objs Hm. vm_compute in Hm. discriminate.
  - intros mid Hc. vm_compute in Hc. discriminate.
Qed.

(** C23: on any page the user can reach, once a model is loaded, clicking
    the same skin button twice shows exactly what clicking it once does:
    every mesh of the current model ends with the same material contents,
    and the rest values of the glass are untouched (spec section 8:
    [applyConfig] is idempotent, no drift in rest colour or opacity).  The
    second click allocates new frame, arm-text and fake materials; only
    their contents are equal. *)
Theorem skin_twice_same_view `{ThreeOps} evs c :
  currentModel (run evs page_start) <> None ->
  model_view (run (evs ++ [ClickSkin c; ClickSkin c]) page_start) =
    model_view (run (evs ++ [ClickSkin c]) page_start) /\
  glassSys (run (evs ++ [ClickSkin c; ClickSkin c]) page_start) =
    glassSys (run (evs ++ [ClickSkin c]) page_start).
Proof.
  intros Hcm. unfold run. rewrite !foldl_app. cbn [foldl]. fold (run evs page_start).
  set (s := run evs page_start) in *.
  destruct (currentModel s) as [mid|] eqn:Hc; [|contradiction].
  destruct (page_ok_ready s mid (run_page_ok evs) Hc) as (objs & Hr).
  rewrite !exec_click.
  destruct (applyConfig_once c _ mid objs (set_config c s) Hr) as (objs1 & H1 & Hv1 & Ha1 & _).
  set (s1 := exec (applyConfig c) (set_config c s)) in *.
  destruct (applyConfig_once c _ mid objs1 (set_config c s1) H1) as (objs2 & (Hc2 & Hm2 & _) & Hv2 & _).
  destruct H1 as (Hc1 & Hm1 & _).
  split.
  - unfold model_view. rewrite Hc2, Hm2, Hc1, Hm1.
    change (default [] (Some objs2)) with objs2. change (default [] (Some objs1)) with objs1.
    change (mats (set_config c s1)) with (mats s1) in Hv2.
    rewrite Hv2, Ha1, <- Hv1. reflexivity.
  - destruct (applyConfig_keeps (glassSys s1) (cam s1) c (set_config c s1) (conj eq_refl eq_refl))
      as [Hg _].
    exact Hg.
Qed.

(** C19: on any page the user can reach with a model loaded, a skin button
    re-tunes each glass material in place: the new skin's colour, opacity
    and gradient-or-nothing alpha map, while its roughness and metalness
    stay those it was built with when the model loaded (main.js:465-476).
    A skin chosen after the load therefore does not get its own glass
    roughness and metalness, which a load with it would give (spec
    section 4.4: materials are rebuilt from the new config). *)
Theorem skin_click_retunes_glass `{ThreeOps} evs c i id m :
  currentModel (run evs page_start) <> None ->
  gs_materials (glassSys (run evs page_start)) !! i = Some id ->
  mats (run evs page_start) !! id = Some m ->
  exists m', mats (run (evs ++ [ClickSkin c]) page_start) !! id = Some m' /\
    m_color m' = glass_color (glass c) /\ m_opacity m' = glass_opacity (glass c) /\
    m_alphaMap m' = (if js_true (gradient (glass c)) then Some gradientTexture else None) /\
    m_roughness m' = m_roughness m /\ m_metalness m' = m_metalness m.
Proof.
  intros Hcm Hi Hm. unfold run. rewrite foldl_app. cbn [foldl]. fold (run evs page_start).
  destruct (run_page_ok evs) as (Hw & Har & _).
  exact (skin_click_retunes_glass_wf c _ i id m Hw Har Hcm Hi Hm).
Qed.

Section ApplyWitness.
#[local] Existing Instance witness_ops.

(** The page after the initial load, then Matte Black Clear twice. *)
Lemma skin_twice_same_view_witness :
  model_view (run ([LoadDone 0 sample_asset 500] ++
                   [ClickSkin Skins.MATTE_BLACK_CLEAR; ClickSkin Skins.MATTE_BLACK_CLEAR]) page_start) =
  model_view (run ([LoadDone 0 sample_asset 500] ++ [ClickSkin Skins.MATTE_BLACK_CLEAR]) page_start).
Proof.
  destruct (@skin_twice_same_view witness_ops [LoadDone 0 sample_asset 500] Skins.MATTE_BLACK_CLEAR)
    as [H _]; [vm_compute; discriminate|exact H].
Defined.

(** After the initial Cosmic Blue load, Matte Black Clear (glass
    metalness 0.9) leaves the first lens at Cosmic Blue's 0.5. *)
Lemma skin_click_retunes_glass_witness :
  exists m', mats (run ([LoadDone 0 sample_asset 500] ++ [ClickSkin Skins.MATTE_BLACK_CLEAR]) page_start)
               !! 8%nat = Some m' /\
    m_color m' = glass_color (glass Skins.MATTE_BLACK_CLEAR) /\
    m_opacity m' = glass_opacity (glass Skins.MATTE_BLACK_CLEAR) /\
    m_alphaMap m' = None /\
    m_roughness m' = glass_roughness (glass Skins.SHINY_COSMIC_BLUE) /\
    m_metalness m' = glass_metalness (glass Skins.SHINY_COSMIC_BLUE).
Proof.
  destruct (skin_click_retunes_glass [LoadDone 0 sample_asset 500] Skins.MATTE_BLACK_CLEAR 0 8
              (update_glass Skins.SHINY_COSMIC_BLUE (logo_texture_of Skins.SHINY_COSMIC_BLUE)
                 (build_glass_material Skins.SHINY_COSMIC_BLUE
                    (Some (logo_texture_of Skins.SHINY_COSMIC_BLUE)))))
    as (m' & H1 & H2 & H3 & H4 & H5 & H6).
  - vm_compute. discriminate.
  - vm_compute. reflexivity.
  - vm_compute. reflexivity.
  - exists m'. repeat split; assumption.
Defined.

End ApplyWitness.
