(* ===== verification/GlassCycle.v ===== *)
(** * The glass phase cycle keeps turning

    While the gating camera stays active, each [animate] call adds the
    clock's delta to [glassAnim.timer] (main.js:766-768) and runs the
    [switch] of main.js:772-834 once per glass material.  [phase_next] is
    what one pass of the [switch] does to [glassAnim]; a phase change
    resets the timer to 0, so the later materials of the same frame never
    change the phase again ([glass_forEach_phase]): whatever the number of
    lenses, a frame moves the phase by the abstract machine [anim_advance]
    ([glass_frame_anim]).  Timers are rationals, so two runs agree up to
    [anim_eq] (the same phase, timers equal as numbers), and the machine
    respects it ([Proper] instances below).

    The theorem of this file (C26) is liveness with a bound: with frames
    [h] milliseconds apart, every phase hands over to the next one within
    [cycle_bound h] frames, so the cycle waitGreen, toClear, waitClear,
    toGreen never stalls. *)

From Stdlib Require Import Qround.
From S2P Require Import Prelude Configs Materials GlassAnim.

(** The order of the phases in the [switch]. *)
Definition next_phase (p : GlassPhase) : GlassPhase :=
  match p with
  | waitGreen => toClear
  | toClear => waitClear
  | waitClear => toGreen
  | toGreen => waitGreen
  end.

(** One pass of the [switch] on [glassAnim], without the material writes
    (main.js:772-834). *)
Definition phase_next (a : GlassAnimState) : GlassAnimState :=
  match ga_state a with
  | waitGreen => if Qltb anim_waitGreen (ga_timer a) then mkGlassAnim toClear 0 else a
  | toClear =>
      if Qle_bool 1 (progress (ga_timer a) anim_duration) then mkGlassAnim waitClear 0 else a
  | waitClear => if Qltb anim_waitClear (ga_timer a) then mkGlassAnim toGreen 0 else a
  | toGreen =>
      if Qle_bool 1 (progress (ga_timer a) anim_duration) then mkGlassAnim waitGreen 0 else a
  end.

(** An animated frame on the phase: [glassAnim.timer += delta], then the
    [switch] (main.js:766-834). *)
Definition anim_advance (delta : Q) (a : GlassAnimState) : GlassAnimState :=
  phase_next (mkGlassAnim (ga_state a) (ga_timer a + delta)).

Fixpoint anim_run (delta : Q) (k : nat) (a : GlassAnimState) : GlassAnimState :=
  match k with
  | O => a
  | S k => anim_run delta k (anim_advance delta a)
  end.

(** [k] display frames [h] milliseconds apart, after time [t]. *)
Fixpoint frame_times (t h : Q) (k : nat) : list Q :=
  match k with
  | O => []
  | S k => (t + h) :: frame_times (t + h) h k
  end.

(** Frames enough for any phase to end: the longest phase lasts
    [anim_duration] = 1.5 s, less than 2000 ms. *)
Definition cycle_bound (h : Q) : nat := S (Z.to_nat (Qceiling (2000 / h))).

(** Two animation states that agree as numbers. *)
Definition anim_eq (a b : GlassAnimState) : Prop := ga_state a = ga_state b /\ ga_timer a == ga_timer b.

(** ** The machine respects the numbers *)

#[export] Instance anim_eq_equivalence : Equivalence anim_eq.
Proof.
  split.
  - intros a. split; reflexivity.
  - intros a b [H1 H2]. split; symmetry; assumption.
  - intros a b c [H1 H2] [H3 H4]. split; [congruence|]. rewrite H2. exact H4.
Qed.

#[export] Instance Qltb_proper : Proper (Qeq ==> Qeq ==> eq) Qltb.
Proof. intros a a' Ha b b' Hb. apply eq_true_iff_eq. rewrite !Qltb_spec. split; intros; lra. Qed.

#[export] Instance Qle_bool_proper : Proper (Qeq ==> Qeq ==> eq) Qle_bool.
Proof. intros a a' Ha b b' Hb. apply eq_true_iff_eq. rewrite !Qle_bool_iff. split; intros; lra. Qed.

#[export] Instance phase_next_proper : Proper (anim_eq ==> anim_eq) phase_next.
Proof.
  intros [p t] [p' t'] [Hp Ht]. cbn in Hp, Ht. subst p'. unfold phase_next. cbn [ga_state ga_timer].
  destruct p; rewrite Ht; case_match; split; cbn; auto; reflexivity.
Qed.

#[export] Instance anim_advance_proper : Proper (Qeq ==> anim_eq ==> anim_eq) anim_advance.
Proof.
  intros d d' Hd [p t] [p' t'] [Hp Ht]. cbn in Hp, Ht. subst p'. unfold anim_advance.
  apply phase_next_proper. split; cbn; [reflexivity|]. rewrite Ht, Hd. reflexivity.
Qed.

#[export] Instance anim_run_proper : Proper (Qeq ==> eq ==> anim_eq ==> anim_eq) anim_run.
Proof.
  intros d d' Hd k k' <-. induction k as [|k IH]; intros a a' Ha; [exact Ha|].
  cbn [anim_run]. apply IH. rewrite Hd, Ha. reflexivity.
Qed.

(** ** The loop over the lenses *)

Lemma glass_mat_step_phase oc oo id a mats : (glass_mat_step oc oo id a mats).1 = phase_next a.
Proof. unfold glass_mat_step, phase_next. destruct (ga_state a); cbv zeta; by case_match. Qed.

(** After a phase change the timer is 0, below every threshold. *)
Lemma phase_next_idem a : phase_next (phase_next a) = phase_next a.
Proof.
  destruct a as [p t]. unfold phase_next at 2. cbn [ga_state ga_timer].
  destruct p; case_match eqn:E; try reflexivity; unfold phase_next; cbn [ga_state ga_timer]; by rewrite E.
Qed.

Lemma glass_forEach_phase ocs oos i ids a mats :
  ids <> [] -> (glass_forEach ocs oos i ids a mats).1 = phase_next a.
Proof.
  revert i a mats. induction ids as [|id rest IH]; intros i a mats Hne; [congruence|].
  cbn [glass_forEach].
  pose proof (glass_mat_step_phase (orig_color ocs i) (orig_opacity oos i) id a mats) as E.
  destruct (glass_mat_step _ _ _ _ _) as [a' mats']. cbn [fst] in E. subst a'.
  destruct rest as [|id' rest']; [reflexivity|]. rewrite IH by discriminate. apply phase_next_idem.
Qed.

Lemma should_animate_nonempty en (l : list nat) act gate :
  shouldAnimateGlass en (length l) act gate = true -> l <> [].
Proof. intros H ->. unfold shouldAnimateGlass in H. destruct en; discriminate. Qed.

(** One animated frame with the clock running. *)
Lemma glass_frame_anim en act gate now gs mats :
  shouldAnimateGlass en (length (gs_materials gs)) act gate = true -> clk_running (gs_clock gs) = true ->
  gs_anim (glass_frame en act gate now gs mats).1 =
    anim_advance ((now - clk_oldTime (gs_clock gs)) / 1000) (gs_anim gs) /\
  clk_running (gs_clock (glass_frame en act gate now gs mats).1) = true /\
  clk_oldTime (gs_clock (glass_frame en act gate now gs mats).1) = now /\
  gs_materials (glass_frame en act gate now gs mats).1 = gs_materials gs.
Proof.
  intros Hs Hc. pose proof (should_animate_nonempty _ _ _ _ Hs) as Hne.
  unfold glass_frame. rewrite Hs. unfold getDelta. rewrite Hc. cbv zeta.
  match goal with |- context [glass_forEach ?o1 ?o2 ?i ?ids ?a ?m] =>
    pose proof (glass_forEach_phase o1 o2 i ids a m Hne) as E;
    destruct (glass_forEach o1 o2 i ids a m) as [a' m'] end.
  cbn [fst] in E. subst a'. repeat split.
Qed.

Lemma glass_frames_anim en act gate h k : forall t gs mats,
  shouldAnimateGlass en (length (gs_materials gs)) act gate = true ->
  clk_running (gs_clock gs) = true -> clk_oldTime (gs_clock gs) = t ->
  anim_eq (gs_anim (glass_frames en act gate (frame_times t h k) gs mats).1)
          (anim_run (h / 1000) k (gs_anim gs)).
Proof.
  induction k as [|k IH]; intros t gs mats Hs Hc Ht; [reflexivity|].
  cbn [frame_times glass_frames anim_run].
  destruct (glass_frame_anim en act gate (t + h) gs mats Hs Hc) as (Ha & Hc' & Ht' & Hm).
  destruct (glass_frame en act gate (t + h) gs mats) as [gs' mats'].
  cbn [fst] in Ha, Hc', Ht', Hm.
  rewrite (IH (t + h) gs' mats'); [|rewrite Hm; exact Hs|exact Hc'|exact Ht'].
  rewrite Ha, Ht. apply anim_run_proper; [reflexivity|reflexivity|].
  apply anim_advance_proper; [field|reflexivity].
Qed.

(** ** The abstract machine never stalls *)

Lemma anim_run_S d k a : anim_run d (S k) a = anim_advance d (anim_run d k a).
Proof. revert a. induction k as [|k IH]; intros a; [reflexivity|]. cbn [anim_run] in *. apply IH. Qed.

(** A pass of the [switch] either moves to the next phase or leaves the
    state alone, with a timer at most [anim_duration]. *)
Lemma phase_next_cases p t :
  ga_state (phase_next (mkGlassAnim p t)) = next_phase p \/
  (phase_next (mkGlassAnim p t) = mkGlassAnim p t /\ t <= 3 # 2).
Proof.
  unfold phase_next. cbn [ga_state ga_timer].
  destruct p; case_match eqn:E; [left; reflexivity| |left; reflexivity| |left; reflexivity| |left; reflexivity|];
    (right; split; [reflexivity|]);
    first [ apply Qltb_false in E; unfold anim_waitGreen, anim_waitClear in E; lra
          | rewrite <- not_true_iff_false, Qle_bool_iff, progress_one_iff in E;
            [unfold anim_duration in E; lra | unfold anim_duration; lra] ].
Qed.

Lemma Q_of_nat_S k : inject_Z (Z.of_nat (S k)) == inject_Z (Z.of_nat k) + 1.
Proof. rewrite Nat2Z.inj_succ, <- Z.add_1_r, inject_Z_plus. reflexivity. Qed.

Lemma anim_run_progress d a k :
  (exists j, (j <= k)%nat /\ ga_state (anim_run d j a) = next_phase (ga_state a)) \/
  (ga_state (anim_run d k a) = ga_state a /\
   ga_timer (anim_run d k a) == ga_timer a + inject_Z (Z.of_nat k) * d /\
   (k = 0%nat \/ ga_timer (anim_run d k a) <= 3 # 2)).
Proof.
  induction k as [|k [(j & Hj & Hp)|(Hp & Ht & _)]].
  - right. split; [reflexivity|]. split; [simpl; ring|auto].
  - left. exists j. split; [lia|exact Hp].
  - rewrite anim_run_S. unfold anim_advance. rewrite Hp.
    destruct (phase_next_cases (ga_state a) (ga_timer (anim_run d k a) + d)) as [Hn|[Hn Hle]].
    + left. exists (S k). split; [lia|]. rewrite anim_run_S. unfold anim_advance. rewrite Hp. exact Hn.
    + right. rewrite Hn. cbn [ga_state ga_timer]. split; [reflexivity|]. split; [|right; exact Hle].
      rewrite Ht, Q_of_nat_S. ring.
Qed.

(** [cycle_bound h] frames of [h / 1000] seconds last more than 1.5 s. *)
Lemma cycle_bound_long h : 0 < h -> 3 # 2 < inject_Z (Z.of_nat (cycle_bound h)) * (h / 1000).
Proof.
  intros Hh. unfold cycle_bound. rewrite Q_of_nat_S.
  assert (HY : 2000 / h * h == 2000) by (field; lra).
  assert (Hpos : 0 < 2000 / h) by (apply Qlt_shift_div_l; lra).
  pose proof (Qle_ceiling (2000 / h)) as Hce.
  assert (Hz : (0 <= Qceiling (2000 / h))%Z) by (rewrite Zle_Qle; change (inject_Z 0) with 0; lra).
  rewrite Z2Nat.id by exact Hz.
  set (Y := 2000 / h) in *. set (X := inject_Z (Qceiling Y)) in *.
  assert (HXh : Y * h <= X * h) by (apply Qmult_le_compat_r; lra).
  assert (E : (X + 1) * (h / 1000) == (X * h + h) / 1000) by field.
  rewrite E. apply Qlt_shift_div_l; [lra|]. lra.
Qed.

(** C26: while the gating camera stays active and the clock runs, frames
    [h] milliseconds apart ([h] > 0) take any phase of the glass cycle to
    the next one within [cycle_bound h] frames (at most 2000 / h + 1, about
    121 frames at 60 Hz), whatever the number of lenses: the cycle
    waitGreen, toClear, waitClear, toGreen never stalls (spec section 6:
    the four phases repeat while the camera is active). *)
Theorem glass_cycle_progress en act gate t h gs mats :
  shouldAnimateGlass en (length (gs_materials gs)) act gate = true ->
  clk_running (gs_clock gs) = true -> clk_oldTime (gs_clock gs) = t ->
  0 < h -> 0 <= ga_timer (gs_anim gs) ->
  exists k, (1 <= k <= cycle_bound h)%nat /\
    ga_state (gs_anim (glass_frames en act gate (frame_times t h k) gs mats).1) =
      next_phase (ga_state (gs_anim gs)).
Proof.
  intros Hs Hc Ht Hh H0.
  destruct (anim_run_progress (h / 1000) (gs_anim gs) (cycle_bound h))
    as [(j & Hj & Hp)|(_ & Ht' & [Hz|Hle])].
  - destruct j as [|j]; [cbn [anim_run] in Hp; destruct (ga_state (gs_anim gs)); discriminate|].
    exists (S j). split; [lia|].
    destruct (glass_frames_anim en act gate h (S j) t gs mats Hs Hc Ht) as [Hst _].
    rewrite Hst. exact Hp.
  - discriminate.
  - exfalso. pose proof (cycle_bound_long h Hh) as Hl. rewrite Ht' in Hle.
    set (P := inject_Z (Z.of_nat (cycle_bound h)) * (h / 1000)) in *. lra.
Qed.

(** Two lenses fading to clear, frames at 60 Hz: the fade ends and the
    lenses wait clear within the bound. *)
Import GlassWitness.

Lemma glass_cycle_progress_witness :
  exists k, (1 <= k <= cycle_bound (1000 # 60))%nat /\
    ga_state (gs_anim (glass_frames true lenses lenses (frame_times 1000 (1000 # 60) k)
                         two_lenses store2).1) = waitClear.
Proof.
  destruct (glass_cycle_progress true lenses lenses 1000 (1000 # 60) two_lenses store2)
    as (k & Hk & Hp); [vm_compute; reflexivity|vm_compute; reflexivity|vm_compute; reflexivity
                      |vm_compute; reflexivity|vm_compute; discriminate|].
  exists k. split; [exact Hk|exact Hp].
Defined.
