(* ===== verification/Leak.v ===== *)
(** * Materials a skin click leaves behind

    Each call of [applyConfig] builds a new frame and a new arm-text
    material (main.js:258-300, 302-370) and points the frame, arm and
    temple meshes at them; the materials those meshes pointed to before
    are neither disposed nor referenced again.  The only disposal of the
    page is the "clean last model" traversal of [loadModel]
    (main.js:136-149, [dispose_current]), which disposes the materials the
    current model's meshes point to at that moment.

    [orphan x m s] says that address [x] of the material store holds [m],
    has been allocated, is not in the disposed list, is not a glass
    material, and no mesh of any model points to it.  Every event keeps it
    ([step_orphan]), so an orphan stays allocated and undisposed for the
    rest of the session: a GPU resource leak.  [leak_ok] adds to the page
    invariant of [ApplyIdem] that every disposed address was allocated.
    The theorem of this file (C25) is that the second skin click orphans
    the frame and arm-text materials the first one built. *)

From S2P Require Import Prelude Configs Materials GlassAnim Camera Scene Session ApplyIdem.

(** An allocated material that nothing points to and nothing disposed. *)
Definition orphan (x : nat) (m : Material) (s : Session) : Prop :=
  (x < next_mat s)%nat /\ mats s !! x = Some m /\ (x ∉ disposedMaterials s) /\
  (x ∉ gs_materials (glassSys s)) /\
  (forall mid objs, models s !! mid = Some objs -> x ∉ mesh_materials objs).

(** Every disposed address was allocated. *)
Definition disposed_below (s : Session) : Prop :=
  Forall (fun d => (d < next_mat s)%nat) (disposedMaterials s).

Definition leak_ok (s : Session) : Prop := page_ok s /\ disposed_below s.

(** ** Slots and where they come from *)

Lemma mesh_materials_elem objs x :
  x ∈ mesh_materials objs <-> exists o, o ∈ objs /\ so_kind o = SMesh x.
Proof.
  unfold mesh_materials. rewrite list_elem_of_In, in_flat_map. split.
  - intros (o & Ho & Hx). exists o. split; [by apply list_elem_of_In|].
    destruct (so_kind o); simpl in Hx; [contradiction| |contradiction].
    destruct Hx as [->|[]]. reflexivity.
  - intros (o & Ho & Hk). exists o. split; [by apply list_elem_of_In|]. rewrite Hk. by left.
Qed.

Lemma mesh_materials_below objs n :
  slots_below objs n -> Forall (fun d => (d < n)%nat) (mesh_materials objs).
Proof.
  intros Hb. apply Forall_forall. intros x (o & Ho & Hk)%mesh_materials_elem. exact (Hb o x Ho Hk).
Qed.

Lemma Forall2_elem_r {A B} (R : A -> B -> Prop) l1 l2 b :
  Forall2 R l1 l2 -> b ∈ l2 -> exists a, a ∈ l1 /\ R a b.
Proof.
  induction 1 as [|a b' xs ys Hab _ IH]; intros Hin; [by apply elem_of_nil in Hin|].
  apply elem_of_cons in Hin as [->|Hin]; [exists a; split; [left|exact Hab]|].
  destruct (IH Hin) as (a' & Ha' & HR). exists a'. split; [by right|exact HR].
Qed.

(** A mesh of no role keeps its slot or gets a fake-interior material
    allocated after the call's two. *)
Lemma slot_origin_none n o o1 y :
  slot_origin n o o1 -> name_role (so_name o) = RoleNone -> so_kind o1 = SMesh y ->
  exists cur, so_kind o = SMesh cur /\ (y = cur \/ (S (S n) <= y)%nat).
Proof. intros (_ & H) Hr Hk. destruct (H y Hk) as (cur & Hc & Hy). rewrite Hr in Hy. eauto. Qed.

(** A slot below the call's first address is one the object already had. *)
Lemma slot_origin_old n o o1 y :
  slot_origin n o o1 -> so_kind o1 = SMesh y -> (y < n)%nat ->
  so_kind o = SMesh y /\ name_role (so_name o) = RoleNone.
Proof.
  intros (_ & H) Hk Hy. destruct (H y Hk) as (cur & Hc & Hr).
  destruct (name_role (so_name o)); [lia|lia|]. destruct Hr as [->|]; [auto|lia].
Qed.

(** After two calls, no mesh points to the two materials the first one
    built. *)
Lemma slot_origin_twice n n1 o o1 o2 y :
  slot_origin n o o1 -> slot_origin n1 o1 o2 -> (S (S n) <= n1)%nat ->
  slots_below [o] n -> so_kind o2 = SMesh y -> y <> n /\ y <> S n.
Proof.
  intros H1 H2 Hn Hb Hk.
  assert (Hy : y = n \/ y = S n -> False).
  { intros Hy. destruct (slot_origin_old n1 o1 o2 y H2 Hk) as [Hk1 Hr1]; [lia|].
    rewrite (proj1 H1) in Hr1.
    destruct (slot_origin_none n o o1 y H1 Hr1 Hk1) as (cur & Hc & [->|Hge]); [|lia].
    assert (Hcur : (cur < n)%nat) by (apply (Hb o); [constructor|exact Hc]). lia. }
  split; intros ->; apply Hy; auto.
Qed.

(** ** What the events do to the disposed list *)

Lemma loadModel_request_effect c s :
  mats (exec (loadModel_request c) s) = mats s /\
  next_mat (exec (loadModel_request c) s) = next_mat s /\
  models (exec (loadModel_request c) s) = models s /\
  gs_materials (glassSys (exec (loadModel_request c) s)) = [] /\
  disposedMaterials (exec (loadModel_request c) s) =
    disposedMaterials s ++ match currentModel s with
                           | Some id => mesh_materials (default [] (models s !! id))
                           | None => [] end.
Proof.
  unfold exec; simpl. destruct (currentModel s) eqn:E;
    unfold set_pending, reset_for_load, set_scene, set_gating; simpl; rewrite ?E, ?app_nil_r; auto.
Qed.

Lemma applyConfig_disposed_eq c s :
  disposedMaterials (exec (applyConfig c) s) = disposedMaterials s.
Proof. exact (applyConfig_disposed _ c s eq_refl). Qed.

Lemma applyConfig_glass_eq c s : glassSys (exec (applyConfig c) s) = glassSys s.
Proof. exact (proj1 (applyConfig_keeps (glassSys s) (cam s) c s (conj eq_refl eq_refl))). Qed.

Lemma applyConfig_next_mono c s : page_ok s -> (next_mat s <= next_mat (exec (applyConfig c) s))%nat.
Proof.
  intros Hok. destruct (currentModel s) as [mid|] eqn:Hcm.
  - destruct (page_ok_ready s mid Hok Hcm) as (objs & Hr).
    destruct (applyConfig_once c _ mid objs s Hr) as (objs1 & _ & _ & _ & _ & Hn & _). lia.
  - destruct (applyConfig_no_model c s Hcm) as (_ & _ & Hn & _). exact Hn.
Qed.

Lemma disposed_below_mono s s' :
  disposed_below s -> disposedMaterials s' = disposedMaterials s ->
  (next_mat s <= next_mat s')%nat -> disposed_below s'.
Proof.
  intros Hd Hds Hn. unfold disposed_below. rewrite Hds.
  eapply Forall_impl; [exact Hd|]. cbv beta. lia.
Qed.

Lemma step_leak_ok `{ThreeOps} ev s : leak_ok s -> leak_ok (exec (step ev) s).
Proof.
  intros [Hok Hd]. split; [apply step_page_ok, Hok|].
  destruct ev as [c|nm now|time now|c|k a now|k].
  - rewrite exec_click. apply (disposed_below_mono (set_config c s)); [exact Hd|apply applyConfig_disposed_eq|].
    apply applyConfig_next_mono, Hok.
  - exact Hd.
  - rewrite exec_frame. cbv zeta. destruct (glass_frame _ _ _ _ _ _). exact Hd.
  - change (exec (step (CallLoadModel c)) s) with (exec (loadModel_request c) s).
    destruct (loadModel_request_effect c s) as (_ & Hn & _ & _ & Hdm).
    unfold disposed_below. rewrite Hn, Hdm. apply Forall_app. split; [exact Hd|].
    destruct Hok as (_ & _ & Hsl & _).
    destruct (currentModel s) as [mid|]; [|constructor].
    destruct (models s !! mid) as [objs|] eqn:Hm; [|constructor].
    apply mesh_materials_below, (Hsl mid), Hm.
  - rewrite exec_loaddone. destruct (pending s !! k) as [c|]; [|exact Hd].
    destruct (load_callback_split c a now (set_pending (delete k (pending s)) s) Hok)
      as (t2 & objs' & -> & Hok2 & _ & _ & _ & Hd2 & _ & Hn2).
    apply (disposed_below_mono t2); [|apply applyConfig_disposed_eq|apply applyConfig_next_mono, Hok2].
    exact (disposed_below_mono _ _ Hd Hd2 Hn2).
  - exact Hd.
Qed.

Lemma run_leak_ok `{ThreeOps} evs : leak_ok (run evs page_start).
Proof.
  apply (run_invariant leak_ok); [intros ev s; apply step_leak_ok|].
  split; [apply (run_page_ok [])|]. unfold disposed_below. vm_compute. constructor.
Qed.

(** ** Orphans stay orphans *)

Lemma applyConfig_orphan c x m s : page_ok s -> orphan x m s -> orphan x m (exec (applyConfig c) s).
Proof.
  intros Hok (Hx & Hm & Hd & Hg & Hr).
  pose proof (applyConfig_disposed_eq c s) as Hd'. pose proof (applyConfig_glass_eq c s) as Hg'.
  destruct (currentModel s) as [mid|] eqn:Hcm.
  - destruct (page_ok_ready s mid Hok Hcm) as (objs & Hr0).
    pose proof Hr0 as (_ & Hmo & _).
    destruct (applyConfig_once c _ mid objs s Hr0)
      as (objs1 & (_ & Hm1 & _) & _ & _ & Hoth & Hn & Horig & Hkeep & _).
    refine (conj _ (conj _ (conj _ (conj _ _)))).
    + lia.
    + rewrite Hkeep; [exact Hm|exact Hx|exact Hg].
    + rewrite Hd'. exact Hd.
    + rewrite Hg'. exact Hg.
    + intros mid' objs' Hm'. destruct (decide (mid' = mid)) as [->|Hne].
      * rewrite Hm1 in Hm'. injection Hm' as <-.
        intros (o1 & Ho1 & Hk1)%mesh_materials_elem.
        destruct (Forall2_elem_r _ _ _ _ Horig Ho1) as (o & Ho & Hso).
        destruct (slot_origin_old _ _ _ _ Hso Hk1 Hx) as [Hk _].
        apply (Hr mid objs Hmo). apply mesh_materials_elem. eauto.
      * rewrite Hoth in Hm' by exact Hne. exact (Hr _ _ Hm').
  - destruct (applyConfig_no_model c s Hcm) as (Hmo & _ & Hn & Hkeep).
    refine (conj _ (conj _ (conj _ (conj _ _)))); [lia|rewrite Hkeep; auto|rewrite Hd'; exact Hd
                                                 |rewrite Hg'; exact Hg|].
    intros mid objs. rewrite Hmo. apply Hr.
Qed.

Lemma step_orphan `{ThreeOps} ev x m s : page_ok s -> orphan x m s -> orphan x m (exec (step ev) s).
Proof.
  intros Hok Ho. pose proof Ho as (Hx & Hm & Hd & Hg & Hr).
  destruct ev as [c|nm now|time now|c|k a now|k].
  - rewrite exec_click. apply applyConfig_orphan; [exact Hok|exact Ho].
  - exact Ho.
  - rewrite exec_frame. cbv zeta.
    match goal with |- context [glass_frame ?e ?a ?g ?n ?gs ?st] =>
      pose proof (glass_frame_other e a g n gs st x Hg) as Hst;
      pose proof (glass_frame_shape e a g n gs st) as (HG & _);
      destruct (glass_frame e a g n gs st) as [g' st'] end.
    simpl in Hst, HG. unfold orphan. simpl.
    refine (conj Hx (conj _ (conj Hd (conj _ Hr)))); [rewrite Hst; exact Hm|rewrite HG; exact Hg].
  - change (exec (step (CallLoadModel c)) s) with (exec (loadModel_request c) s).
    destruct (loadModel_request_effect c s) as (Hm' & Hn & Hmo & HG & Hdm).
    refine (conj _ (conj _ (conj _ (conj _ _)))).
    + rewrite Hn. exact Hx.
    + rewrite Hm'. exact Hm.
    + rewrite Hdm. apply not_elem_of_app. split; [exact Hd|].
      destruct (currentModel s) as [mid|]; [|apply not_elem_of_nil].
      destruct (models s !! mid) as [objs|] eqn:Hmid; [exact (Hr mid objs Hmid)|apply not_elem_of_nil].
    + rewrite HG. apply not_elem_of_nil.
    + intros mid objs. rewrite Hmo. apply Hr.
  - rewrite exec_loaddone. destruct (pending s !! k) as [c|]; [|exact Ho].
    destruct (load_callback_split c a now (set_pending (delete k (pending s)) s) Hok)
      as (t2 & objs' & -> & Hok2 & Hmo2 & Hfr & Hm2 & Hd2 & Hg2 & Hn2).
    apply applyConfig_orphan; [exact Hok2|].
    refine (conj _ (conj _ (conj _ (conj _ _)))).
    + simpl in Hn2. lia.
    + rewrite Hm2 by exact Hx. exact Hm.
    + rewrite Hd2. exact Hd.
    + intros Hin. destruct (Hg2 x Hin) as [Hin'|Hle]; [exact (Hg Hin')|simpl in Hle; lia].
    + intros mid objs Hmid. rewrite Hmo2 in Hmid. simpl in Hmid.
      destruct (decide (mid = next_model s)) as [->|Hne].
      * rewrite lookup_insert_eq in Hmid. injection Hmid as <-.
        intros (o & Ho' & Hk)%mesh_materials_elem. specialize (Hfr o x Ho' Hk). simpl in Hfr. lia.
      * rewrite lookup_insert_ne in Hmid by congruence. exact (Hr _ _ Hmid).
  - exact Ho.
Qed.

Lemma run_orphan `{ThreeOps} evs s x m : leak_ok s -> orphan x m s -> orphan x m (run evs s).
Proof.
  intros Hl Ho.
  enough (H2 : leak_ok (run evs s) /\ orphan x m (run evs s)) by exact (proj2 H2).
  apply (run_invariant (fun s => leak_ok s /\ orphan x m s)); [|split; assumption].
  intros ev s' [Hl' Ho']. split; [apply step_leak_ok, Hl'|apply step_orphan; [apply Hl'|exact Ho']].
Qed.

(** ** Two skin clicks *)

Lemma second_click_orphans s c1 c2 :
  leak_ok s -> currentModel s <> None ->
  orphan (next_mat s) (build_armText_material c1)
    (exec (applyConfig c2) (set_config c2 (exec (applyConfig c1) (set_config c1 s)))) /\
  orphan (S (next_mat s)) (build_frame_material c1)
    (exec (applyConfig c2) (set_config c2 (exec (applyConfig c1) (set_config c1 s)))).
Proof.
  intros [Hok Hd] Hcm. destruct (currentModel s) as [mid|] eqn:Hc; [|contradiction].
  destruct (page_ok_ready s mid Hok Hc) as (objs & Hr).
  pose proof Hr as (_ & _ & Hb & HG & _).
  destruct Hok as (_ & _ & Hsl & _).
  destruct (applyConfig_once c1 _ mid objs (set_config c1 s) Hr)
    as (objs1 & H1 & _ & _ & Hoth1 & Hn1 & Horig1 & _ & HA1 & HF1).
  set (s1 := exec (applyConfig c1) (set_config c1 s)) in *.
  destruct (applyConfig_once c2 _ mid objs1 (set_config c2 s1) H1)
    as (objs2 & (_ & Hm2 & _) & _ & _ & Hoth2 & Hn2 & Horig2 & Hkeep2 & _).
  set (s2 := exec (applyConfig c2) (set_config c2 s1)) in *.
  change (next_mat (set_config c1 s)) with (next_mat s) in *.
  change (next_mat (set_config c2 s1)) with (next_mat s1) in *.
  assert (Hds : disposedMaterials s2 = disposedMaterials s)
    by (unfold s2; rewrite applyConfig_disposed_eq; exact (applyConfig_disposed_eq c1 (set_config c1 s))).
  assert (Hgs : glassSys s2 = glassSys s)
    by (unfold s2; rewrite applyConfig_glass_eq; exact (applyConfig_glass_eq c1 (set_config c1 s))).
  assert (Hgen : forall y my, y = next_mat s \/ y = S (next_mat s) -> mats s1 !! y = Some my ->
                              orphan y my s2).
  { intros y my Hy Hmy. refine (conj _ (conj _ (conj _ (conj _ _)))).
    - lia.
    - rewrite Hkeep2; [exact Hmy|lia|].
      rewrite Forall_forall in HG. intros Hin. specialize (HG y Hin). lia.
    - rewrite Hds. unfold disposed_below in Hd. rewrite Forall_forall in Hd. intros Hin. specialize (Hd y Hin). lia.
    - rewrite Hgs. rewrite Forall_forall in HG. intros Hin. specialize (HG y Hin). lia.
    - intros mid' objs' Hm'. destruct (decide (mid' = mid)) as [->|Hne].
      + rewrite Hm2 in Hm'. injection Hm' as <-.
        intros (o2 & Ho2 & Hk2)%mesh_materials_elem.
        destruct (Forall2_elem_r _ _ _ _ Horig2 Ho2) as (o1 & Ho1 & H12).
        destruct (Forall2_elem_r _ _ _ _ Horig1 Ho1) as (o & Ho & H01).
        destruct (slot_origin_twice (next_mat s) (next_mat s1) o o1 o2 y H01 H12 Hn1) as [Hy1 Hy2];
          [intros o' id Hin Hk; apply list_elem_of_singleton in Hin as ->; exact (Hb o id Ho Hk)
          |exact Hk2|].
        destruct Hy; contradiction.
      + rewrite Hoth2, Hoth1 in Hm' by exact Hne.
        intros (o & Ho & Hk)%mesh_materials_elem. specialize (Hsl mid' objs' Hm' o y Ho Hk). lia. }
  split; apply Hgen; auto.
Qed.

(** C25: on any page the user can reach with a model loaded, a second
    skin click orphans the arm-text and frame materials the first click
    built: whatever the user does afterwards, including loading another
    model, both stay allocated in the store with the contents the first
    click gave them, no mesh of any model points to them again, and they
    never enter the disposed list (main.js:258-300 allocate on every call;
    main.js:136-149 dispose only the current model's materials).  Spec
    section 4.3 asks for the replaced resources to be released. *)
Theorem replaced_skin_materials_leak `{ThreeOps} evs c1 c2 evs' :
  currentModel (run evs page_start) <> None ->
  orphan (next_mat (run evs page_start)) (build_armText_material c1)
    (run (evs ++ ClickSkin c1 :: ClickSkin c2 :: evs') page_start) /\
  orphan (S (next_mat (run evs page_start))) (build_frame_material c1)
    (run (evs ++ ClickSkin c1 :: ClickSkin c2 :: evs') page_start).
Proof.
  intros Hcm.
  assert (E : forall s, run (evs ++ ClickSkin c1 :: ClickSkin c2 :: evs') s =
              run evs' (exec (step (ClickSkin c2)) (exec (step (ClickSkin c1)) (run evs s))))
    by (intros s; unfold run; rewrite foldl_app; reflexivity).
  rewrite E, !exec_click. pose proof (run_leak_ok evs) as Hl.
  destruct (second_click_orphans (run evs page_start) c1 c2 Hl Hcm) as [HA HF].
  assert (Hl2 : leak_ok (exec (applyConfig c2) (set_config c2
                  (exec (applyConfig c1) (set_config c1 (run evs page_start)))))).
  { rewrite <- !exec_click. apply step_leak_ok, step_leak_ok, Hl. }
  split; apply run_orphan; assumption.
Qed.

Section LeakWitness.
#[local] Existing Instance witness_ops.

(** After the initial load, Matte Black Clear then Blue Jeans, then a
    reload: the arm-text and frame materials of the Matte Black Clear
    click, at addresses 12 and 13, are orphans. *)
Lemma replaced_skin_materials_leak_witness :
  next_mat (run [LoadDone 0 sample_asset 500] page_start) = 12%nat /\
  orphan (next_mat (run [LoadDone 0 sample_asset 500] page_start))
    (build_armText_material Skins.MATTE_BLACK_CLEAR)
    (run ([LoadDone 0 sample_asset 500] ++
          [ClickSkin Skins.MATTE_BLACK_CLEAR; ClickSkin Skins.BLUE_JEANS;
           CallLoadModel Skins.SHINY_COSMIC_BLUE; LoadDone 0 sample_asset 900]) page_start).
Proof.
  split; [vm_compute; reflexivity|].
  destruct (replaced_skin_materials_leak [LoadDone 0 sample_asset 500] Skins.MATTE_BLACK_CLEAR
              Skins.BLUE_JEANS [CallLoadModel Skins.SHINY_COSMIC_BLUE; LoadDone 0 sample_asset 900])
    as [H _]; [vm_compute; discriminate|exact H].
Defined.

End LeakWitness.
