(* ===== verification/PageEvents.v ===== *)
(** * The buttons on a reachable page

    Three properties of the buttons over whole runs of the page.  Skin
    buttons work in place (spec section 4.4: [applyConfig] "never creates a
    second asset and never duplicates glass entries"): any number of skin
    clicks keeps the glass lists, the current model, the scene's children
    and the set of models (C29).  Camera buttons gate the glass animation
    by name: [smoothSwitchCamera] records the name even when the model has
    no camera of that name (main.js:662-666), and [animate] compares that
    name with the skin's [glass.animateCamera] (main.js:756-759), so the
    glass animation starts although no camera moved (C30; spec section 7
    asks that a missing gating camera make the gating a no-op).  The fake
    interior pass of [applyConfig] only runs for a skin with a fake
    texture (main.js:401), so a later skin without one leaves the last
    fake interior on screen (C31). *)

From S2P Require Import Prelude Configs Materials GlassAnim Camera Scene Session ApplyIdem Leak.

Lemma run_app `{ThreeOps} evs1 evs2 s : run (evs1 ++ evs2) s = run evs2 (run evs1 s).
Proof. apply foldl_app. Qed.

Lemma run_cons `{ThreeOps} ev evs s : run (ev :: evs) s = run evs (exec (step ev) s).
Proof. reflexivity. Qed.

(** ** Skin buttons work in place *)

(** The models that exist, whatever their objects. *)
Definition same_models (s s' : Session) : Prop :=
  forall mid, is_Some (models s' !! mid) <-> is_Some (models s !! mid).

(** What a skin click keeps: the glass lists and rest values, the current
    model, the scene and the set of models. *)
Definition click_kept (s s' : Session) : Prop :=
  glassSys s' = glassSys s /\ currentModel s' = currentModel s /\
  sceneChildren s' = sceneChildren s /\ same_models s s'.

Lemma click_kept_trans s1 s2 s3 : click_kept s1 s2 -> click_kept s2 s3 -> click_kept s1 s3.
Proof.
  intros (H1 & H2 & H3 & H4) (H5 & H6 & H7 & H8).
  refine (conj _ (conj _ (conj _ _))); try congruence.
  intros mid. rewrite (H8 mid). apply (H4 mid).
Qed.

Lemma skin_click_kept `{ThreeOps} c s : page_ok s -> click_kept s (exec (step (ClickSkin c)) s).
Proof.
  intros Hok. rewrite exec_click.
  destruct (applyConfig_scene (sceneChildren s) (currentModel s) (pending s) c c (set_config c s)
              (conj eq_refl (conj eq_refl (conj eq_refl eq_refl)))) as (Hsc & Hcm & _).
  refine (conj (applyConfig_glass_eq c (set_config c s)) (conj Hcm (conj Hsc _))).
  destruct (currentModel s) as [mid|] eqn:Hc.
  - destruct (page_ok_ready s mid Hok Hc) as (objs & Hr).
    pose proof Hr as (_ & Hmo & _).
    destruct (applyConfig_once c _ mid objs (set_config c s) Hr) as (objs1 & (_ & Hm1 & _) & _ & _ & Hoth & _).
    intros mid'. destruct (decide (mid' = mid)) as [->|Hne].
    + rewrite Hm1. cbn [models set_config]. rewrite Hmo. split; intros _; eexists; reflexivity.
    + rewrite Hoth by exact Hne. reflexivity.
  - destruct (applyConfig_no_model c (set_config c s) Hc) as (Hmo & _). intros mid. by rewrite Hmo.
Qed.

Lemma skin_clicks_kept `{ThreeOps} cs : forall s, page_ok s -> click_kept s (run (map ClickSkin cs) s).
Proof.
  induction cs as [|c cs IH]; intros s Hok.
  - refine (conj eq_refl (conj eq_refl (conj eq_refl _))). intros mid. reflexivity.
  - cbn [map]. rewrite run_cons. apply (click_kept_trans _ (exec (step (ClickSkin c)) s)).
    + apply skin_click_kept, Hok.
    + apply IH, step_page_ok, Hok.
Qed.

(** C29: on any page the user can reach, any sequence of skin clicks keeps
    the glass lists with their rest colours and opacities, the current
    model, the scene's children and the set of models: skins are applied
    in place, with no second asset and no new glass entry (spec section
    4.4). *)
Theorem skin_clicks_in_place `{ThreeOps} evs cs :
  glassSys (run (evs ++ map ClickSkin cs) page_start) = glassSys (run evs page_start) /\
  currentModel (run (evs ++ map ClickSkin cs) page_start) = currentModel (run evs page_start) /\
  sceneChildren (run (evs ++ map ClickSkin cs) page_start) = sceneChildren (run evs page_start) /\
  (forall mid, is_Some (models (run (evs ++ map ClickSkin cs) page_start) !! mid) <->
               is_Some (models (run evs page_start) !! mid)).
Proof. rewrite run_app. apply skin_clicks_kept, run_page_ok. Qed.

(** ** Camera buttons gate by name *)

Lemma camera_frame_active `{ThreeOps} time cs : cs_active (camera_frame time cs) = cs_active cs.
Proof. unfold camera_frame. cbv zeta. repeat case_match; reflexivity. Qed.

(** A frame in which the animation runs marks it as running. *)
Lemma glass_frame_was en act gate now gs mats :
  shouldAnimateGlass en (length (gs_materials gs)) act gate = true ->
  gs_was (glass_frame en act gate now gs mats).1 = true.
Proof.
  intros Hs. unfold glass_frame. rewrite Hs.
  destruct (getDelta _ _). destruct (glass_forEach _ _ _ _ _ _). reflexivity.
Qed.

Lemma should_animate_same_name (G : list nat) name :
  G <> [] -> shouldAnimateGlass true (length G) (Some name) (Some name) = true.
Proof.
  intros HG. unfold shouldAnimateGlass. destruct G as [|x G]; [contradiction|].
  cbn [andb length]. destruct (opt_str_eqb_spec (Some name) (Some name)); [reflexivity|contradiction].
Qed.

(** C30: on any page the user can reach, when the skin's glass animation
    is on, its gating camera [name] is not a camera of the loaded model and
    there are glass materials, the camera button [name] leaves the camera
    where it was, yet the next frame runs the glass animation: the gate
    compares names only (main.js:664, 756-759), where spec section 7 asks
    that a missing gating camera make the gating a no-op. *)
Theorem gate_opens_without_camera `{ThreeOps} evs name t time now :
  glassAnimationEnabled (run evs page_start) = true ->
  glassAnimateCamera (run evs page_start) = Some name ->
  gs_materials (glassSys (run evs page_start)) <> [] ->
  cameraTargets (run evs page_start) !! name = None ->
  cs_camera (cam (run (evs ++ [ClickCamera name t]) page_start)) = cs_camera (cam (run evs page_start)) /\
  gs_was (glassSys (run (evs ++ [ClickCamera name t; AnimFrame time now]) page_start)) = true.
Proof.
  intros He Hg HG Hn. rewrite !run_app, !run_cons. cbn [run foldl].
  set (s := run evs page_start) in *.
  change (exec (step (ClickCamera name t)) s)
    with (set_cam (smoothSwitchCamera (cameraTargets s) name t (cam s)) s).
  unfold smoothSwitchCamera at 1 2. rewrite Hn. split; [reflexivity|].
  rewrite exec_frame. cbv zeta. cbn [set_cam glassAnimationEnabled glassAnimateCamera glassSys mats cam].
  rewrite camera_frame_active. cbn [cs_active].
  match goal with |- context [glass_frame ?e ?a ?g ?n ?gs ?st] =>
    pose proof (glass_frame_was e a g n gs st) as Hw; destruct (glass_frame e a g n gs st) as [g' st'] end.
  cbn [fst] in Hw. apply Hw. rewrite He, Hg. apply should_animate_same_name, HG.
Qed.

(** ** A skin without a fake texture keeps the last one's *)

Lemma model_view_ready G mid objs s :
  apply_ready G mid objs s -> model_view s = map (view_obj (mats s)) objs.
Proof. intros (Hc & Hm & _). unfold model_view. rewrite Hc, Hm. reflexivity. Qed.

(** The view of the [i]-th object after a call on a ready state. *)
Lemma view_after_apply c G mid objs s i o :
  apply_ready G mid objs s -> objs !! i = Some o ->
  model_view (exec (applyConfig c) s) !! i = Some (applied_obj c G (mats s) o).
Proof.
  intros Hr Hi. destruct (applyConfig_once c G mid objs s Hr) as (objs1 & H1 & Hv1 & _).
  rewrite (model_view_ready _ _ _ _ H1), Hv1, list_lookup_fmap, Hi. reflexivity.
Qed.

Lemma applied_fake_obj c G st o cur m p :
  so_kind o = SMesh cur -> name_role (so_name o) = RoleNone -> st !! cur = Some m ->
  is_fake_material m = true -> fake_texture_of c = Some p ->
  applied_obj c G st o = Some (build_fake_material p).
Proof. intros Hk Hr Hm Hf Hp. unfold applied_obj. rewrite Hk, Hr, Hm. unfold fake_content. by rewrite Hp, Hf. Qed.

Lemma applied_keep_obj c G st o cur m :
  so_kind o = SMesh cur -> name_role (so_name o) = RoleNone -> st !! cur = Some m ->
  fake_texture_of c = None -> cur ∉ G -> applied_obj c G st o = Some m.
Proof.
  intros Hk Hr Hm Hp Hg. unfold applied_obj. rewrite Hk, Hr, Hm. unfold fake_content. rewrite Hp.
  by rewrite bool_decide_false by exact Hg.
Qed.

(** C31: on any page the user can reach, take a mesh of the current model
    whose material is named [fake] and is not a glass material.  A skin
    with a fake-interior texture [p] (Clear Sapphire, Blue Jeans) gives it
    the fake material of [p]; a later skin without one leaves that material
    in place (main.js:400-424 only runs when [config.fake?.texture] is
    set), whereas the same skin clicked directly shows the model's own
    material.  What the interior shows depends on the order of the clicks,
    not on the current skin (spec section 4.4: [applyConfig] rebuilds the
    materials from the new config). *)
Theorem fake_interior_sticks `{ThreeOps} evs c1 c2 p mid objs i o cur m :
  currentModel (run evs page_start) = Some mid ->
  models (run evs page_start) !! mid = Some objs -> objs !! i = Some o ->
  so_kind o = SMesh cur -> name_role (so_name o) = RoleNone ->
  mats (run evs page_start) !! cur = Some m -> is_fake_material m = true ->
  cur ∉ gs_materials (glassSys (run evs page_start)) ->
  fake_texture_of c1 = Some p -> fake_texture_of c2 = None ->
  model_view (run (evs ++ [ClickSkin c1; ClickSkin c2]) page_start) !! i =
    Some (Some (build_fake_material p)) /\
  model_view (run (evs ++ [ClickSkin c2]) page_start) !! i = Some (Some m).
Proof.
  intros Hc Hmo Hi Hk Hr Hm Hf Hg Hp1 Hp2. rewrite !run_app, !run_cons. cbn [run foldl].
  rewrite !exec_click. set (s := run evs page_start) in *.
  destruct (page_ok_ready s mid (run_page_ok evs) Hc) as (objs0 & Hr0).
  pose proof Hr0 as (_ & Hmo0 & _ & HG & _). rewrite Hmo in Hmo0. injection Hmo0 as <-.
  split; [|rewrite (view_after_apply c2 _ mid objs (set_config c2 s) i o Hr0 Hi);
           erewrite applied_keep_obj; eauto].
  destruct (applyConfig_once c1 _ mid objs (set_config c1 s) Hr0)
    as (objs1 & H1 & Hv1 & _ & _ & _ & Horig & _).
  destruct (Forall2_lookup_l _ _ _ _ _ Horig Hi) as (o1 & Hi1 & Hso).
  rewrite (view_after_apply c2 _ mid objs1
             (set_config c2 (exec (applyConfig c1) (set_config c1 s))) i o1 H1 Hi1).
  assert (Hv : view_obj (mats (exec (applyConfig c1) (set_config c1 s))) o1 =
               Some (build_fake_material p)).
  { apply (f_equal (fun l => l !! i)) in Hv1. rewrite !list_lookup_fmap, Hi, Hi1 in Hv1.
    injection Hv1 as ->. eapply applied_fake_obj; eauto. }
  unfold view_obj in Hv. destruct (so_kind o1) as [| f |] eqn:Hk1; try discriminate.
  destruct (slot_origin_none _ _ _ _ Hso Hr Hk1) as (cur' & Hk' & Hor).
  erewrite applied_keep_obj; [reflexivity|exact Hk1|rewrite (proj1 Hso); exact Hr|exact Hv|exact Hp2|].
  destruct Hor as [->|Hge].
  - rewrite Hk in Hk'. injection Hk' as <-. exact Hg.
  - rewrite Forall_forall in HG. intros Hin. specialize (HG f Hin). simpl in Hge, HG. lia.
Qed.

Section PageEventsWitness.
#[local] Existing Instance witness_ops.

(** The sample model without its [Cam_Lenses] camera. *)
Definition asset_without_lenses_camera : Asset :=
  mkAsset
    (mkNode "Scene" NGroup
       [leaf "Cam_Front" (NCamera (mkVec3 0 0 1) (mkQuat 0 0 0 1) 35);
        mkNode "Wayfarer" NGroup
          [leaf "Frame" (NMesh (gltf_material "Frame_Mat"));
           leaf "Lens_L" (NMesh (gltf_material "Glass"));
           leaf "Lens_R" (NMesh (gltf_material "Glass"))]])
    (mkVec3 0 0 0).

(** Cosmic Blue gates its glass on [Cam_Lenses]; the Lenses button on
    this model starts the glass animation without moving the camera. *)
Lemma gate_opens_without_camera_witness :
  cs_camera (cam (run ([LoadDone 0 asset_without_lenses_camera 500] ++ [ClickCamera "Cam_Lenses" 600])
                    page_start)) =
    cs_camera (cam (run [LoadDone 0 asset_without_lenses_camera 500] page_start)) /\
  gs_was (glassSys (run ([LoadDone 0 asset_without_lenses_camera 500] ++
                         [ClickCamera "Cam_Lenses" 600; AnimFrame 616 616]) page_start)) = true.
Proof.
  apply (gate_opens_without_camera [LoadDone 0 asset_without_lenses_camera 500] "Cam_Lenses" 600 616 616);
    vm_compute; first [reflexivity|discriminate].
Defined.

(** On the sample model, Clear Sapphire then Matte Black Clear leaves the
    interior ([Interior], the 14th object, slot 7) with Clear Sapphire's
    fake texture; Matte Black Clear alone shows the model's [Fake]. *)
Lemma fake_interior_sticks_witness :
  model_view (run ([LoadDone 0 sample_asset 500] ++
                   [ClickSkin Skins.CLEAR_SAPPHIRE; ClickSkin Skins.MATTE_BLACK_CLEAR]) page_start) !! 13%nat =
    Some (Some (build_fake_material "./textures/w_interior_fake.jpg")) /\
  model_view (run ([LoadDone 0 sample_asset 500] ++ [ClickSkin Skins.MATTE_BLACK_CLEAR]) page_start) !! 13%nat =
    Some (Some (gltf_material "Fake")).
Proof.
  apply (fake_interior_sticks [LoadDone 0 sample_asset 500] Skins.CLEAR_SAPPHIRE Skins.MATTE_BLACK_CLEAR
           "./textures/w_interior_fake.jpg" 0
           (default [] (models (run [LoadDone 0 sample_asset 500] page_start) !! 0%nat)) 13 (mkSObj "Interior" (SMesh 7)) 7);
    try (vm_compute; reflexivity).
  apply (bool_decide_unpack _). vm_compute. exact I.
Defined.

End PageEventsWitness.
