(* ===== verification/PostFx.v ===== *)
(** * The two full-screen shader passes

    [ContrastShader] (main.js:99-121) is the last pass of the composer
    (main.js:557-563): every pixel of the rendered frame goes through its
    fragment shader with [contrast] set to 1.0.  The HDR environment
    (main.js:598-661) goes through a second full-screen pass before PMREM:
    a desaturation to the pixel's luminance, mixed back with [saturation]
    set to 0.0, drawn into a [WebGLRenderTarget] created with the default
    options (main.js:643-646).

    Each fragment shader is a function of one texel ([RGBA]); GLSL's
    [mix], [dot] and swizzles are written out on rationals.  The default
    render target stores unsigned bytes: what the pass writes is clamped
    to [0, 1] per channel ([u8_store]; the rounding to 1/255 is not
    modelled).  C27 says that the environment pass turns
    every texel grey with its own luminance, whatever its range, and that
    the 8-bit target then flattens every highlight of luminance at least 1
    to the same white. *)

From S2P Require Import Prelude Materials.

(** A [vec4] texel: [color.rgb] and [color.a]. *)
Record RGBA := mkRGBA { px_rgb : Color; px_a : Q }.

(** Texels equal as numbers. *)
#[export] Instance RGBA_equiv : Equiv RGBA := fun p q => px_rgb p ≡ px_rgb q /\ px_a p == px_a q.

(** ** The contrast pass *)

(** [(x - 0.5) * contrast + 0.5] on one channel (main.js:117). *)
Definition contrast_channel (k x : Q) : Q := (x - (1 # 2)) * k + (1 # 2).

(** [ContrastShader.fragmentShader]: [color.rgb = (color.rgb - 0.5) *
    contrast + 0.5; gl_FragColor = color;] (main.js:115-119). *)
Definition contrast_fragment (k : Q) (p : RGBA) : RGBA :=
  mkRGBA ⟪ contrast_channel k (cr (px_rgb p)), contrast_channel k (cg (px_rgb p)),
           contrast_channel k (cb (px_rgb p)) ⟫ (px_a p).

(** [contrastPass.uniforms.contrast.value = 1.0] (main.js:562). *)
Definition contrast_value : Q := 1.

(** What the composer puts on screen for a rendered pixel: the
    [RenderPass] output through the contrast pass (main.js:557-563). *)
Definition composer_output (p : RGBA) : RGBA := contrast_fragment contrast_value p.

(** ** The environment pass *)

(** [dot(color.rgb, vec3(0.299, 0.587, 0.114))] (main.js:625). *)
Definition luminance (c : Color) : Q := cr c * (299 # 1000) + cg c * (587 # 1000) + cb c * (114 # 1000).

(** The fragment shader of main.js:618-631: [grey = vec3(luminance);
    color.rgb = mix(grey, color.rgb, saturation)]. *)
Definition desaturate_fragment (saturation : Q) (p : RGBA) : RGBA :=
  let l := luminance (px_rgb p) in
  mkRGBA ⟪ glsl_mix l (cr (px_rgb p)) saturation, glsl_mix l (cg (px_rgb p)) saturation,
           glsl_mix l (cb (px_rgb p)) saturation ⟫ (px_a p).

(** [const saturation = 0.0] (main.js:603). *)
Definition hdr_saturation : Q := 0.

(** A channel written to a render target of unsigned bytes, the default
    of [new THREE.WebGLRenderTarget(w, h)] (main.js:643-646). *)
Definition u8_channel (x : Q) : Q := Qmax 0 (Qmin x 1).

Definition u8_store (p : RGBA) : RGBA :=
  mkRGBA ⟪ u8_channel (cr (px_rgb p)), u8_channel (cg (px_rgb p)), u8_channel (cb (px_rgb p)) ⟫
         (u8_channel (px_a p)).

(** The texel PMREM receives for an HDR texel (main.js:648-653). *)
Definition env_texel (p : RGBA) : RGBA := u8_store (desaturate_fragment hdr_saturation p).

(** ** Lemmas *)

#[export] Instance RGBA_equivalence : Equivalence (≡@{RGBA}).
Proof.
  split.
  - intros p. split; [reflexivity|reflexivity].
  - intros p q [H1 H2]. split; symmetry; assumption.
  - intros p q r [H1 H2] [H3 H4]. split; [etransitivity; eassumption|rewrite H2; exact H4].
Qed.

Lemma glsl_mix_same x a : glsl_mix x x a == x.
Proof. unfold glsl_mix. ring. Qed.

(** The luminance weights sum to 1. *)
Lemma luminance_grey l : luminance ⟪ l, l, l ⟫ == l.
Proof. unfold luminance. simpl. ring. Qed.

Lemma u8_channel_one x : 1 <= x -> u8_channel x == 1.
Proof.
  intros H. unfold u8_channel. rewrite Q.min_r by exact H. apply Q.max_r. lra.
Qed.

#[export] Instance u8_channel_proper : Proper (Qeq ==> Qeq) u8_channel.
Proof. intros x y H. unfold u8_channel. rewrite H. reflexivity. Qed.

(** A grey channel of luminance at least 1 is stored as 1. *)
Lemma u8_grey_one l x : 1 <= l -> u8_channel (glsl_mix l x 0) == 1.
Proof. intros H. rewrite glsl_mix_0. apply u8_channel_one, H. Qed.

(** C27: the environment pass turns every HDR texel into the grey of its
    own luminance, alpha kept; for any [saturation] it keeps the
    luminance; and the unsigned-byte target it draws into stores every
    texel whose luminance is at least 1 as the same white, so the HDR
    highlights reach PMREM flattened to one value (main.js:603-653). *)
Theorem env_pass_grey_then_clamped :
  (forall p, cr (px_rgb (desaturate_fragment hdr_saturation p)) == luminance (px_rgb p) /\
             cg (px_rgb (desaturate_fragment hdr_saturation p)) == luminance (px_rgb p) /\
             cb (px_rgb (desaturate_fragment hdr_saturation p)) == luminance (px_rgb p) /\
             px_a (desaturate_fragment hdr_saturation p) = px_a p) /\
  (forall s p, luminance (px_rgb (desaturate_fragment s p)) == luminance (px_rgb p)) /\
  (forall p q, 1 <= luminance (px_rgb p) -> 1 <= luminance (px_rgb q) -> px_a p == px_a q ->
     env_texel p ≡ env_texel q).
Proof.
  split; [|split].
  - intros p. unfold desaturate_fragment, hdr_saturation. cbv beta zeta. cbn [px_rgb px_a cr cg cb].
    rewrite !glsl_mix_0. repeat split; reflexivity.
  - intros s p. unfold desaturate_fragment, luminance at 1, glsl_mix. cbv beta zeta.
    cbn [px_rgb px_a cr cg cb]. unfold luminance. ring.
  - intros p q Hp Hq Ha. unfold env_texel, u8_store, desaturate_fragment, hdr_saturation.
    cbv beta zeta. split; [split; [|split]|]; cbn [px_rgb px_a cr cg cb];
      [rewrite !u8_grey_one by exact Hp || exact Hq; reflexivity ..|].
    rewrite Ha. reflexivity.
Qed.

(** The white (5, 5, 5) and the warm (2, 1, 1) of an HDR sky, of
    luminances 5 and 1.299, reach PMREM as the same texel. *)
Lemma env_pass_grey_then_clamped_witness :
  env_texel (mkRGBA ⟪ 5, 5, 5 ⟫ 1) ≡ env_texel (mkRGBA ⟪ 2, 1, 1 ⟫ 1).
Proof.
  destruct env_pass_grey_then_clamped as (_ & _ & H).
  apply H; vm_compute; first [reflexivity|discriminate].
Defined.
