(* ===== verification/Viewport.v ===== *)
(** * The canvas size: camera, renderer and composer

    Three objects of main.js take the window's size when the page starts:
    the camera's aspect ratio (main.js:507-512), the renderer's canvas
    (main.js:540) and the composer's render target (main.js:549-557),
    which the [EffectComposer] renders the scene and the contrast pass
    into before the last pass draws to the canvas.  The [resize] listener
    (main.js:707-711) updates the camera and the renderer only.

    [Viewport] holds the three sizes; [viewport_init] and [on_resize] are
    the start and the listener, and [resizes] a sequence of window
    resizes.  The theorem of this file (C28) is that after any resizes the
    camera and the canvas follow the window while the composer's target
    keeps the size the page loaded with.  JavaScript's [w / 0] is
    [Infinity]; the rational model needs a positive height, which a
    browser window has. *)

From S2P Require Import Prelude.

(** A width and a height in CSS pixels. *)
Record Size := mkSize { sz_w : Q; sz_h : Q }.

Record Viewport := mkViewport {
  vp_aspect : Q;          (* camera.aspect *)
  vp_canvas : Size;       (* renderer.setSize(...) *)
  vp_composer : Size      (* the composer's render target *)
}.

(** [new THREE.PerspectiveCamera(80, innerWidth / innerHeight, ...)],
    [renderer.setSize(innerWidth, innerHeight)] and
    [new THREE.WebGLRenderTarget(innerWidth, innerHeight, ...)]. *)
Definition viewport_init (win : Size) : Viewport :=
  mkViewport (sz_w win / sz_h win) win win.

(** The [resize] listener: [camera.aspect = innerWidth / innerHeight;
    camera.updateProjectionMatrix(); renderer.setSize(innerWidth,
    innerHeight)]. *)
Definition on_resize (win : Size) (v : Viewport) : Viewport :=
  mkViewport (sz_w win / sz_h win) win (vp_composer v).

Definition resizes (wins : list Size) (v : Viewport) : Viewport :=
  foldl (fun v win => on_resize win v) v wins.

(** The camera's aspect is the canvas's. *)
Definition aspect_matches (v : Viewport) : Prop :=
  vp_aspect v == sz_w (vp_canvas v) / sz_h (vp_canvas v).

Lemma resizes_app wins1 wins2 v : resizes (wins1 ++ wins2) v = resizes wins2 (resizes wins1 v).
Proof. apply foldl_app. Qed.

Lemma resizes_composer wins v : vp_composer (resizes wins v) = vp_composer v.
Proof.
  revert v. induction wins as [|w rest IH]; intros v; [reflexivity|].
  change (resizes (w :: rest) v) with (resizes rest (on_resize w v)). rewrite IH. reflexivity.
Qed.

(** C28: after the page starts in a window [win0] and the window is
    resized through [wins] to a last size [win], the camera's aspect and
    the canvas follow [win], but the composer's target, which every frame
    is rendered into, keeps [win0]: the listener never calls
    [composer.setSize], so the frame is rendered at the load-time size and
    stretched to the new canvas. *)
Theorem resize_leaves_composer_stale win0 wins win :
  vp_canvas (resizes (wins ++ [win]) (viewport_init win0)) = win /\
  aspect_matches (resizes (wins ++ [win]) (viewport_init win0)) /\
  vp_composer (resizes (wins ++ [win]) (viewport_init win0)) = win0.
Proof.
  rewrite resizes_app. split; [reflexivity|]. split.
  - unfold aspect_matches. reflexivity.
  - rewrite resizes_composer. apply resizes_composer.
Qed.
