(* ===== verification/Env.v ===== *)
(** * The lights and the HDR environment callback

    main.js lights the scene with an ambient and two directional lights
    (main.js:585-591).  When [RGBELoader] delivers [studio.hdr], its
    callback (main.js:598-661) renders the HDR through the desaturation
    shader of PostFx.v into a fresh render target of the HDR's size,
    turns that target into a prefiltered environment map with
    [pmrem.fromEquirectangular], makes it [scene.environment] with its
    rotation and intensity, and disposes of the HDR texture and the
    render target.

    The renderer is modelled by the objects the callback creates and their
    GPU storage.  [gl_objs] holds the JavaScript objects (textures, render
    targets, the quad's [PlaneGeometry] and [ShaderMaterial]), each with
    what three.js uploads it from; [gl_gpu] holds what they occupy on the
    GPU (texels, vertex buffers, a compiled program).  An object gets GPU
    storage on its first use and loses it on [dispose]; a later use
    uploads again, so a render target used after [dispose] reads as blank.
    The PMREM generator of main.js:596 keeps its ping-pong render target
    ([gl_pingpong]) from its first [fromEquirectangular] call until
    [pmrem.dispose()], which the code never calls.  Texture sampling and
    the PMREM prefilter are three.js internals, the class [GLOps]; the
    only law the proofs use is that sampling a [w]x[h] texture onto a
    [w]x[h] target gives its texels back.  The PMREM generator's own
    shader materials and plane geometries are not modelled.  [GLM] is a
    state monad over [GL].  The rotation [Math.PI * 1.25] is kept as its
    multiple of [π].

    C33 gives the callback's effect on a renderer whose free handles are
    unused and whose PMREM generator has not run: the environment and its
    texels, the two disposals after their last use, the resources the
    callback leaves allocated, the canvas as render target, the rotation
    and the intensity. *)

From S2P Require Import Prelude PostFx.

(** ** Lights *)

Inductive Light :=
  | AmbientLight (color : Color) (intensity : Q)
  | DirectionalLight (color : Color) (intensity : Q) (position : Vec3).

(** [new THREE.DirectionalLight(color, intensity)] stands at
    [Object3D.DEFAULT_UP], (0, 1, 0), until its position is set. *)
Definition new_directional (color : Color) (intensity : Q) : Light :=
  DirectionalLight color intensity (mkVec3 0 1 0).

Definition set_position (p : Vec3) (l : Light) : Light :=
  match l with
  | AmbientLight c i => AmbientLight c i
  | DirectionalLight c i _ => DirectionalLight c i p
  end.

(** main.js:585-591, each [scene.add] appending to the scene's children. *)
Definition setup_lights (children : list Light) : list Light :=
  let children := children ++ [AmbientLight white 5] in
  let dirLight01 := new_directional white 15 in
  let dirLight02 := new_directional white 15 in
  let dirLight01 := set_position (mkVec3 5 10 7) dirLight01 in
  let dirLight02 := set_position (mkVec3 (-10) 10 7) dirLight02 in
  let children := children ++ [dirLight01] in
  children ++ [dirLight02].

(** ** Renderer objects and their GPU storage *)

(** What three.js uploads an object from when it has no GPU storage. *)
Inductive Source :=
  | DataSource (data : list RGBA)      (* a DataTexture's image.data *)
  | TargetSource                       (* a render target: nothing *)
  | GeometrySource                     (* a BufferGeometry's attributes *)
  | ProgramSource.                     (* a ShaderMaterial's shaders *)

Record GLObj := mkGLObj { obj_w : nat; obj_h : nat; obj_src : Source }.

(** What an object occupies on the GPU. *)
Inductive GpuData :=
  | GTexels (d : list RGBA)            (* a texture's or render target's texels *)
  | GBuffers                           (* vertex buffers *)
  | GProgram.                          (* a compiled program *)

Definition texels_of (x : GpuData) : list RGBA :=
  match x with GTexels d => d | _ => [] end.

(** A texture's size and texels, as the PMREM generator reads and writes them. *)
Record Image := mkImage { img_w : nat; img_h : nat; img_data : list RGBA }.

Class GLOps := {
  (* [texture2D] over a full-screen quad: a [w]x[h] texture drawn onto a
     [w']x[h'] target *)
  sample : nat -> nat -> list RGBA -> nat -> nat -> list RGBA;
  sample_same : forall w h d, sample w h d w h = d;
  (* [PMREMGenerator.fromEquirectangular(t).texture] *)
  pmrem_of : Image -> Image;
  (* what the blur passes leave in the generator's ping-pong target *)
  pmrem_scratch : Image -> list RGBA
}.

Record GL := mkGL {
  gl_objs : gmap nat GLObj;           (* renderer objects, by handle *)
  gl_gpu : gmap nat GpuData;          (* their GPU storage *)
  gl_next : nat;                      (* the next object handle *)
  gl_target : option nat;             (* renderer.setRenderTarget; None: the canvas *)
  gl_pingpong : option nat;           (* pmrem._pingPongRenderTarget *)
  gl_env : option nat;                (* scene.environment *)
  gl_env_rotation : Q;                (* scene.environmentRotation.y / π *)
  gl_env_intensity : Q                (* scene.environmentIntensity *)
}.

(** A scene's defaults: no environment, no rotation, intensity 1; a new
    PMREM generator has no ping-pong target. *)
Definition gl_init : GL := mkGL ∅ ∅ 0 None None None 0 1.

Definition GLM (A : Type) : Type := GL -> A * GL.

Definition gl_ret {A} (x : A) : GLM A := fun g => (x, g).
Definition gl_bind {A B} (m : GLM A) (k : A -> GLM B) : GLM B :=
  fun g => let '(x, g') := m g in k x g'.

#[export] Instance GLM_ret : MRet GLM := @gl_ret.
#[export] Instance GLM_bind : MBind GLM := fun A B k m => gl_bind m k.

Definition gl_exec (m : GLM unit) (g : GL) : GL := (m g).2.

Definition set_gpu (gpu : gmap nat GpuData) (g : GL) : GL :=
  mkGL (gl_objs g) gpu (gl_next g) (gl_target g) (gl_pingpong g) (gl_env g)
       (gl_env_rotation g) (gl_env_intensity g).

(** [new THREE.WebGLRenderTarget(w, h)], [new THREE.DataTexture(...)],
    [new THREE.PlaneGeometry(2, 2)], [new THREE.ShaderMaterial(...)]: a
    new object, without GPU storage yet. *)
Definition new_object (o : GLObj) : GLM nat := fun g =>
  (gl_next g, mkGL (<[gl_next g := o]> (gl_objs g)) (gl_gpu g) (S (gl_next g))
                (gl_target g) (gl_pingpong g) (gl_env g) (gl_env_rotation g) (gl_env_intensity g)).

(** What three.js puts on the GPU at an object's first use: a
    DataTexture's data, a render target's blank (zero) texels, a
    geometry's buffers, a material's compiled program. *)
Definition blank (n : nat) : list RGBA := repeat (mkRGBA ⟪ 0, 0, 0 ⟫ 0) n.

Definition upload (o : GLObj) : GpuData :=
  match obj_src o with
  | DataSource d => GTexels d
  | TargetSource => GTexels (blank (obj_w o * obj_h o))
  | GeometrySource => GBuffers
  | ProgramSource => GProgram
  end.

(** A use of [h]: its GPU storage, uploaded first if it has none. *)
Definition use_object (h : nat) : GLM GpuData := fun g =>
  match gl_gpu g !! h, gl_objs g !! h with
  | Some d, _ => (d, g)
  | None, Some o => (upload o, set_gpu (<[h := upload o]> (gl_gpu g)) g)
  | None, None => (GTexels [], g)
  end.

Definition setRenderTarget (t : option nat) : GLM unit := fun g =>
  (tt, mkGL (gl_objs g) (gl_gpu g) (gl_next g) t (gl_pingpong g) (gl_env g)
            (gl_env_rotation g) (gl_env_intensity g)).

(** [renderer.render(tempScene, camera)] of the full-screen quad of
    geometry [geo] and material [mat], whose fragment shader runs [frag]
    on [texture2D(tMap, vUv)]: the program and the buffers are put on the
    GPU, and every texel of the current target gets the fragment of the
    sampled texel, stored in the target's unsigned bytes.  Drawing to the
    canvas is not modelled. *)
Definition render_quad `{GLOps} (geo mat : nat) (frag : RGBA -> RGBA) (src : nat) : GLM unit :=
  fun g =>
  match gl_target g, gl_objs g !! src with
  | Some rt, Some so =>
      match gl_objs g !! rt with
      | Some ro =>
          let '(_, g1) := use_object mat g in
          let '(_, g2) := use_object geo g1 in
          let '(d, g3) := use_object src g2 in
          (tt, set_gpu (<[rt := GTexels (map (fun p => u8_store (frag p))
                   (sample (obj_w so) (obj_h so) (texels_of d) (obj_w ro) (obj_h ro)))]>
                          (gl_gpu g3)) g3)
      | None => (tt, g)
      end
  | _, _ => (tt, g)
  end.

(** The generator's [_allocateTargets]: the ping-pong target is kept
    while its size fits, and otherwise disposed of and made anew. *)
Definition alloc_pingpong (w h : nat) : GLM nat := fun g =>
  let g0 := match gl_pingpong g with
            | Some p => set_gpu (delete p (gl_gpu g)) g
            | None => g
            end in
  let '(p, g1) := new_object (mkGLObj w h TargetSource) g0 in
  (p, mkGL (gl_objs g1) (gl_gpu g1) (gl_next g1) (gl_target g1) (Some p) (gl_env g1)
           (gl_env_rotation g1) (gl_env_intensity g1)).

Definition pingpong_target (w h : nat) : GLM nat := fun g =>
  match gl_pingpong g with
  | Some p =>
      match gl_objs g !! p with
      | Some po => if (Nat.eqb (obj_w po) w && Nat.eqb (obj_h po) h)%bool then (p, g)
                   else alloc_pingpong w h g
      | None => alloc_pingpong w h g
      end
  | None => alloc_pingpong w h g
  end.

(** [pmrem.fromEquirectangular(t).texture]: the output render target,
    then the ping-pong target; the blur leaves the prefiltered map in the
    output and its intermediate texels in the ping-pong target. *)
Definition fromEquirectangular `{GLOps} (src : nat) : GLM nat := fun g =>
  match gl_objs g !! src with
  | Some so =>
      let '(d, g1) := use_object src g in
      let input := mkImage (obj_w so) (obj_h so) (texels_of d) in
      let im := pmrem_of input in
      let '(e, g2) := new_object (mkGLObj (img_w im) (img_h im) TargetSource) g1 in
      let '(p, g3) := pingpong_target (img_w im) (img_h im) g2 in
      (e, set_gpu (<[e := GTexels (img_data im)]> (<[p := GTexels (pmrem_scratch input)]> (gl_gpu g3))) g3)
  | None => (0%nat, g)
  end.

(** [texture.dispose()], [renderTarget.dispose()]: the GPU storage goes,
    the JavaScript object stays. *)
Definition dispose (h : nat) : GLM unit := fun g => (tt, set_gpu (delete h (gl_gpu g)) g).

(** [scene.environment = ...; scene.environmentRotation = new
    THREE.Euler(0, Math.PI * 1.25, 0); scene.environmentIntensity = 3.0]. *)
Definition set_environment (e : nat) : GLM unit := fun g =>
  (tt, mkGL (gl_objs g) (gl_gpu g) (gl_next g) (gl_target g) (gl_pingpong g) (Some e) (5 # 4) 3).

(** The callback of [new RGBELoader().load('./studio.hdr', (hdr) => ...)],
    main.js:598-661, in the order of its statements.  [hdr.image] is the
    loaded object's; a handle with no object would make [hdr.image.width]
    throw before any effect. *)
Definition hdr_callback `{GLOps} (hdr : nat) : GLM unit := fun g =>
  match gl_objs g !! hdr with
  | None => (tt, g)
  | Some o =>
      (material ← new_object (mkGLObj 0 0 ProgramSource);
       geometry ← new_object (mkGLObj 0 0 GeometrySource);
       renderTarget ← new_object (mkGLObj (obj_w o) (obj_h o) TargetSource);
       setRenderTarget (Some renderTarget);;
       render_quad geometry material (desaturate_fragment hdr_saturation) hdr;;
       setRenderTarget None;;
       processedEnvMap ← fromEquirectangular renderTarget;
       set_environment processedEnvMap;;
       dispose hdr;;
       dispose renderTarget) g
  end.

(** The loader hands the callback a new [DataTexture] of the file's
    texels. *)
Definition rgbe_loaded `{GLOps} (w h : nat) (data : list RGBA) : GLM unit :=
  hdr ← new_object (mkGLObj w h (DataSource data));
  hdr_callback hdr.

(** ** The callback's effect *)

(** Handles from [gl_next] on are unused: neither an object nor GPU
    storage. *)
Definition gl_wf (g : GL) : Prop :=
  forall x, (gl_next g <= x)%nat -> gl_objs g !! x = None /\ gl_gpu g !! x = None.

(** Symbolic evaluation of renderer operations: unfold the operations,
    reduce the records, and resolve the lookups at the handles involved. *)
Ltac gl_simpl :=
  repeat first
    [ progress cbn [gl_objs gl_gpu gl_next gl_target gl_pingpong gl_env gl_env_rotation
                    gl_env_intensity set_gpu fst snd obj_w obj_h obj_src upload texels_of
                    img_w img_h img_data new_object]
    | progress unfold use_object, pingpong_target, alloc_pingpong
    | rewrite sample_same
    | rewrite lookup_insert_eq | rewrite lookup_insert_ne by lia
    | rewrite lookup_delete_eq | rewrite lookup_delete_ne by lia
    | match goal with H : ?m !! ?k = None |- context [?m !! ?k] => rewrite H end
    | match goal with H : gl_pingpong ?g = None |- context [gl_pingpong ?g] => rewrite H end ].

Section HdrCallback.
Context `{GLOps}.

(** C33: when the loader delivers a [w]x[h] HDR into a renderer whose
    free handles are unused and whose PMREM generator has not run (the
    page's only call), the callback, whose objects are the next handles
    in the order it makes them (the HDR texture [n], the material, the
    geometry, the render target, the environment map, the ping-pong
    target):
    - sets [scene.environment] to the map whose texels are the PMREM of
      the HDR greyed and clamped texel by texel ([env_texel], C27), with
      rotation 1.25 π and intensity 3, and draws to the canvas again;
    - frees the HDR texture and the render target after their last use,
      so the map is built from the rendered texels;
    - leaves the quad's compiled program and vertex buffers and the
      generator's ping-pong target on the GPU: the code never calls
      [material.dispose()], [quad.geometry.dispose()] or [pmrem.dispose()];
    - leaves the storage of every handle made before it as it was. *)
Theorem hdr_environment_processed w h data g :
  gl_wf g -> gl_pingpong g = None ->
  gl_env (gl_exec (rgbe_loaded w h data) g) = Some (4 + gl_next g)%nat /\
  gl_gpu (gl_exec (rgbe_loaded w h data) g) !! (4 + gl_next g)%nat =
    Some (GTexels (img_data (pmrem_of (mkImage w h (map env_texel data))))) /\
  gl_gpu (gl_exec (rgbe_loaded w h data) g) !! gl_next g = None /\
  gl_gpu (gl_exec (rgbe_loaded w h data) g) !! (3 + gl_next g)%nat = None /\
  gl_gpu (gl_exec (rgbe_loaded w h data) g) !! (1 + gl_next g)%nat = Some GProgram /\
  gl_gpu (gl_exec (rgbe_loaded w h data) g) !! (2 + gl_next g)%nat = Some GBuffers /\
  gl_pingpong (gl_exec (rgbe_loaded w h data) g) = Some (5 + gl_next g)%nat /\
  gl_gpu (gl_exec (rgbe_loaded w h data) g) !! (5 + gl_next g)%nat =
    Some (GTexels (pmrem_scratch (mkImage w h (map env_texel data)))) /\
  (forall x, (x < gl_next g)%nat -> gl_gpu (gl_exec (rgbe_loaded w h data) g) !! x = gl_gpu g !! x) /\
  gl_target (gl_exec (rgbe_loaded w h data) g) = None /\
  gl_env_rotation (gl_exec (rgbe_loaded w h data) g) = 5 # 4 /\
  gl_env_intensity (gl_exec (rgbe_loaded w h data) g) = 3.
Proof.
  intros Hwf Hp.
  destruct (Hwf (gl_next g)) as [Ho0 Hg0]; [lia|].
  destruct (Hwf (1 + gl_next g)%nat) as [Ho1 Hg1]; [lia|].
  destruct (Hwf (2 + gl_next g)%nat) as [Ho2 Hg2]; [lia|].
  destruct (Hwf (3 + gl_next g)%nat) as [Ho3 Hg3]; [lia|].
  cbn [Nat.add] in *.
  unfold gl_exec, rgbe_loaded, hdr_callback, mbind, GLM_bind, gl_bind, setRenderTarget,
    render_quad, fromEquirectangular, set_environment, dispose.
  gl_simpl. repeat split; try reflexivity.
  intros x Hx. gl_simpl. reflexivity.
Qed.

End HdrCallback.

Section EnvWitness.

(** A computable renderer for the witness: sampling keeps the texels of a
    same-sized target and leaves other targets blank; the PMREM map is
    the texture itself and the ping-pong target ends blank. *)
Definition same_size_sample (w h : nat) (d : list RGBA) (w' h' : nat) : list RGBA :=
  if (Nat.eqb w w' && Nat.eqb h h')%bool then d else blank (w' * h').

Lemma same_size_sample_same w h d : same_size_sample w h d w h = d.
Proof. unfold same_size_sample. by rewrite !Nat.eqb_refl. Qed.

Definition witness_gl_ops : GLOps :=
  {| sample := same_size_sample; sample_same := same_size_sample_same; pmrem_of := fun im => im;
     pmrem_scratch := fun im => blank (img_w im * img_h im) |}.

#[local] Existing Instance witness_gl_ops.

Definition witness_hdr : list RGBA := [mkRGBA ⟪ 2, 1 # 2, 0 ⟫ 1].

(** A one-texel HDR brighter than 1 on an empty renderer: the
    environment, at handle 4, is the grey of its luminance clamped to the
    byte range; handles 1, 2 and 5 stay allocated. *)
Lemma hdr_environment_processed_witness :
  gl_wf gl_init /\ gl_pingpong gl_init = None /\
  gl_env (gl_exec (rgbe_loaded 1 1 witness_hdr) gl_init) = Some (4 + gl_next gl_init)%nat /\
  gl_gpu (gl_exec (rgbe_loaded 1 1 witness_hdr) gl_init) !! (4 + gl_next gl_init)%nat =
    Some (GTexels (img_data (pmrem_of (mkImage 1 1 (map env_texel witness_hdr))))) /\
  gl_gpu (gl_exec (rgbe_loaded 1 1 witness_hdr) gl_init) !! gl_next gl_init = None /\
  gl_gpu (gl_exec (rgbe_loaded 1 1 witness_hdr) gl_init) !! (3 + gl_next gl_init)%nat = None /\
  gl_gpu (gl_exec (rgbe_loaded 1 1 witness_hdr) gl_init) !! (1 + gl_next gl_init)%nat = Some GProgram /\
  gl_gpu (gl_exec (rgbe_loaded 1 1 witness_hdr) gl_init) !! (2 + gl_next gl_init)%nat = Some GBuffers /\
  gl_pingpong (gl_exec (rgbe_loaded 1 1 witness_hdr) gl_init) = Some (5 + gl_next gl_init)%nat /\
  gl_gpu (gl_exec (rgbe_loaded 1 1 witness_hdr) gl_init) !! (5 + gl_next gl_init)%nat =
    Some (GTexels (pmrem_scratch (mkImage 1 1 (map env_texel witness_hdr)))) /\
  (forall x, (x < gl_next gl_init)%nat ->
     gl_gpu (gl_exec (rgbe_loaded 1 1 witness_hdr) gl_init) !! x = gl_gpu gl_init !! x) /\
  gl_target (gl_exec (rgbe_loaded 1 1 witness_hdr) gl_init) = None /\
  gl_env_rotation (gl_exec (rgbe_loaded 1 1 witness_hdr) gl_init) = 5 # 4 /\
  gl_env_intensity (gl_exec (rgbe_loaded 1 1 witness_hdr) gl_init) = 3.
Proof.
  assert (Hwf : gl_wf gl_init) by (intros x _; split; reflexivity).
  assert (Hp : gl_pingpong gl_init = None) by reflexivity.
  split; [exact Hwf|]. split; [exact Hp|].
  apply (hdr_environment_processed 1 1 witness_hdr gl_init Hwf Hp).
Defined.

End EnvWitness.
