(* ===== verification/Ui.v ===== *)
(** * The button panels and a page driven by its user

    main.js builds two panels of buttons before it loads the model: the
    skin panel [modelUI], one [makeModelButton(label, config)] call per
    skin (main.js:66-93), and the camera panel [ui], one button per entry
    of [cameraButtons] (main.js:873-897).  A skin button's [onclick] sets
    [currentConfig] and calls [applyConfig]; a camera button's listener
    calls [smoothSwitchCamera(name)], which reads [performance.now()].

    [Button] holds a label and the page event its handler runs, given the
    click's time; the panels are lists of buttons in the order they are
    appended.  [UPage] is the page as its user sees it: the two panels and
    the [Session] of Session.v.  The browser drives it by [UiEvent]s:
    presses on a panel's [i]-th button, animation frames and the loader's
    callbacks.  [ui_run] folds [ui_step] over them; [loadModel] is only
    called once, at the end of main.js, in [page_start].

    A press on the panels main.js builds runs the event of the table
    entry it was built from ([dispatch_press]).  C32 composes the panels with
    the session: every page its user can reach is a run of session events
    without a later [loadModel] call, so the loads are serialized, the
    scene holds at most one model, and the current skin satisfies the data
    invariant of spec section 3. *)

From S2P Require Import Prelude Configs Materials GlassAnim Camera Scene Session.

(** A button: [btn.textContent] and what its click handler runs. *)
Record Button := mkButton { btn_label : string; btn_onclick : Q -> Event }.

(** [makeModelButton(label, config)]: a button whose [onclick] is
    [currentConfig = config; applyConfig(config)], appended to [modelUI]. *)
Definition makeModelButton (modelUI : list Button) (label : string) (config : ModelConfig) :
    list Button :=
  modelUI ++ [mkButton label (fun _ => ClickSkin config)].

(** The [makeModelButton] calls of main.js:86-93, over the table
    [Skins.skin_buttons] (which leaves out Shiny Black Clear to Green:
    its config module is not in the repository). *)
Definition build_model_ui : list Button :=
  foldl (fun ui b => makeModelButton ui b.1 b.2) [] Skins.skin_buttons.

(** The body of [cameraButtons.forEach] (main.js:883-897). *)
Definition make_camera_button (ui : list Button) (b : string * string) : list Button :=
  ui ++ [mkButton b.1 (fun now => ClickCamera b.2 now)].

Definition build_camera_ui : list Button := foldl make_camera_button [] camera_buttons.

Inductive Panel := ModelPanel | CameraPanel.

Record UPage := mkUPage { modelUI : list Button; ui : list Button; session : Session }.

(** The page after main.js has run: both panels, then [loadModel(currentConfig)]. *)
Definition page_init : UPage := mkUPage build_model_ui build_camera_ui page_start.

Definition panel (pg : UPage) (p : Panel) : list Button :=
  match p with ModelPanel => modelUI pg | CameraPanel => ui pg end.

Inductive UiEvent :=
  | Press (p : Panel) (i : nat) (now : Q)       (* a click on a panel's i-th button *)
  | Frame (time now : Q)                        (* requestAnimationFrame *)
  | Loaded (k : nat) (a : Asset) (now : Q)      (* the k-th load's callback *)
  | Failed (k : nat).                           (* the k-th load's error *)

(** The session event a browser event runs, if any: a click that hits no
    button runs nothing. *)
Definition dispatch (pg : UPage) (e : UiEvent) : option Event :=
  match e with
  | Press p i now => (fun b => btn_onclick b now) <$> panel pg p !! i
  | Frame time now => Some (AnimFrame time now)
  | Loaded k a now => Some (LoadDone k a now)
  | Failed k => Some (LoadFailed k)
  end.

(** What the tables say a press runs. *)
Definition table_event (p : Panel) (i : nat) (now : Q) : option Event :=
  match p with
  | ModelPanel => (fun b => ClickSkin b.2) <$> Skins.skin_buttons !! i
  | CameraPanel => (fun b => ClickCamera b.2 now) <$> camera_buttons !! i
  end.

(** The skins a page can show: the start skin and those of the buttons. *)
Definition ui_configs : list ModelConfig := Skins.initial_config :: map snd Skins.skin_buttons.

(** The session events a user can cause: no [loadModel] call, and only
    the skins of the buttons. *)
Definition from_ui (ev : Event) : Prop :=
  match ev with
  | CallLoadModel _ => False
  | ClickSkin c => c ∈ ui_configs
  | _ => True
  end.

(** ** The panels are the tables *)

Lemma foldl_snoc_map {A B} (f : A -> B) (l : list A) acc :
  foldl (fun ui b => ui ++ [f b]) acc l = acc ++ map f l.
Proof.
  revert acc. induction l as [|x l IH]; intros acc; simpl; [by rewrite app_nil_r|].
  rewrite IH, <- app_assoc. reflexivity.
Qed.

Lemma build_model_ui_map :
  build_model_ui = map (fun b => mkButton b.1 (fun _ => ClickSkin b.2)) Skins.skin_buttons.
Proof. exact (foldl_snoc_map (fun b => mkButton b.1 (fun _ => ClickSkin b.2)) _ []). Qed.

Lemma build_camera_ui_map :
  build_camera_ui = map (fun b => mkButton b.1 (fun now => ClickCamera b.2 now)) camera_buttons.
Proof. exact (foldl_snoc_map (fun b => mkButton b.1 (fun now => ClickCamera b.2 now)) _ []). Qed.

(** A page whose panels are the ones main.js builds. *)
Definition panels_init (pg : UPage) : Prop :=
  modelUI pg = build_model_ui /\ ui pg = build_camera_ui.

Lemma lookup_map_option {A B} (f : A -> B) (l : list A) i : map f l !! i = f <$> l !! i.
Proof. revert i. induction l as [|x l IH]; intros [|i]; simpl; auto. Qed.

Lemma dispatch_press pg p i now :
  panels_init pg -> dispatch pg (Press p i now) = table_event p i now.
Proof.
  intros [Hm Hc]. destruct p; cbn [dispatch panel table_event];
    [rewrite Hm, build_model_ui_map | rewrite Hc, build_camera_ui_map];
    rewrite lookup_map_option; by destruct (_ !! i).
Qed.

(** Every event a press can run is one a user can cause. *)
Lemma table_event_from_ui p i now ev : table_event p i now = Some ev -> from_ui ev.
Proof.
  destruct p; cbn [table_event]; destruct (_ !! i) as [[l x]|] eqn:E; intros [=<-]; simpl; [|exact I].
  right. apply list_elem_of_In, in_map_iff. exists (l, x). split; [reflexivity|].
  apply list_elem_of_In. by eapply list_elem_of_lookup_2.
Qed.

Lemma from_ui_serial `{ThreeOps} evs s : Forall from_ui evs -> serial evs s = true.
Proof.
  revert s. induction evs as [|ev rest IH]; intros s Hf; [reflexivity|].
  inversion Hf as [|? ? Hev Hrest]; subst. cbn [serial]. rewrite (IH _ Hrest), andb_true_r.
  by destruct ev.
Qed.

Lemma step_config_from_ui `{ThreeOps} ev s :
  from_ui ev -> currentConfig s ∈ ui_configs -> currentConfig (exec (step ev) s) ∈ ui_configs.
Proof.
  intros Hev Hs. destruct ev as [c|nm now|t now|c|k a now|k]; simpl in Hev.
  - rewrite exec_click. unfold exec.
    destruct (applyConfig_scene (sceneChildren s) (currentModel s) (pending s) c c (set_config c s))
      as (_ & _ & _ & ->); [repeat split | exact Hev].
  - exact Hs.
  - rewrite exec_frame. cbv zeta. destruct (glass_frame _ _ _ _ _ _). exact Hs.
  - contradiction.
  - rewrite exec_loaddone. destruct (pending s !! k) as [c|]; [|exact Hs].
    unfold exec. by rewrite (load_callback_config (currentConfig s) c a now (set_pending (delete k (pending s)) s) eq_refl).
  - exact Hs.
Qed.

Lemma run_config_from_ui `{ThreeOps} evs s :
  Forall from_ui evs -> currentConfig s ∈ ui_configs -> currentConfig (run evs s) ∈ ui_configs.
Proof.
  revert s. induction evs as [|ev rest IH]; intros s Hf Hs; [exact Hs|].
  inversion Hf; subst. apply IH; [assumption|]. by apply step_config_from_ui.
Qed.

Lemma ui_configs_wf : Forall (fun c => config_wf c = true) ui_configs.
Proof. repeat constructor. Qed.

Section UiRun.
Context `{ThreeOps}.

Definition ui_step (pg : UPage) (e : UiEvent) : UPage :=
  match dispatch pg e with
  | Some ev => mkUPage (modelUI pg) (ui pg) (exec (step ev) (session pg))
  | None => pg
  end.

Definition ui_run (es : list UiEvent) (pg : UPage) : UPage := foldl ui_step pg es.

Lemma ui_step_panels pg e : panels_init pg -> panels_init (ui_step pg e).
Proof. intros Hp. unfold ui_step. by destruct (dispatch pg e). Qed.

(** A page driven by its user is a run of session events it can cause. *)
Lemma ui_run_events es pg :
  panels_init pg -> exists evs, session (ui_run es pg) = run evs (session pg) /\ Forall from_ui evs.
Proof.
  revert pg. induction es as [|e rest IH]; intros pg Hp; [by exists []|].
  destruct (IH (ui_step pg e) (ui_step_panels pg e Hp)) as (evs & Hrun & Hf).
  change (ui_run (e :: rest) pg) with (ui_run rest (ui_step pg e)). rewrite Hrun.
  unfold ui_step. destruct (dispatch pg e) as [ev|] eqn:Hd; [|by exists evs].
  exists (ev :: evs). split; [reflexivity|]. constructor; [|exact Hf].
  destruct e as [p i now| | |]; [|injection Hd as <-; exact I..].
  rewrite (dispatch_press _ _ _ _ Hp) in Hd. exact (table_event_from_ui _ _ _ _ Hd).
Qed.

(** C32: whatever its user does (presses, frames, loads completing or
    failing, in any order), the page never calls [loadModel] again, so its
    loads are serialized: the scene holds at most one glasses model, which
    is the current one, and the current skin is the start skin or a
    button's, with colours, roughness, metalness and opacities in [0, 1].
    The overlapping loads of C11 need a second [loadModel] call, which no
    button makes. *)
Theorem ui_page_one_model es :
  (length (sceneChildren (session (ui_run es page_init))) <= 1)%nat /\
  Forall (fun id => currentModel (session (ui_run es page_init)) = Some id)
    (sceneChildren (session (ui_run es page_init))) /\
  config_wf (currentConfig (session (ui_run es page_init))) = true.
Proof.
  destruct (ui_run_events es page_init) as (evs & Hrun & Hf); [split; reflexivity|].
  rewrite Hrun. cbn [session page_init].
  split; [|split].
  - destruct (run_one_model evs page_start (from_ui_serial evs _ Hf) page_start_one_model)
      as [_ [-> | (id & -> & _)]]; simpl; lia.
  - destruct (run_one_model evs page_start (from_ui_serial evs _ Hf) page_start_one_model)
      as [_ [-> | (id & -> & Hcm & _)]]; [constructor|by constructor].
  - apply (proj1 (Forall_forall _ _) ui_configs_wf).
    apply run_config_from_ui; [exact Hf|]. constructor.
Qed.

End UiRun.
